(** * The dataset-assembly pipeline of [YOLO_rqrr/train/augment.py]

    A shallow embedding of [augment.py]: the rqrr transform cascade, the
    collection of (image, label, name) samples from the Kipukas and kolabit
    trees, the seeded shuffle and split, and the materialisation of the
    output tree, followed by the properties stated about them.

    Modelling conventions.
    - A file name is a [string]; a directory is one of the locations the
      script touches ([dir]); the three roots passed to [augment_dataset]
      are taken to be distinct and not nested, as with the script's default
      arguments, and every directory entry is a regular file.
    - A Python [float] is the rational it denotes ([Q]). The product
      [len(all_samples) * val_ratio] of line 234 is rounded to binary64,
      to the nearest with a tie to the even significand, as the
      interpreter computes it; the exponent range is unbounded, so
      overflow to [inf] and the subnormal range are left out, as are
      [inf] and [nan] as arguments. NumPy's [float32] arithmetic in the
      transforms is exact rational arithmetic.
    - The libraries the script calls are interfaces: OpenCV is the class
      [OpenCV], the generator behind the [random] module is the class
      [PyRandom], NumPy's global generator is the stream of deviates it is
      going to deliver. *)

From Stdlib Require Import ZArith QArith Qround Qminmax Qpower Lqa Ascii.
From stdpp Require Import gmap strings list fin_maps sorting pretty.

Local Open Scope Z_scope.

(** ** Python values shared by every part *)

(** An exception: its class name and its message ([str(e)]). *)
Record exn := Exception { exn_type : string; exn_msg : string }.

Inductive result (A : Type) : Type :=
  | Ok (a : A)
  | Raise (e : exn).
Arguments Ok {A} a.
Arguments Raise {A} e.

Definition is_Ok {A} (r : result A) : bool :=
  match r with Ok _ => true | Raise _ => false end.

(** [int(x)] on a float: truncation toward zero. *)
Definition py_int (x : Q) : Z := Z.quot (Qnum x) (Zpos (Qden x)).

(** The binary exponent of a positive rational [x]: the [e] with
    [2^e <= x < 2^(e+1)]. *)
Definition ilog2 (x : Q) : Z :=
  let c := Z.log2 (Qnum x) - Z.log2 (Zpos (Qden x)) in
  if Qle_bool (2 ^ c) x then c else c - 1.

(** Rounding to the nearest integer, a tie to the even one. *)
Definition round_half_even (x : Q) : Z :=
  let f := Qfloor x in
  match (x - inject_Z f ?= 1 # 2)%Q with
  | Lt => f
  | Gt => f + 1
  | Eq => if Z.even f then f else f + 1
  end.

(** The binary64 number nearest to [x], a tie to the even significand:
    53 significant bits, the exponent unbounded. *)
Definition binary64 (x : Q) : Q :=
  match Qnum x with
  | Z0 => 0
  | Zpos _ =>
      let e := ilog2 x - 52 in
      (inject_Z (round_half_even (x / 2 ^ e)) * 2 ^ e)%Q
  | Zneg _ =>
      let e := ilog2 (- x) - 52 in
      (- (inject_Z (round_half_even (- x / 2 ^ e)) * 2 ^ e))%Q
  end.

(** [len(x) * r] for a list [x] of [n] elements and a float [r]: the
    length becomes a float, which is exact below 2^53, and the product is
    rounded. A list of 2^53 elements or more does not fit in any memory;
    the product is left exact there. *)
Definition len_times (n : nat) (r : Q) : Q :=
  if Z.of_nat n <? 2 ^ 53 then binary64 (inject_Z (Z.of_nat n) * r)
  else (inject_Z (Z.of_nat n) * r)%Q.

(** [l[:k]] and [l[k:]] with Python's index adjustment: a negative bound
    counts from the end, and every bound is clamped to the list. *)
Definition slice_bound (k : Z) (len : nat) : nat :=
  if k <? 0 then Z.to_nat (Z.max 0 (Z.of_nat len + k))
  else Z.to_nat (Z.min k (Z.of_nat len)).

Definition slice_to {A} (k : Z) (l : list A) : list A :=
  take (slice_bound k (length l)) l.

Definition slice_from {A} (k : Z) (l : list A) : list A :=
  drop (slice_bound k (length l)) l.

(** ** Strings and [pathlib] names *)

(** The line feed. *)
Definition nl : string := String (Ascii.ascii_of_nat 10) EmptyString.

Module pathlib.

(** [name.rfind('.')]: the index of the last dot, [None] for -1. *)
Fixpoint rfind_dot (name : string) : option nat :=
  match name with
  | EmptyString => None
  | String c rest =>
      match rfind_dot rest with
      | Some i => Some (S i)
      | None => if Ascii.eqb c "."%char then Some 0%nat else None
      end
  end.

(** [PurePath.suffix]: [name[i:]] when [0 < i < len(name) - 1]. *)
Definition suffix (name : string) : string :=
  match rfind_dot name with
  | Some i =>
      if (0 <? i)%nat && (i <? String.length name - 1)%nat
      then String.substring i (String.length name - i) name
      else EmptyString
  | None => EmptyString
  end.

(** [PurePath.stem]: [name[:i]] under the same condition. *)
Definition stem (name : string) : string :=
  match rfind_dot name with
  | Some i =>
      if (0 <? i)%nat && (i <? String.length name - 1)%nat
      then String.substring 0 i name
      else name
  | None => name
  end.

(** [str.endswith]. *)
Definition endswith (name suf : string) : bool :=
  (String.length suf <=? String.length name)%nat &&
  String.eqb
    (String.substring (String.length name - String.length suf)
       (String.length suf) name)
    suf.

(** [str.lower] on ASCII letters. *)
Definition lower_ascii (c : Ascii.ascii) : Ascii.ascii :=
  let n := Ascii.nat_of_ascii c in
  if (65 <=? n)%nat && (n <=? 90)%nat then Ascii.ascii_of_nat (n + 32) else c.

Fixpoint lower (s : string) : string :=
  match s with
  | EmptyString => EmptyString
  | String c rest => String (lower_ascii c) (lower rest)
  end.

End pathlib.

(** ** The file system *)

Inductive split_name := train | val.

Definition split_str (s : split_name) : string :=
  match s with train => "train" | val => "val" end.

(** The directories of one run:
    [kipukas_dir/images/train], [kipukas_dir/labels/train],
    [kolabit_dir/images/<split>], [kolabit_dir/labels/<split>],
    [output_dir/_augmented], [output_dir/images/<split>],
    [output_dir/labels/<split>] and [output_dir.parent/train]. *)
Inductive dir :=
  | kip_images
  | kip_labels
  | kol_images (s : split_name)
  | kol_labels (s : split_name)
  | aug_dir
  | out_images (s : split_name)
  | out_labels (s : split_name)
  | yaml_dir.

#[global] Instance split_name_eq_dec : EqDecision split_name.
Proof. solve_decision. Defined.

#[global] Instance dir_eq_dec : EqDecision dir.
Proof. solve_decision. Defined.

Definition dir_code (d : dir) : nat :=
  match d with
  | kip_images => 0 | kip_labels => 1
  | kol_images train => 2 | kol_images val => 3
  | kol_labels train => 4 | kol_labels val => 5
  | aug_dir => 6
  | out_images train => 7 | out_images val => 8
  | out_labels train => 9 | out_labels val => 10
  | yaml_dir => 11
  end%nat.

Definition dir_of_code (n : nat) : option dir :=
  match n with
  | 0 => Some kip_images | 1 => Some kip_labels
  | 2 => Some (kol_images train) | 3 => Some (kol_images val)
  | 4 => Some (kol_labels train) | 5 => Some (kol_labels val)
  | 6 => Some aug_dir
  | 7 => Some (out_images train) | 8 => Some (out_images val)
  | 9 => Some (out_labels train) | 10 => Some (out_labels val)
  | 11 => Some yaml_dir
  | _ => None
  end%nat.

#[global] Instance dir_countable : Countable dir.
Proof.
  apply (inj_countable dir_code dir_of_code).
  by intros [| |[]|[]| |[]|[]|].
Defined.

(** A file's bytes. *)
Abbreviation content := string (only parsing).

(** A path is a directory and a file name in it. *)
Definition path : Type := dir * string.

(** The directories that exist, each with its named files. *)
Abbreviation filesystem := (gmap dir (gmap string string)) (only parsing).

Definition dir_exists (f : filesystem) (d : dir) : bool :=
  bool_decide (is_Some (f !! d)).

Definition read_file (f : filesystem) (p : path) : option content :=
  f !! p.1 ≫= (.!! p.2).

(** [Path.exists()]. *)
Definition path_exists (f : filesystem) (p : path) : bool :=
  bool_decide (is_Some (read_file f p)).

(** The names in a directory, in the order the operating system yields
    them. *)
Definition listdir (f : filesystem) (d : dir) : option (list string) :=
  (λ files : gmap string content, map fst (map_to_list files)) <$> f !! d.

(** [sorted(...)] on paths of one directory: by name. *)
Definition sorted (names : list string) : list string :=
  merge_sort String.le names.

(** [sorted(d.glob("*.jpg"))]; an absent directory yields nothing. *)
Definition glob_jpg (f : filesystem) (d : dir) : list string :=
  match listdir f d with
  | Some names => sorted (filter (λ n, Is_true (pathlib.endswith n ".jpg")) names)
  | None => []
  end.

(** Writing a file into an existing directory. *)
Definition write_file (p : path) (c : content) (f : filesystem)
    : option filesystem :=
  (λ files : gmap string content, <[p.1 := <[p.2 := c]> files]> f) <$> f !! p.1.

(** [d.mkdir(parents=True, exist_ok=True)]. *)
Definition mkdir_p (d : dir) (f : filesystem) : filesystem :=
  match f !! d with Some _ => f | None => <[d := ∅]> f end.

(** [shutil.rmtree(d, ignore_errors=True)]. *)
Definition rmtree (d : dir) (f : filesystem) : filesystem :=
  delete d f.

(** ** Images, NumPy and OpenCV *)

(** A NumPy [uint8] array of shape [(H, W)] or [(H, W, 3)], rows of pixels;
    a colour pixel is [(b, g, r)]. [len(img.shape) == 3] holds for [BGR]. *)
Definition grey_image : Type := list (list Z).
Definition bgr_image : Type := list (list (Z * Z * Z)).

Inductive image :=
  | Grey (g : grey_image)
  | BGR (c : bgr_image).

(** Every value of the array is a [uint8]. *)
Definition uint8_grey (g : grey_image) : Prop :=
  ∀ row p, row ∈ g → p ∈ row → 0 ≤ p ≤ 255.

(** NumPy's global generator, seeded from operating-system entropy when
    the module is loaded: its state is the sequence of standard normal
    deviates it is going to deliver. *)
Definition np_state : Type := nat → Q.

Definition legacy_gauss (s : np_state) : Q * np_state :=
  (s 0%nat, λ i, s (S i)).

(** The OpenCV calls of the script. Each is total on 8-bit images, as its
    documentation has it; [imread] yields [None] for a file it cannot
    decode. [adaptiveThreshold src maxValue blockSize C] is the call with
    [ADAPTIVE_THRESH_MEAN_C] and [THRESH_BINARY]; [threshold_otsu src thresh
    maxval] the call with [THRESH_BINARY + THRESH_OTSU]; [CLAHE_apply clip
    grid src] is [createCLAHE(clip, grid).apply(src)]; [imencode name img
    q] is the encoder behind [imwrite], chosen by the extension of the file
    name, with [IMWRITE_JPEG_QUALITY = q];
    [jpeg_roundtrip img q] is [imdecode(imencode('.jpg', img, q)[1],
    IMREAD_COLOR)]. *)
Class OpenCV := {
  imread : content → option image;
  imencode : string → image → Z → content;
  BGR2GRAY : bgr_image → grey_image;
  adaptiveThreshold : grey_image → Z → Z → Z → grey_image;
  CLAHE_apply : Q → Z * Z → grey_image → grey_image;
  GaussianBlur : grey_image → Z * Z → Q → grey_image;
  threshold_otsu : grey_image → Z → Z → grey_image;
  jpeg_roundtrip : image → Z → image
}.

(** [cv2.cvtColor(g, cv2.COLOR_GRAY2BGR)]. *)
Definition GRAY2BGR (g : grey_image) : image :=
  BGR (map (map (λ v, (v, v, v))) g).

(** [grey.min()] and [grey.max()]; NumPy raises on an array without
    elements. *)
Definition np_min (g : grey_image) : result Z :=
  match concat g with
  | [] => Raise (Exception "ValueError" "zero-size array to reduction operation minimum which has no identity")
  | p :: ps => Ok (foldl Z.min p ps)
  end.

Definition np_max (g : grey_image) : result Z :=
  match concat g with
  | [] => Raise (Exception "ValueError" "zero-size array to reduction operation maximum which has no identity")
  | p :: ps => Ok (foldl Z.max p ps)
  end.

(** [x / d] on floats; [None] stands for the [inf] or [nan] of a division
    by zero. *)
Definition true_divide (x : Q) (d : Z) : option Q :=
  if d =? 0 then None else Some (x / inject_Z d)%Q.

(** [x.astype(np.uint8)] on a float. *)
Definition astype_uint8 (x : Q) : Z := py_int x mod 256.

(** [np.clip(x, lo, hi)]. *)
Definition np_clip (x lo hi : Q) : Q := Qmin (Qmax x lo) hi.

Section transforms.
Context `{cv : OpenCV}.

(** [cv2.cvtColor(img, cv2.COLOR_BGR2GRAY) if len(img.shape) == 3 else img].
    [cv2.cvtColor] rejects an array without elements, which [cv2.imread]
    never returns: the conversion is that of an image with at least one
    element. *)
Definition to_grey (img : image) : grey_image :=
  match img with
  | BGR c => BGR2GRAY c
  | Grey g => g
  end.

Definition adaptive_thresh (img : image) (block c : Z) : image :=
  let grey := to_grey img in
  let binary := adaptiveThreshold grey 255 (block * 2 + 1) c in
  GRAY2BGR binary.

Definition adaptive_thresh_fine (img : image) : image :=
  adaptive_thresh img 11 6.

Definition adaptive_thresh_coarse (img : image) : image :=
  adaptive_thresh img 21 10.

Definition clahe_transform (img : image) (tiles : Z) (clip : Q) : image :=
  let grey := to_grey img in
  let result := CLAHE_apply clip (tiles, tiles) grey in
  GRAY2BGR result.

Definition blur_adaptive (img : image) : image :=
  let grey := to_grey img in
  let blurred := GaussianBlur grey (5, 5) 0%Q in
  let binary := adaptiveThreshold blurred 255 31 8 in
  GRAY2BGR binary.

(** One element of
    [((grey.astype(np.float32) - lo) / (hi - lo) * 255).astype(np.uint8)];
    [lo] and [hi] are [uint8] scalars, so is [hi - lo]. *)
Definition stretch_pixel (lo hi p : Z) : option Z :=
  q ← true_divide (inject_Z p - inject_Z lo)%Q ((hi - lo) mod 256);
  Some (astype_uint8 (q * 255)%Q).

(** Lines 82 to 86: the array handed to the threshold. [None] means
    that some element was divided by zero. *)
Definition contrast_stretch (lo hi : Z) (grey : grey_image)
    : option grey_image :=
  if hi =? lo then Some grey
  else mapM (mapM (stretch_pixel lo hi)) grey.

(** A division by zero is an error outcome of the model, so that its
    absence is a statement about the code. *)
Definition contrast_stretch_adaptive (img : image) : result image :=
  let grey := to_grey img in
  match np_min grey, np_max grey with
  | Raise e, _ => Raise e
  | Ok _, Raise e => Raise e
  | Ok lo, Ok hi =>
      match contrast_stretch lo hi grey with
      | None => Raise (Exception "ZeroDivision" "divide by zero encountered in divide")
      | Some stretched =>
          let binary := adaptiveThreshold stretched 255 31 8 in
          Ok (GRAY2BGR binary)
      end
  end.

Definition yellow_pixel (px : Z * Z * Z) : Z :=
  let '(b, g, r) := px in
  let yellow := Z.max r g - b in
  Z.min (Z.max yellow 0) 255.

Definition yellow_aware (img : image) : image :=
  match img with
  | Grey g => GRAY2BGR g
  | BGR c => GRAY2BGR (map (map yellow_pixel) c)
  end.

Definition otsu_thresh (img : image) : image :=
  let grey := to_grey img in
  let binary := threshold_otsu grey 0 255 in
  GRAY2BGR binary.

(** One element of
    [np.clip(img.astype(np.float32) + noise, 0, 255).astype(np.uint8)]
    where [noise] is the next deviate of [np.random.normal(0, sigma)]. *)
Definition noisy_value (sigma : Q) (p : Z) (s : np_state) : Z * np_state :=
  let '(z, s') := legacy_gauss s in
  let noise := (0 + sigma * z)%Q in
  (astype_uint8 (np_clip (inject_Z p + noise) 0 255), s').

(** A loop over an array in memory order, threading the generator. *)
Fixpoint map_draw {A B} (f : A → np_state → B * np_state) (l : list A)
    (s : np_state) : list B * np_state :=
  match l with
  | [] => ([], s)
  | x :: l' =>
      let '(y, s1) := f x s in
      let '(ys, s2) := map_draw f l' s1 in
      (y :: ys, s2)
  end.

Definition noisy_bgr (sigma : Q) (px : Z * Z * Z) (s : np_state)
    : (Z * Z * Z) * np_state :=
  let '(b, g, r) := px in
  let '(b', s1) := noisy_value sigma b s in
  let '(g', s2) := noisy_value sigma g s1 in
  let '(r', s3) := noisy_value sigma r s2 in
  ((b', g', r'), s3).

Definition gaussian_noise (img : image) (sigma : Q) (s : np_state)
    : image * np_state :=
  match img with
  | Grey g =>
      let '(g', s') := map_draw (map_draw (noisy_value sigma)) g s in
      (Grey g', s')
  | BGR c =>
      let '(c', s') := map_draw (map_draw (noisy_bgr sigma)) c s in
      (BGR c', s')
  end.

Definition jpeg_compress (img : image) (quality : Z) : image :=
  jpeg_roundtrip img quality.

(** An operator of the cascade: it may raise, and it may draw from
    NumPy's generator. *)
Definition transform_fn : Type := image → np_state → result image * np_state.

Definition pure_fn (f : image → image) : transform_fn :=
  λ img s, (Ok (f img), s).

Definition TRANSFORMS : list (string * transform_fn) :=
  [ ("at15", pure_fn (λ img, adaptive_thresh img 15 8));
    ("at11", pure_fn adaptive_thresh_fine);
    ("at21", pure_fn adaptive_thresh_coarse);
    ("clahe", pure_fn (λ img, clahe_transform img 4 2%Q));
    ("blur_at", pure_fn blur_adaptive);
    ("stretch_at", λ img s, (contrast_stretch_adaptive img, s));
    ("yellow", pure_fn yellow_aware);
    ("otsu", pure_fn otsu_thresh);
    ("noise15", λ img s, let '(noisy, s') := gaussian_noise img 15%Q s in (Ok noisy, s'));
    ("jpeg35", pure_fn (λ img, jpeg_compress img 35)) ].

End transforms.

(** ** The generator of the [random] module *)

(** The Mersenne Twister behind [random.seed] and [random.shuffle]:
    [py_seed a] is the state [random.seed(a)] installs, whatever the state
    before; [py_randbelow n s] is [_randbelow(n)], which answers in
    [range(n)]. *)
Class PyRandom := {
  py_state : Type;
  py_seed : Z → py_state;
  py_randbelow : Z → py_state → Z * py_state;
  py_randbelow_range : ∀ n s, 0 < n → 0 ≤ (py_randbelow n s).1 < n
}.

Section shuffle.
Context `{rng : PyRandom} {A : Type}.

(** [x[i], x[j] = x[j], x[i]]; an index out of range is an [IndexError]
    in Python, which [py_randbelow_range] excludes. *)
Definition swap (i j : nat) (x : list A) : list A :=
  match x !! j, x !! i with
  | Some xj, Some xi => <[j := xi]> (<[i := xj]> x)
  | _, _ => x
  end.

(** [for i in reversed(range(1, len(x))): j = randbelow(i + 1); swap],
    from index [i] down to 1. *)
Fixpoint shuffle_from (i : nat) (x : list A) (s : py_state)
    : list A * py_state :=
  match i with
  | O => (x, s)
  | S i' =>
      let '(j, s') := py_randbelow (Z.of_nat i + 1) s in
      shuffle_from i' (swap i (Z.to_nat j) x) s'
  end.

Definition shuffle (x : list A) (s : py_state) : list A * py_state :=
  shuffle_from (length x - 1) x s.

End shuffle.

(** ** The state of a run and its monad *)

Section pipeline.
Context `{cv : OpenCV} `{rng : PyRandom}.

(** What a run can read and change: the file system, the two global
    generators, and what was printed. *)
Record world := World {
  fs : filesystem;
  py_random : py_state;
  np_random : np_state;
  stdout : list string
}.

Definition M (A : Type) : Type := world → result A * world.

#[global] Instance M_ret : MRet M := λ A a w, (Ok a, w).

#[global] Instance M_bind : MBind M := λ A B k m w,
  match m w with
  | (Ok a, w') => k a w'
  | (Raise e, w') => (Raise e, w')
  end.

Definition raise {A} (e : exn) : M A := λ w, (Raise e, w).

Definition print (line : string) : M unit := λ w,
  (Ok (), World (fs w) (py_random w) (np_random w) (stdout w ++ [line])).

Definition with_fs (f : filesystem) (w : world) : world :=
  World f (py_random w) (np_random w) (stdout w).

(** [p.exists()] *)
Definition exists_ (p : path) : M bool := λ w, (Ok (path_exists (fs w) p), w).

Definition dir_exists_ (d : dir) : M bool := λ w, (Ok (dir_exists (fs w) d), w).

Definition mkdir (d : dir) : M unit := λ w, (Ok (), with_fs (mkdir_p d (fs w)) w).

(** [sorted(d.glob("*.jpg"))] *)
Definition glob_sorted (d : dir) : M (list string) := λ w,
  (Ok (glob_jpg (fs w) d), w).

(** [list(d.iterdir())] *)
Definition iterdir (d : dir) : M (list string) := λ w,
  match listdir (fs w) d with
  | Some names => (Ok names, w)
  | None => (Raise (Exception "FileNotFoundError" "No such file or directory"), w)
  end.

(** [p.unlink()] *)
Definition unlink (p : path) : M unit := λ w,
  match fs w !! p.1 with
  | Some files =>
      match files !! p.2 with
      | Some _ => (Ok (), with_fs (<[p.1 := delete p.2 files]> (fs w)) w)
      | None => (Raise (Exception "FileNotFoundError" "No such file or directory"), w)
      end
  | None => (Raise (Exception "FileNotFoundError" "No such file or directory"), w)
  end.

(** [shutil.copy2(src, dst)] *)
Definition copy2 (src dst : path) : M unit := λ w,
  match read_file (fs w) src with
  | Some c =>
      match write_file dst c (fs w) with
      | Some f' => (Ok (), with_fs f' w)
      | None => (Raise (Exception "FileNotFoundError" "No such file or directory"), w)
      end
  | None => (Raise (Exception "FileNotFoundError" "No such file or directory"), w)
  end.

(** [p.write_text(text)] *)
Definition write_text (p : path) (text : content) : M unit := λ w,
  match write_file p text (fs w) with
  | Some f' => (Ok (), with_fs f' w)
  | None => (Raise (Exception "FileNotFoundError" "No such file or directory"), w)
  end.

(** [shutil.rmtree(d, ignore_errors=True)] *)
Definition rmtree_ (d : dir) : M unit := λ w, (Ok (), with_fs (rmtree d (fs w)) w).

(** [cv2.imread(str(p))]: [None] for a missing or undecodable file. *)
Definition cv2_imread (p : path) : M (option image) := λ w,
  (Ok (read_file (fs w) p ≫= imread), w).

(** [cv2.imwrite(str(p), img, [cv2.IMWRITE_JPEG_QUALITY, q])]: it
    reports a failure through its return value, which the script
    ignores. *)
Definition cv2_imwrite (p : path) (img : image) (q : Z) : M unit := λ w,
  match write_file p (imencode p.2 img q) (fs w) with
  | Some f' => (Ok (), with_fs f' w)
  | None => (Ok (), w)
  end.

(** [try: r = transform_fn(img)  except Exception as e: ...]: the
    outcome of the call, handed to the handler as a value. *)
Definition try_transform (f : transform_fn) (img : image) : M (result image) := λ w,
  let '(r, s') := f img (np_random w) in
  (Ok r, World (fs w) (py_random w) s' (stdout w)).

(** [random.seed(a)] *)
Definition random_seed (a : Z) : M unit := λ w,
  (Ok (), World (fs w) (py_seed a) (np_random w) (stdout w)).

(** [random.shuffle(x)], returning the list it leaves in [x]. *)
Definition random_shuffle {A} (x : list A) : M (list A) := λ w,
  let '(x', s') := shuffle x (py_random w) in
  (Ok x', World (fs w) s' (np_random w) (stdout w)).

(** [for x in xs: body], with the variables the body assigns as [acc];
    [continue] is the body returning early. *)
Fixpoint for_loop {X S} (xs : list X) (body : X → S → M S) (acc : S) : M S :=
  match xs with
  | [] => mret acc
  | x :: xs' => acc' ← body x acc; for_loop xs' body acc'
  end.

(** ** [augment_dataset] *)

(** An element of [all_samples]: [(image_path, label_path, name)]. *)
Definition sample : Type := path * path * string.

(** The module-level table [TRANSFORMS] is an argument, [cascade], so
    that a statement can range over tables in which an operator has been
    replaced; the script runs with [TRANSFORMS]. [output_dir] and
    [yaml_path] are the texts of [str(output_dir)] and [str(yaml_path)]
    that the script prints. *)
Variable cascade : list (string * transform_fn).
Variables (output_dir yaml_path : string).

(** Lines 154 to 160: the Kipukas originals. *)
Definition collect_originals (kip_imgs : list string)
    (all_samples : list sample) : M (list sample) :=
  for_loop kip_imgs (λ img_name all_samples,
    let stem := pathlib.stem img_name in
    let lbl_path := (kip_labels, stem +:+ ".txt") in
    present ← exists_ lbl_path;
    if negb present then
      print ("  WARN: no label for " +:+ stem +:+ ", skipping");;
      mret all_samples
    else
      mret (all_samples ++ [((kip_images, img_name), lbl_path, "kip_" +:+ stem)])
  ) all_samples.

(** Lines 177 to 193: the cascade on one decoded image. The loop
    assigns [all_samples] and [aug_count]. *)
Definition augment_image (stem : string) (lbl_path : path) (img : image)
    (acc : list sample * nat) : M (list sample * nat) :=
  for_loop cascade (λ '(suffix, transform_fn) '(all_samples, aug_count),
    outcome ← try_transform transform_fn img;
    match outcome with
    | Raise e =>
        print ("  WARN: " +:+ suffix +:+ " failed on " +:+ stem +:+ ": " +:+ exn_msg e);;
        mret (all_samples, aug_count)
    | Ok augmented =>
        let aug_name := "kip_" +:+ stem +:+ "_" +:+ suffix in
        let aug_img_path := (aug_dir, aug_name +:+ ".jpg") in
        cv2_imwrite aug_img_path augmented 92;;
        let aug_lbl_path := (aug_dir, aug_name +:+ ".txt") in
        copy2 lbl_path aug_lbl_path;;
        mret (all_samples ++ [(aug_img_path, aug_lbl_path, aug_name)], S aug_count)
    end
  ) acc.

(** Lines 167 to 193: the augmented variants. *)
Definition collect_augmented (kip_imgs : list string)
    (acc : list sample * nat) : M (list sample * nat) :=
  for_loop kip_imgs (λ img_name acc,
    let stem := pathlib.stem img_name in
    let lbl_path := (kip_labels, stem +:+ ".txt") in
    present ← exists_ lbl_path;
    if negb present then mret acc
    else
      img ← cv2_imread (kip_images, img_name);
      match img with
      | None => mret acc
      | Some img => augment_image stem lbl_path img acc
      end
  ) acc.

(** [img_path.suffix.lower() in ('.jpg', '.jpeg', '.png')] *)
Definition image_suffix (name : string) : bool :=
  bool_decide (pathlib.lower (pathlib.suffix name) ∈ [".jpg"; ".jpeg"; ".png"]).

(** Lines 202 to 211 and 216 to 225: one subtree of the kolabit set;
    the script has the loop twice, for [train] with the prefix [kol_] and
    for [val] with [kol_v_]. *)
Definition collect_kolabit (s : split_name) (prefix : string)
    (acc : list sample * nat) : M (list sample * nat) :=
  there ← dir_exists_ (kol_images s);
  if (there : bool) then
    names ← iterdir (kol_images s);
    for_loop (sorted names) (λ img_name '(all_samples, kolabit_count),
      if negb (image_suffix img_name) then mret (all_samples, kolabit_count)
      else
        let stem := pathlib.stem img_name in
        let lbl_path := (kol_labels s, stem +:+ ".txt") in
        present ← exists_ lbl_path;
        if negb present then mret (all_samples, kolabit_count)
        else
          mret (all_samples ++ [((kol_images s, img_name), lbl_path, prefix +:+ stem)],
                S kolabit_count)
    ) acc
  else mret acc.

(** Lines 231 to 236: shuffle and split, giving
    [(train_samples, val_samples)]. *)
Definition val_count_of (n : nat) (val_ratio : Q) : Z :=
  Z.max 1 (py_int (len_times n val_ratio)).

Definition shuffle_and_split (all_samples : list sample) (val_ratio : Q)
    : M (list sample * list sample) :=
  random_seed 42;;
  all_samples ← random_shuffle all_samples;
  let val_count := val_count_of (length all_samples) val_ratio in
  let val_samples := slice_to val_count all_samples in
  let train_samples := slice_from val_count all_samples in
  mret (train_samples, val_samples).

(** Lines 242 to 256: one subset written to the output tree. *)
Definition write_split (s : split_name) (samples : list sample) : M unit :=
  let img_out := out_images s in
  let lbl_out := out_labels s in
  mkdir img_out;;
  mkdir lbl_out;;
  stale ← iterdir img_out;
  for_loop stale (λ f _, unlink (img_out, f)) ();;
  stale ← iterdir lbl_out;
  for_loop stale (λ f _, unlink (lbl_out, f)) ();;
  for_loop samples (λ '(img_path, lbl_path, name) _,
    let ext := pathlib.suffix img_path.2 in
    copy2 img_path (img_out, name +:+ ext);;
    copy2 lbl_path (lbl_out, name +:+ ".txt")
  ) ().

Definition yaml_content (kip aug kol total ntrain nval : nat) : content :=
  "# Kipukas QR Detection — Augmented Dataset" +:+ nl +:+
  "# Kipukas originals: " +:+ pretty kip +:+ nl +:+
  "# Augmented (rqrr cascade): " +:+ pretty aug +:+ nl +:+
  "# Kolabit: " +:+ pretty kol +:+ nl +:+
  "# Total: " +:+ pretty total +:+ " (" +:+ pretty ntrain +:+ " train, "
    +:+ pretty nval +:+ " val)" +:+ nl +:+
  nl +:+
  "path: " +:+ output_dir +:+ nl +:+
  "train: images/train" +:+ nl +:+
  "val: images/val" +:+ nl +:+
  nl +:+
  "nc: 1" +:+ nl +:+
  "names:" +:+ nl +:+
  "  0: qr-code" +:+ nl.

(** Steps 1 to 3 of [augment_dataset], lines 145 to 228: the pool, with
    the three counts the later steps print. *)
Definition collect_samples : M (nat * list sample * nat * nat) :=
  (* 1. Kipukas originals *)
  kip_imgs ← glob_sorted kip_images;
  print ("[augment] Found " +:+ pretty (length kip_imgs) +:+ " Kipukas images");;
  all_samples ← collect_originals kip_imgs [];
  (* 2. Augmented Kipukas variants *)
  mkdir aug_dir;;
  '(all_samples, aug_count) ← collect_augmented kip_imgs (all_samples, O);
  print ("[augment] Generated " +:+ pretty aug_count +:+ " augmented images");;
  (* 3. Kolabit originals *)
  '(all_samples, kolabit_count) ← collect_kolabit train "kol_" (all_samples, O);
  '(all_samples, kolabit_count) ← collect_kolabit val "kol_v_" (all_samples, kolabit_count);
  print ("[augment] Found " +:+ pretty kolabit_count +:+ " kolabit images");;
  print ("[augment] Total samples: " +:+ pretty (length all_samples));;
  mret (length kip_imgs, all_samples, aug_count, kolabit_count).

(** Steps 4 to 6, lines 230 to 289. *)
Definition write_dataset (n_kip_imgs : nat) (all_samples : list sample)
    (aug_count kolabit_count : nat) (val_ratio : Q) : M unit :=
  (* 4. Shuffle and split *)
  '(train_samples, val_samples) ← shuffle_and_split all_samples val_ratio;
  print ("[augment] Split: " +:+ pretty (length train_samples) +:+ " train, "
         +:+ pretty (length val_samples) +:+ " val");;
  (* 5. Write to output *)
  for_loop [(train, train_samples); (val, val_samples)]
    (λ '(split, samples) _, write_split split samples) ();;
  (* 6. Write dataset.yaml *)
  write_text (yaml_dir, "dataset.yaml")
    (yaml_content n_kip_imgs aug_count kolabit_count
       (length all_samples) (length train_samples) (length val_samples));;
  print ("[augment] Wrote " +:+ yaml_path);;
  (* Cleanup temp augmented dir *)
  rmtree_ aug_dir;;
  print EmptyString;;
  print "============================================================";;
  print "Augmentation Complete";;
  print "============================================================";;
  print ("  Output:   " +:+ output_dir);;
  print ("  Train:    " +:+ pretty (length train_samples) +:+ " images");;
  print ("  Val:      " +:+ pretty (length val_samples) +:+ " images");;
  print ("  Dataset:  " +:+ yaml_path);;
  print EmptyString;;
  print "Next: python train.py --epochs 100 --device mps".

(** [augment_dataset(kipukas_dir, kolabit_dir, output_dir, val_ratio)] *)
Definition augment_dataset (val_ratio : Q) : M unit :=
  '(n_kip_imgs, all_samples, aug_count, kolabit_count) ← collect_samples;
  write_dataset n_kip_imgs all_samples aug_count kolabit_count val_ratio.

End pipeline.

(** The script as it is run: the cascade is [TRANSFORMS]. *)
Definition main `{cv : OpenCV} `{rng : PyRandom} (output_dir yaml_path : string)
    (val_ratio : Q) : M unit :=
  augment_dataset TRANSFORMS output_dir yaml_path val_ratio.

(** ** Instances for closed examples *)

(** A stand-in for OpenCV: an image file holds one row of pixels, one
    byte each, and a file without bytes cannot be decoded. *)
Definition demo_decode (c : content) : option image :=
  match c with
  | EmptyString => None
  | _ => Some (BGR [map (λ a, let v := Z.of_nat (nat_of_ascii a) in (v, v, v))
                      (String.list_ascii_of_string c)])
  end.

Definition demo_encode (img : image) : content :=
  match img with
  | Grey g => String.string_of_list_ascii (map (λ v, ascii_of_nat (Z.to_nat v)) (concat g))
  | BGR c => String.string_of_list_ascii (map (λ '(b, _, _), ascii_of_nat (Z.to_nat b)) (concat c))
  end.

Definition demo_binary (maxval cut : Z) (g : grey_image) : grey_image :=
  map (map (λ p, if cut <? p then maxval else 0)) g.

#[global] Instance demo_cv : OpenCV := {|
  imread := demo_decode;
  imencode _ img _ := demo_encode img;
  BGR2GRAY c := map (map (λ '(b, g, r), (b + g + r) / 3)) c;
  adaptiveThreshold src maxval _ c := demo_binary maxval (127 - c) src;
  CLAHE_apply _ _ src := src;
  GaussianBlur src _ _ := src;
  threshold_otsu src _ maxval := demo_binary maxval 127 src;
  jpeg_roundtrip img _ := img
|}.

(** A stand-in for the Mersenne Twister: a linear congruential
    generator. *)
Definition demo_randbelow (n s : Z) : Z * Z :=
  (s mod n, (s * 1103515245 + 12345) mod 2147483648).

#[global] Instance demo_rng : PyRandom := {|
  py_state := Z;
  py_seed a := a;
  py_randbelow := demo_randbelow;
  py_randbelow_range n s := Z.mod_pos_bound s n
|}.

(** ** What a run computes, as functions

    The loops of [augment_dataset] are shown below to compute these
    functions of the file system and of the generator state; the
    statements are phrased with them. *)

(** The pair a Kipukas image contributes as an original. *)
Definition original_of (f : filesystem) (img_name : string) : option sample :=
  let stem := pathlib.stem img_name in
  let lbl_path := (kip_labels, stem +:+ ".txt") in
  if path_exists f lbl_path
  then Some ((kip_images, img_name), lbl_path, "kip_" +:+ stem)
  else None.

(** The warning it leads to instead, when its label is missing. *)
Definition original_warning (f : filesystem) (img_name : string) : option string :=
  let stem := pathlib.stem img_name in
  if path_exists f (kip_labels, stem +:+ ".txt") then None
  else Some ("  WARN: no label for " +:+ stem +:+ ", skipping").

(** The pair a kolabit image contributes. *)
Definition kolabit_of (f : filesystem) (s : split_name) (prefix : string)
    (img_name : string) : option sample :=
  if image_suffix img_name then
    let stem := pathlib.stem img_name in
    let lbl_path := (kol_labels s, stem +:+ ".txt") in
    if path_exists f lbl_path
    then Some ((kol_images s, img_name), lbl_path, prefix +:+ stem)
    else None
  else None.

Definition kolabit_samples (f : filesystem) (s : split_name) (prefix : string)
    : list sample :=
  match listdir f (kol_images s) with
  | Some names => omap (kolabit_of f s prefix) (sorted names)
  | None => []
  end.

(** The name, and the pair, of the variant [suffix] of the seed image
    [stem]: lines 184 to 192. *)
Definition aug_name (stem suffix : string) : string :=
  "kip_" +:+ stem +:+ "_" +:+ suffix.

Definition aug_sample (stem suffix : string) : sample :=
  ((aug_dir, aug_name stem suffix +:+ ".jpg"),
   (aug_dir, aug_name stem suffix +:+ ".txt"),
   aug_name stem suffix).

(** The outcome of every operator of the cascade on one image, in order,
    and the state NumPy's generator is left in. *)
Fixpoint cascade_outcomes (ops : list (string * transform_fn)) (img : image)
    (s : np_state) : list (string * result image) * np_state :=
  match ops with
  | [] => ([], s)
  | (suffix, transform_fn) :: ops' =>
      let r := transform_fn img s in
      let rest := cascade_outcomes ops' img r.2 in
      ((suffix, r.1) :: rest.1, rest.2)
  end.

(** The pairs, the warnings and the files an image's outcomes lead to. *)
Definition aug_added (stem : string) (outs : list (string * result image))
    : list sample :=
  omap (λ o, match o.2 with Ok _ => Some (aug_sample stem o.1) | Raise _ => None end) outs.

Definition aug_warnings (stem : string) (outs : list (string * result image))
    : list string :=
  omap (λ o, match o.2 with
             | Ok _ => None
             | Raise e => Some ("  WARN: " +:+ o.1 +:+ " failed on " +:+ stem +:+ ": " +:+ exn_msg e)
             end) outs.

Definition aug_write `{cv : OpenCV} (stem : string) (label : content)
    (files : gmap string content) (o : string * result image)
    : gmap string content :=
  match o.2 with
  | Ok augmented =>
      <[aug_name stem o.1 +:+ ".txt" := label]>
        (<[aug_name stem o.1 +:+ ".jpg" :=
             imencode (aug_name stem o.1 +:+ ".jpg") augmented 92]> files)
  | Raise _ => files
  end.

(** What the augmentation loop leaves: the pairs it added, the content of
    the staging directory, the state of NumPy's generator, and what it
    printed. *)
Record aug_run := AugRun {
  added : list sample;
  aug_files : gmap string content;
  aug_np : np_state;
  aug_out : list string
}.

(** The loop of lines 167 to 193 over [kip_imgs], from the content
    [files] of the staging directory and the generator state [s]; the
    Kipukas directories are read in [f0]. *)
Fixpoint augment_all `{cv : OpenCV} (cascade : list (string * transform_fn))
    (f0 : filesystem) (kip_imgs : list string)
    (files : gmap string content) (s : np_state) : aug_run :=
  match kip_imgs with
  | [] => AugRun [] files s []
  | img_name :: rest =>
      let stem := pathlib.stem img_name in
      match read_file f0 (kip_labels, stem +:+ ".txt"),
            read_file f0 (kip_images, img_name) ≫= imread with
      | Some label, Some img =>
          let outs := cascade_outcomes cascade img s in
          let r := augment_all cascade f0 rest
                     (foldl (aug_write stem label) files outs.1) outs.2 in
          AugRun (aug_added stem outs.1 ++ added r) (aug_files r) (aug_np r)
                 (aug_warnings stem outs.1 ++ aug_out r)
      | _, _ => augment_all cascade f0 rest files s
      end
  end.

(** What the staging directory holds when the run starts. *)
Definition staging (f : filesystem) : gmap string content :=
  default ∅ (f !! aug_dir).

(** The pool a run collects from the file system [f] with NumPy's
    generator in state [s]. *)
Definition pool_of `{cv : OpenCV} (cascade : list (string * transform_fn))
    (f : filesystem) (s : np_state) : list sample :=
  let kip_imgs := glob_jpg f kip_images in
  omap (original_of f) kip_imgs
  ++ added (augment_all cascade f kip_imgs (staging f) s)
  ++ kolabit_samples f train "kol_"
  ++ kolabit_samples f val "kol_v_".

(** What the collection prints. *)
Definition collect_log `{cv : OpenCV} (cascade : list (string * transform_fn))
    (f : filesystem) (s : np_state) : list string :=
  let kip_imgs := glob_jpg f kip_images in
  let r := augment_all cascade f kip_imgs (staging f) s in
  ["[augment] Found " +:+ pretty (length kip_imgs) +:+ " Kipukas images"]
  ++ omap (original_warning f) kip_imgs
  ++ aug_out r
  ++ ["[augment] Generated " +:+ pretty (length (added r)) +:+ " augmented images";
      "[augment] Found "
        +:+ pretty (length (kolabit_samples f train "kol_")
                    + length (kolabit_samples f val "kol_v_"))%nat
        +:+ " kolabit images";
      "[augment] Total samples: " +:+ pretty (length (pool_of cascade f s))].

(** The file system the collection leaves. *)
Definition collected `{cv : OpenCV} (cascade : list (string * transform_fn))
    (f : filesystem) (s : np_state) : filesystem :=
  <[aug_dir := aug_files (augment_all cascade f (glob_jpg f kip_images) (staging f) s)]> f.

(** The names a pair is copied under. *)
Definition out_image_name (sm : sample) : string :=
  sm.2 +:+ pathlib.suffix sm.1.1.2.

Definition out_label_name (sm : sample) : string :=
  sm.2 +:+ ".txt".

(** A directory after the files [source sm], read in [f0], have been
    copied into it under the names [target sm], in the order of
    [samples]. *)
Definition copy_into (f0 : filesystem) (target : sample → string)
    (source : sample → path) (m : gmap string content) (samples : list sample)
    : gmap string content :=
  foldl (λ m sm, match read_file f0 (source sm) with
                 | Some c => <[target sm := c]> m
                 | None => m
                 end) m samples.

(** The file system after subset [s] has been written from [f]. *)
Definition written (f : filesystem) (s : split_name) (samples : list sample)
    : filesystem :=
  <[out_labels s := copy_into f out_label_name (λ sm, sm.1.2) ∅ samples]>
    (<[out_images s := copy_into f out_image_name (λ sm, sm.1.1) ∅ samples]> f).

(** The subsets of a run, as functions of its pool. *)
Definition val_subset `{rng : PyRandom} (pool : list sample) (val_ratio : Q) : list sample :=
  let shuffled := (shuffle pool (py_seed 42)).1 in
  slice_to (val_count_of (length shuffled) val_ratio) shuffled.

Definition train_subset `{rng : PyRandom} (pool : list sample) (val_ratio : Q) : list sample :=
  let shuffled := (shuffle pool (py_seed 42)).1 in
  slice_from (val_count_of (length shuffled) val_ratio) shuffled.

Definition subset `{rng : PyRandom} (s : split_name) (pool : list sample) (val_ratio : Q)
    : list sample :=
  match s with
  | train => train_subset pool val_ratio
  | val => val_subset pool val_ratio
  end.

(** ** Conditions the statements use *)

(** Both files of a pair can be read in [f0], outside the two
    directories subset [s] is written to. *)
Definition source_ok (f0 : filesystem) (s : split_name) (sm : sample) : Prop :=
  is_Some (read_file f0 sm.1.1) ∧ is_Some (read_file f0 sm.1.2) ∧
  sm.1.1.1 ≠ out_images s ∧ sm.1.1.1 ≠ out_labels s ∧
  sm.1.2.1 ≠ out_images s ∧ sm.1.2.1 ≠ out_labels s.

(** A directory the pool reads from: never one the run writes a subset
    to. *)
Definition is_source (d : dir) : bool :=
  match d with
  | kip_images | kip_labels | kol_images _ | kol_labels _ | aug_dir => true
  | out_images _ | out_labels _ | yaml_dir => false
  end.

(** Both files of a pair can be read in [f], in source directories. *)
Definition pool_src_ok (f : filesystem) (sm : sample) : Prop :=
  is_Some (read_file f sm.1.1) ∧ is_Some (read_file f sm.1.2) ∧
  is_source sm.1.1.1 = true ∧ is_source sm.1.2.1 = true.

(** No tag, with the underscore before it, ends another one: then the
    name of a variant tells which image it comes from. *)
Definition proper_suffix (u v : string) : bool :=
  (String.length u <? String.length v)%nat && pathlib.endswith v u.

Definition tags_unambiguous (tags : list string) : bool :=
  forallb (λ t1, forallb (λ t2, negb (proper_suffix ("_" +:+ t1) ("_" +:+ t2))) tags) tags.

(** Both files of a variant are in the staging directory. *)
Definition staged (files : gmap string content) (sm : sample) : Prop :=
  sm.1.1.1 = aug_dir ∧ sm.1.2.1 = aug_dir ∧
  is_Some (files !! sm.1.1.2) ∧ is_Some (files !! sm.1.2.2).

(** The label of a variant in the staging directory is the label of its
    source image. *)
Definition label_kept (cascade : list (string * transform_fn))
    (f : filesystem) (files : gmap string content)
    (sm : sample) : Prop :=
  ∃ stem suffix label,
    sm = aug_sample stem suffix ∧ suffix ∈ cascade.*1 ∧
    read_file f (kip_labels, stem +:+ ".txt") = Some label ∧
    files !! (aug_name stem suffix +:+ ".txt") = Some label.

(** The operators an exception of which does not depend on the state of
    NumPy's generator. *)
Definition failure_deterministic (cascade : list (string * transform_fn)) : Prop :=
  ∀ tag fn img s1 s2, (tag, fn) ∈ cascade →
    is_Ok (fn img s1).1 = is_Ok (fn img s2).1.

(** An operator that returns on every image, and one that raises on
    every image. *)
Definition never_raises (fn : transform_fn) : Prop :=
  ∀ img s, is_Ok (fn img s).1 = true.

Definition always_raises (fn : transform_fn) : Prop :=
  ∀ img s, is_Ok (fn img s).1 = false.

(** A seed image the cascade is applied to: its label exists and
    [cv2.imread] decodes its file. *)
Definition eligible `{cv : OpenCV} (f : filesystem) (x : string) : bool :=
  bool_decide (is_Some (read_file f (kip_labels, pathlib.stem x +:+ ".txt")))
  && bool_decide (is_Some (read_file f (kip_images, x) ≫= imread)).

(** ** Data for closed examples *)

(** The binary64 value of the literal [0.2], the default of
    [--val-ratio]. *)
Definition float_0_2 : Q := 3602879701896397 # 18014398509481984.

(** The binary64 values of the literals [0.3] and [0.29]. *)
Definition float_0_3 : Q := 5404319552844595 # 18014398509481984.

Definition float_0_29 : Q := 5224175567749775 # 18014398509481984.

(** A pool of 57 pairs. *)
Definition pool_57 : list sample :=
  map (λ i, ((kip_images, pretty i +:+ ".jpg"), (kip_labels, pretty i +:+ ".txt"),
             "kip_" +:+ pretty i)) (seq 0 57).

(** Two states of NumPy's generator: every deviate 0, every deviate 1. *)
Definition np_zeros : np_state := λ _, 0%Q.

Definition np_ones : np_state := λ _, 1%Q.

(** A state whose first deviate is 0 and whose next ones are 1. *)
Definition np_zero_then_ones : np_state := λ i, match i with O => 0%Q | S _ => 1%Q end.

(** Worlds for the stand-in generator. *)
Definition blank_world : @world demo_rng :=
  World ∅ (0 : Z) (λ _, 0%Q) [].

(** One labelled Kipukas image, two kolabit images, an output directory
    with a file of an earlier run. *)
Definition fs_small : filesystem := list_to_map [
  (kip_images, list_to_map [("a.jpg", "xyz")]);
  (kip_labels, list_to_map [("a.txt", "0 0.5 0.5 0.2 0.2")]);
  (kol_images train, list_to_map [("k.png", "pq")]);
  (kol_labels train, list_to_map [("k.txt", "0 0.1 0.1 0.1 0.1")]);
  (kol_images val, list_to_map [("m.jpeg", "rs")]);
  (kol_labels val, list_to_map [("m.txt", "0 0.9 0.9 0.1 0.1")]);
  (out_images train, list_to_map [("stale.jpg", "old")]);
  (yaml_dir, ∅)].


(** The same labelled [a.png] under the seed root and under the external
    root. *)
Definition fs_png : filesystem := list_to_map [
  (kip_images, list_to_map [("a.png", "xyz")]);
  (kip_labels, list_to_map [("a.txt", "0 0.5 0.5 0.2 0.2")]);
  (kol_images train, list_to_map [("a.png", "xyz")]);
  (kol_labels train, list_to_map [("a.txt", "0 0.5 0.5 0.2 0.2")])].

(** A labelled seed image whose file has no bytes. *)
Definition fs_undecodable : filesystem := list_to_map [
  (kip_images, list_to_map [("d.jpg", EmptyString)]);
  (kip_labels, list_to_map [("d.txt", "0 0.5 0.5 0.2 0.2")])].

(** [v_a.jpg] in the external train subtree and [a.jpg] in the external
    validation subtree. *)
Definition fs_kol_clash : filesystem := list_to_map [
  (kol_images train, list_to_map [("v_a.jpg", "one")]);
  (kol_labels train, list_to_map [("v_a.txt", "0 0.1 0.1 0.1 0.1")]);
  (kol_images val, list_to_map [("a.jpg", "two")]);
  (kol_labels val, list_to_map [("a.txt", "0 0.9 0.9 0.1 0.1")]);
  (yaml_dir, ∅)].

(** The seed images [a.jpg] and [a_at15.jpg]. *)
Definition fs_kip_clash : filesystem := list_to_map [
  (kip_images, list_to_map [("a.jpg", "xyz"); ("a_at15.jpg", "uvw")]);
  (kip_labels, list_to_map [("a.txt", "0 0.5 0.5 0.2 0.2");
                            ("a_at15.txt", "0 0.3 0.3 0.1 0.1")])].

Definition demo_world (f : filesystem) : @world demo_rng :=
  World f (0 : Z) np_zeros [].

(** A cascade of two operators, the second of which always raises. *)
Definition broken_op : transform_fn :=
  λ img s, (Raise (Exception "RuntimeError" "operator disabled"), s).

Definition cascade_one_broken : list (string * transform_fn) :=
  [("yellow", pure_fn yellow_aware); ("broken", broken_op)].

(** ** Further notions the statements use *)

(** Every channel value of a colour array is a [uint8]. *)
Definition uint8_bgr (c : bgr_image) : Prop :=
  ∀ row px, row ∈ c → px ∈ row →
    0 ≤ px.1.1 ≤ 255 ∧ 0 ≤ px.1.2 ≤ 255 ∧ 0 ≤ px.2 ≤ 255.

Definition uint8_image (img : image) : Prop :=
  match img with
  | Grey g => uint8_grey g
  | BGR c => uint8_bgr c
  end.



(** [img.size]: the number of values [np.random.normal(0, sigma,
    img.shape)] draws. *)
Definition np_size (img : image) : nat :=
  match img with
  | Grey g => length (concat g)
  | BGR c => (3 * length (concat c))%nat
  end.

(** The next [n] deviates of the generator contribute no noise at scale
    [sigma]. *)
Definition quiet (sigma : Q) (n : nat) (s : np_state) : Prop :=
  ∀ i, (i < n)%nat → (sigma * s i == 0)%Q.

(** The prefix of the name given to a pair whose image is read from
    directory [d]: lines 160, 210 and 224; a variant is staged under its
    final name. *)
Definition prefix_of (d : dir) : string :=
  match d with
  | kip_images => "kip_"
  | kol_images train => "kol_"
  | kol_images val => "kol_v_"
  | _ => EmptyString
  end.

(** The number of deviates the cascade takes from NumPy's generator for
    the seed images [kip_imgs]: one per value of every image that has a
    label and can be decoded. *)
Definition deviates_drawn `{cv : OpenCV} (f : filesystem) (kip_imgs : list string) : nat :=
  sum_list_with (λ img_name,
    match read_file f (kip_labels, pathlib.stem img_name +:+ ".txt"),
          read_file f (kip_images, img_name) ≫= imread with
    | Some _, Some img => np_size img
    | _, _ => 0%nat
    end) kip_imgs.

(** * Properties *)

(** ** Arithmetic of the split *)

Lemma py_int_nonneg (x : Q) : 0 ≤ Qnum x → py_int x = Qfloor x.
Proof.
  intros Hx. destruct x as [a d]. unfold py_int, Qfloor. simpl in *.
  apply Z.quot_div_nonneg; lia.
Qed.

Lemma py_int_neg (x : Q) : Qnum x < 0 → py_int x ≤ 0 ∧ Qfloor x < 0.
Proof.
  intros Hx. destruct x as [a d]. unfold py_int, Qfloor. simpl in *. split.
  - replace a with (- (- a)) by lia. rewrite Z.quot_opp_l by lia.
    assert (0 ≤ (- a) ÷ Z.pos d) by (apply Z.quot_pos; lia). lia.
  - apply Z.div_lt_upper_bound; lia.
Qed.

(** [max(1, int(x))] is [max(1, floor(x))]: truncation and floor differ
    below zero only, where the maximum is 1. *)
Lemma max_int_floor (x : Q) : Z.max 1 (py_int x) = Z.max 1 (Qfloor x).
Proof.
  destruct (Z_lt_le_dec (Qnum x) 0) as [Hneg|Hpos].
  - destruct (py_int_neg x Hneg). lia.
  - by rewrite py_int_nonneg.
Qed.

Lemma val_count_of_floor (n : nat) (r : Q) :
  val_count_of n r = Z.max 1 (Qfloor (len_times n r)).
Proof. apply max_int_floor. Qed.

(** ** Rounding to binary64 *)

Lemma round_half_even_floor (q : Q) :
  Qfloor q ≤ round_half_even q ≤ Qfloor q + 1.
Proof. unfold round_half_even. destruct (_ ?= _)%Q; [destruct (Z.even _)|..]; lia. Qed.

Lemma round_half_even_ge (k : Z) (q : Q) :
  (inject_Z k <= q)%Q → k ≤ round_half_even q.
Proof.
  intros Hk. etrans; [|apply round_half_even_floor].
  rewrite <- (Qfloor_Z k). by apply Qfloor_resp_le.
Qed.

Lemma round_half_even_le (k : Z) (q : Q) :
  (q <= inject_Z k)%Q → round_half_even q ≤ k.
Proof.
  intros Hk.
  assert (Hf : Qfloor q ≤ k).
  { rewrite <- (Qfloor_Z k). by apply Qfloor_resp_le. }
  assert (Hlt : (inject_Z (Qfloor q) < q)%Q → Qfloor q + 1 ≤ k).
  { intros H. assert (Hfk : (inject_Z (Qfloor q) < inject_Z k)%Q)
      by (eapply Qlt_le_trans; eauto).
    rewrite <- Zlt_Qlt in Hfk. lia. }
  unfold round_half_even.
  destruct (q - inject_Z (Qfloor q) ?= 1 # 2)%Q eqn:Hc; [destruct (Z.even _); [done|]|done|].
  - apply Hlt. apply Qeq_alt in Hc. lra.
  - apply Hlt. apply Qgt_alt in Hc. lra.
Qed.

Lemma Qpower_2_pos (e : Z) : (0 < 2 ^ e)%Q.
Proof. by apply Qpower_0_lt. Qed.

Lemma Qpower_2_inject (e : Z) : 0 ≤ e → (2 ^ e == inject_Z (2 ^ e))%Q.
Proof. intros He. by rewrite Zpower_Qpower. Qed.

Lemma ilog2_lower (x : Q) : (0 < x)%Q → (2 ^ ilog2 x <= x)%Q.
Proof.
  intros Hx. unfold ilog2.
  set (a := Z.log2 (Qnum x)). set (b := Z.log2 (Z.pos (Qden x))).
  destruct (Qle_bool (2 ^ (a - b)) x) eqn:Hc; [by apply Qle_bool_iff|].
  destruct x as [num den]. cbn [Qnum Qden] in *.
  assert (Hnum : 0 < num) by (unfold Qlt in Hx; cbn in Hx; lia).
  assert (Ha : 2 ^ a ≤ num) by (apply Z.log2_spec; lia).
  assert (Hb : Z.pos den < 2 ^ (b + 1)).
  { replace (b + 1) with (Z.succ b) by lia. apply Z.log2_spec. lia. }
  assert (Ha0 : 0 ≤ a) by apply Z.log2_nonneg.
  assert (Hb0 : 0 ≤ b) by apply Z.log2_nonneg.
  replace (a - b - 1) with (a - (b + 1)) by lia.
  rewrite Qpower_minus by done.
  rewrite (Qpower_2_inject a), (Qpower_2_inject (b + 1)) by lia.
  assert (Hp : 0 < 2 ^ (b + 1)) by (apply Z.pow_pos_nonneg; lia).
  apply Qle_shift_div_r; [change 0%Q with (inject_Z 0); rewrite <- Zlt_Qlt; lia|].
  unfold Qle, Qmult, inject_Z. cbn [Qnum Qden].
  rewrite !Z.mul_1_r, Pos.mul_1_r.
  assert (2 ^ a * Z.pos den ≤ num * 2 ^ (b + 1)); [|lia].
  etrans; [apply Z.mul_le_mono_nonneg_l; [lia|apply Z.lt_le_incl, Hb]|].
  apply Z.mul_le_mono_nonneg_r; lia.
Qed.

(** At an exponent [e <= 0] an integer is a multiple of [2^e]. *)
Lemma scaled_int (k e : Z) :
  e ≤ 0 → (inject_Z (k * 2 ^ (- e)) * 2 ^ e == inject_Z k)%Q.
Proof.
  intros He. rewrite inject_Z_mult, <- (Qpower_2_inject (- e)) by lia.
  rewrite <- Qmult_assoc, <- Qpower_plus by done.
  replace (- e + e) with 0 by lia. change (2 ^ 0)%Q with 1%Q. ring.
Qed.

Lemma div_scaled (x : Q) (e : Z) : (x / 2 ^ e == x * 2 ^ (- e))%Q.
Proof. rewrite Qpower_opp. reflexivity. Qed.

(** Rounding does not cross an integer below 2^53: such an integer is a
    binary64 number. *)
Lemma binary64_le_int (k : Z) (x : Q) :
  0 ≤ k < 2 ^ 53 → (x <= inject_Z k)%Q → (binary64 x <= inject_Z k)%Q.
Proof.
  intros Hk Hx.
  assert (Hk0 : (0 <= inject_Z k)%Q).
  { change 0%Q with (inject_Z 0). rewrite <- Zle_Qle. lia. }
  unfold binary64. destruct (Qnum x) as [|p|p] eqn:Hnum; [done| |].
  - assert (Hpos : (0 < x)%Q).
    { destruct x as [num den]. cbn in Hnum. subst num. done. }
    set (e := ilog2 x - 52).
    destruct (Z_le_gt_dec e 0) as [He|He].
    + rewrite <- (scaled_int k e He).
      apply Qmult_le_compat_r; [|apply Qlt_le_weak, Qpower_2_pos].
      rewrite <- Zle_Qle. apply round_half_even_le.
      rewrite div_scaled, inject_Z_mult, <- (Qpower_2_inject (- e)) by lia.
      apply Qmult_le_compat_r; [done|apply Qlt_le_weak, Qpower_2_pos].
    + exfalso. pose proof (ilog2_lower x Hpos) as Hlow.
      assert (H53 : (2 ^ 53 <= 2 ^ ilog2 x)%Q).
      { apply Qpower_le_compat_l; [lia|done]. }
      assert (Hlt : (inject_Z k < 2 ^ 53)%Q).
      { rewrite (Qpower_2_inject 53) by lia. rewrite <- Zlt_Qlt. lia. }
      lra.
  - assert (Hneg : (0 < - x)%Q).
    { destruct x as [num den]. cbn in Hnum. subst num. done. }
    set (e := ilog2 (- x) - 52).
    assert (Hr : 0 ≤ round_half_even (- x / 2 ^ e)).
    { apply round_half_even_ge. change (inject_Z 0) with 0%Q.
      apply Qle_shift_div_l; [apply Qpower_2_pos|]. lra. }
    assert (Hq : (0 <= inject_Z (round_half_even (- x / 2 ^ e)) * 2 ^ e)%Q).
    { apply Qmult_le_0_compat; [|apply Qlt_le_weak, Qpower_2_pos].
      change 0%Q with (inject_Z 0). by rewrite <- Zle_Qle. }
    lra.
Qed.

Lemma binary64_ge_int (k : Z) (x : Q) :
  0 ≤ k < 2 ^ 53 → (inject_Z k <= x)%Q → (inject_Z k <= binary64 x)%Q.
Proof.
  intros Hk Hx.
  assert (Hk0 : (0 <= inject_Z k)%Q).
  { change 0%Q with (inject_Z 0). rewrite <- Zle_Qle. lia. }
  unfold binary64. destruct (Qnum x) as [|p|p] eqn:Hnum.
  - assert (Hzero : (x == 0)%Q).
    { destruct x as [num den]. cbn in Hnum. subst num. done. }
    lra.
  - assert (Hpos : (0 < x)%Q).
    { destruct x as [num den]. cbn in Hnum. subst num. done. }
    set (e := ilog2 x - 52).
    destruct (Z_le_gt_dec e 0) as [He|He].
    + rewrite <- (scaled_int k e He).
      apply Qmult_le_compat_r; [|apply Qlt_le_weak, Qpower_2_pos].
      rewrite <- Zle_Qle. apply round_half_even_ge.
      rewrite div_scaled, inject_Z_mult, <- (Qpower_2_inject (- e)) by lia.
      apply Qmult_le_compat_r; [done|apply Qlt_le_weak, Qpower_2_pos].
    + pose proof (ilog2_lower x Hpos) as Hlow.
      replace (ilog2 x) with (52 + e) in Hlow by (unfold e; lia).
      rewrite Qpower_plus in Hlow by done.
      assert (H52 : 2 ^ 52 ≤ round_half_even (x / 2 ^ e)).
      { apply round_half_even_ge. rewrite <- (Qpower_2_inject 52) by lia.
        apply Qle_shift_div_l; [apply Qpower_2_pos|done]. }
      rewrite Zle_Qle in H52. rewrite <- (Qpower_2_inject 52) in H52 by lia.
      assert (H1 : (2 ^ 1 <= 2 ^ e)%Q) by (apply Qpower_le_compat_l; [lia|done]).
      assert (Hlt : (inject_Z k < 2 ^ 53)%Q).
      { rewrite (Qpower_2_inject 53) by lia. rewrite <- Zlt_Qlt. lia. }
      assert (Hprod : (2 ^ 52 * 2 ^ 1 <= inject_Z (round_half_even (x / 2 ^ e)) * 2 ^ e)%Q).
      { apply Qmult_le_compat_nonneg; split; [by apply Qlt_le_weak, Qpower_2_pos|done|
          by apply Qlt_le_weak, Qpower_2_pos|done]. }
      change (2 ^ 52 * 2 ^ 1)%Q with (2 ^ 53)%Q in Hprod. lra.
  - exfalso. assert (Hneg : (x < 0)%Q).
    { destruct x as [num den]. cbn in Hnum. subst num. done. }
    lra.
Qed.

Lemma len_times_le (n : nat) (r : Q) :
  (r <= 1)%Q → (len_times n r <= inject_Z (Z.of_nat n))%Q.
Proof.
  intros Hr.
  assert (H0 : (0 <= inject_Z (Z.of_nat n))%Q).
  { change 0%Q with (inject_Z 0). rewrite <- Zle_Qle. lia. }
  assert (Hx : (inject_Z (Z.of_nat n) * r <= inject_Z (Z.of_nat n))%Q) by nra.
  unfold len_times. destruct (Z.ltb_spec (Z.of_nat n) (2 ^ 53)); [|done].
  apply binary64_le_int; [lia|done].
Qed.


Lemma Qfloor_le_int (x : Q) (k : Z) : (x <= inject_Z k)%Q → Qfloor x ≤ k.
Proof. intros H. rewrite <- (Qfloor_Z k). by apply Qfloor_resp_le. Qed.

Lemma Qfloor_ge_int (x : Q) (k : Z) : (inject_Z k <= x)%Q → k ≤ Qfloor x.
Proof. intros H. rewrite <- (Qfloor_Z k). by apply Qfloor_resp_le. Qed.

Lemma val_count_of_bounds (n : nat) (r : Q) :
  (1 ≤ n)%nat → (r <= 1)%Q → 1 ≤ val_count_of n r ≤ Z.of_nat n.
Proof.
  intros Hn Hr. rewrite val_count_of_floor. split; [lia|].
  apply Z.max_lub; [lia|]. by apply Qfloor_le_int, len_times_le.
Qed.

(** Rounding the product moves the count by one at most. *)
Lemma val_count_of_near (n : nat) (r : Q) :
  (r <= 1)%Q →
  let exact := Z.max 1 (Qfloor (inject_Z (Z.of_nat n) * r)) in
  exact ≤ val_count_of n r ≤ exact + 1.
Proof.
  intros Hr exact. unfold exact. rewrite val_count_of_floor. unfold len_times.
  destruct (Z.ltb_spec (Z.of_nat n) (2 ^ 53)) as [Hn|Hn]; [|lia].
  set (x := (inject_Z (Z.of_nat n) * r)%Q).
  assert (H0 : (0 <= inject_Z (Z.of_nat n))%Q).
  { change 0%Q with (inject_Z 0). rewrite <- Zle_Qle. lia. }
  assert (Hxn : (x <= inject_Z (Z.of_nat n))%Q) by (unfold x; nra).
  pose proof (Qfloor_le x) as Hlo. pose proof (Qlt_floor x) as Hhi.
  assert (Hkn : Qfloor x ≤ Z.of_nat n) by by apply Qfloor_le_int.
  pose proof (eq_refl : 2 ^ 53 = 9007199254740992) as E53.
  assert (Hup : Qfloor (binary64 x) ≤ Z.max 0 (Qfloor x) + 1).
  { destruct (Z_lt_le_dec (Qfloor x) 0) as [Hneg|Hpos].
    - etrans; [apply Qfloor_le_int, (binary64_le_int 0); [lia|]|lia].
      apply Qlt_le_weak. eapply Qlt_le_trans; [exact Hhi|].
      rewrite <- Zle_Qle. lia.
    - rewrite Z.max_r by done.
      destruct (Z_lt_le_dec (Qfloor x + 1) (2 ^ 53)) as [Hsmall|Hbig].
      + by apply Qfloor_le_int, binary64_le_int; [lia|apply Qlt_le_weak].
      + etrans; [apply Qfloor_le_int, (binary64_le_int (Z.of_nat n)); [lia|exact Hxn]|].
        lia. }
  assert (Hdown : Z.max 0 (Qfloor x) ≤ Z.max 1 (Qfloor (binary64 x))).
  { destruct (Z_lt_le_dec (Qfloor x) 0) as [Hneg|Hpos]; [lia|].
    rewrite Z.max_r by done. etrans; [|apply Z.le_max_r].
    by apply Qfloor_ge_int, binary64_ge_int; [lia|]. }
  lia.
Qed.

Lemma slice_bound_in_range (k : Z) (len : nat) :
  0 ≤ k ≤ Z.of_nat len → slice_bound k len = Z.to_nat k.
Proof.
  intros Hk. unfold slice_bound.
  destruct (Z.ltb_spec k 0); [lia|]. f_equal. lia.
Qed.

(** ** The shuffle keeps the length *)

Section shuffle_facts.
Context `{rng : PyRandom} {A : Type}.

Lemma length_swap (i j : nat) (x : list A) : length (swap i j x) = length x.
Proof.
  unfold swap. destruct (x !! j), (x !! i); by rewrite ?length_insert.
Qed.

Lemma length_shuffle_from (i : nat) (x : list A) (s : py_state) :
  length (shuffle_from i x s).1 = length x.
Proof.
  revert x s. induction i as [|i IH]; intros x s; [done|].
  cbn [shuffle_from]. destruct (py_randbelow _ s) as [j s'].
  by rewrite IH, length_swap.
Qed.

Lemma length_shuffle (x : list A) (s : py_state) :
  length (shuffle x s).1 = length x.
Proof. apply length_shuffle_from. Qed.

End shuffle_facts.

(** ** The split: sizes and determinism *)

Section split_facts.
Context `{rng : PyRandom}.

(** What lines 231 to 236 compute: the generator is re-seeded, so the
    state it was in does not matter. *)
Lemma shuffle_and_split_eq (all_samples : list sample) (val_ratio : Q) (w : world) :
  shuffle_and_split all_samples val_ratio w =
    (let shuffled := (shuffle all_samples (py_seed 42)).1 in
     let val_count := val_count_of (length shuffled) val_ratio in
     Ok (slice_from val_count shuffled, slice_to val_count shuffled),
     World (fs w) (shuffle all_samples (py_seed 42)).2 (np_random w) (stdout w)).
Proof.
  unfold shuffle_and_split, random_seed, random_shuffle, mbind, M_bind, mret, M_ret.
  simpl. by destruct (shuffle all_samples (py_seed 42)).
Qed.

(** C1, as amended. For a pool of [n >= 1] pairs and a ratio [r <= 1]
    (the configuration keeps it in (0,1)), the split returns as validation
    subset the first [val_count] elements of the shuffled pool and as
    train subset the remaining [n - val_count], where [val_count] is
    max(1, floor(p)) for the product [p] of [n] and [r] rounded to
    binary64, as line 234 computes it. That count is max(1, floor(n * r))
    or, when the rounding lifts the product to the next integer, one
    more. With [n = 57] and [r = 0.2] it is 11, leaving 46, and with
    [n = 3] and [r = 0.2] it is 1. *)
Theorem split_sizing (all_samples : list sample) (val_ratio : Q) (w : world) :
  (1 ≤ length all_samples)%nat →
  (val_ratio <= 1)%Q →
  let n := length all_samples in
  let val_count := Z.max 1 (Qfloor (len_times n val_ratio)) in
  let exact := Z.max 1 (Qfloor (inject_Z (Z.of_nat n) * val_ratio)) in
  let shuffled := (shuffle all_samples (py_seed 42)).1 in
  (∃ train_samples val_samples w',
     shuffle_and_split all_samples val_ratio w = (Ok (train_samples, val_samples), w') ∧
     val_samples = take (Z.to_nat val_count) shuffled ∧
     train_samples = drop (Z.to_nat val_count) shuffled ∧
     Z.of_nat (length val_samples) = val_count ∧
     Z.of_nat (length train_samples) = Z.of_nat n - val_count) ∧
  exact ≤ val_count ≤ exact + 1 ∧
  (val_count_of 57 float_0_2 = 11 ∧ 57 - val_count_of 57 float_0_2 = 46 ∧
   val_count_of 3 float_0_2 = 1).
Proof.
  intros Hn Hr n val_count exact shuffled.
  assert (Hlen : length shuffled = length all_samples) by apply length_shuffle.
  assert (Hk : val_count = val_count_of (length shuffled) val_ratio).
  { by rewrite Hlen, val_count_of_floor. }
  split; [|split; [|by vm_compute]].
  - assert (Hb : 1 ≤ val_count ≤ Z.of_nat (length shuffled)).
    { rewrite Hk. apply val_count_of_bounds; [lia|done]. }
    eexists _, _, _. split; [apply shuffle_and_split_eq|].
    cbn zeta. fold shuffled. rewrite <- Hk.
    unfold slice_to, slice_from. rewrite slice_bound_in_range by lia.
    repeat split; rewrite ?length_take, ?length_drop; lia.
  - rewrite Hk, Hlen. by apply val_count_of_near.
Qed.

(** C3. Two runs of the split over the same pool, in the same order, with
    the same ratio give the same train and validation subsets, whatever
    the state of the two worlds they start from. *)
Theorem split_deterministic (all_samples : list sample) (val_ratio : Q)
    (w1 w2 : world) :
  (shuffle_and_split all_samples val_ratio w1).1 =
  (shuffle_and_split all_samples val_ratio w2).1.
Proof. by rewrite !shuffle_and_split_eq. Qed.

End split_facts.

Lemma split_sizing_witness :
  (∃ train_samples val_samples w',
     shuffle_and_split pool_57 float_0_2 blank_world = (Ok (train_samples, val_samples), w') ∧
     val_samples = take 11 (shuffle pool_57 (py_seed 42)).1 ∧
     train_samples = drop 11 (shuffle pool_57 (py_seed 42)).1 ∧
     Z.of_nat (length val_samples) = 11 ∧
     Z.of_nat (length train_samples) = 57 - 11) ∧
  11 ≤ 11 ≤ 11 + 1 ∧
  (val_count_of 57 float_0_2 = 11 ∧ 57 - val_count_of 57 float_0_2 = 46 ∧
   val_count_of 3 float_0_2 = 1).
Proof.
  apply (split_sizing pool_57 float_0_2 blank_world).
  - simpl. lia.
  - unfold Qle. simpl. lia.
Defined.

(** The claim as it is stated, with the exact product, fails where the
    rounding lifts the product to an integer: for 10 pairs and the float
    of the literal [0.3], which is below three tenths, the exact product
    is below 3 and the rounded one is 3, so the validation subset has 3
    pairs and not max(1, floor(n * r)) = 2. Read with the decimal ratio
    instead of the float, the formula fails the other way: for 100 pairs
    and [0.29] it gives 29, and the script 28. *)
Lemma split_sizing_rounding :
  Qred (binary64 (3 # 10)) = Qred float_0_3 ∧
  Z.max 1 (Qfloor (inject_Z 10 * float_0_3)) = 2 ∧
  val_count_of 10 float_0_3 = 3 ∧
  (∃ train_samples val_samples w',
     shuffle_and_split (take 10 pool_57) float_0_3 blank_world
     = (Ok (train_samples, val_samples), w') ∧
     length val_samples = 3%nat ∧ length train_samples = 7%nat) ∧
  Qred (binary64 (29 # 100)) = Qred float_0_29 ∧
  Z.max 1 (Qfloor (inject_Z 100 * (29 # 100))) = 29 ∧
  val_count_of 100 float_0_29 = 28.
Proof.
  split; [by vm_compute|]. split; [by vm_compute|]. split; [by vm_compute|].
  split; [|by vm_compute].
  eexists _, _, _. split; [apply shuffle_and_split_eq|]. by vm_compute.
Qed.

(** ** The contrast stretch *)

Section stretch_facts.
Context `{cv : OpenCV}.

Lemma contrast_stretch_same (v : Z) (grey : grey_image) :
  contrast_stretch v v grey = Some grey.
Proof. unfold contrast_stretch. by rewrite Z.eqb_refl. Qed.

Lemma foldl_min_bounds (a b p : Z) (ps : list Z) :
  a ≤ p ≤ b → Forall (λ q, a ≤ q ≤ b) ps → a ≤ foldl Z.min p ps ≤ b.
Proof.
  intros Hp Hps. revert p Hp. induction Hps as [|q ps Hq Hps IH]; intros p Hp;
    [done|]. cbn [foldl]. apply IH. lia.
Qed.

Lemma foldl_max_bounds (a b p : Z) (ps : list Z) :
  a ≤ p ≤ b → Forall (λ q, a ≤ q ≤ b) ps → a ≤ foldl Z.max p ps ≤ b.
Proof.
  intros Hp Hps. revert p Hp. induction Hps as [|q ps Hq Hps IH]; intros p Hp;
    [done|]. cbn [foldl]. apply IH. lia.
Qed.

Lemma uint8_grey_concat (g : grey_image) :
  uint8_grey g → Forall (λ q, 0 ≤ q ≤ 255) (concat g).
Proof.
  intros Hu. apply Forall_forall. intros q Hq.
  apply list_elem_of_In, in_concat in Hq as (row & Hrow & Hq).
  apply list_elem_of_In in Hrow, Hq. by apply (Hu row).
Qed.

Lemma stretch_pixel_is_Some (lo hi p : Z) :
  0 ≤ lo ≤ 255 → 0 ≤ hi ≤ 255 → hi ≠ lo → is_Some (stretch_pixel lo hi p).
Proof.
  intros Hlo Hhi Hne. unfold stretch_pixel, true_divide.
  destruct (Z.eqb_spec ((hi - lo) mod 256) 0) as [Hz|Hz]; [|by eexists].
  exfalso. apply Z.mod_divide in Hz; [|lia]. destruct Hz as [k Hk]. lia.
Qed.

(** On an 8-bit image with at least one element the stretch never
    divides by zero: the operator returns. *)
Lemma contrast_stretch_adaptive_returns (img : image) :
  uint8_grey (to_grey img) → concat (to_grey img) ≠ [] →
  is_Ok (contrast_stretch_adaptive img) = true.
Proof.
  intros Hu Hne. unfold contrast_stretch_adaptive, np_min, np_max.
  pose proof (uint8_grey_concat _ Hu) as Hall.
  destruct (concat (to_grey img)) as [|p ps]; [done|].
  apply Forall_cons in Hall as [Hp Hps].
  pose proof (foldl_min_bounds 0 255 p ps Hp Hps) as Hlo.
  pose proof (foldl_max_bounds 0 255 p ps Hp Hps) as Hhi.
  unfold contrast_stretch.
  destruct (Z.eqb_spec (foldl Z.max p ps) (foldl Z.min p ps)) as [Heq|Hneq]; [done|].
  destruct (mapM_is_Some_2 (mapM (stretch_pixel (foldl Z.min p ps) (foldl Z.max p ps)))
              (to_grey img)) as [stretched ->]; [|done].
  apply Forall_forall. intros row _. apply mapM_is_Some_2.
  apply Forall_forall. intros q _. by apply stretch_pixel_is_Some.
Qed.

(** C7. On an image whose minimum and maximum intensity are equal, the
    stretch is skipped: the array handed to the threshold is the original
    one (no division is evaluated, and its values are the input's, within
    0..255), and the operator returns, without an exception, the
    threshold of the original intensity. *)
Theorem contrast_stretch_uniform (img : image) (v : Z) :
  np_min (to_grey img) = Ok v →
  np_max (to_grey img) = Ok v →
  contrast_stretch v v (to_grey img) = Some (to_grey img) ∧
  contrast_stretch_adaptive img =
    Ok (GRAY2BGR (adaptiveThreshold (to_grey img) 255 31 8)) ∧
  (uint8_grey (to_grey img) →
   ∀ stretched, contrast_stretch v v (to_grey img) = Some stretched →
     uint8_grey stretched).
Proof.
  intros Hmin Hmax. split; [apply contrast_stretch_same|]. split.
  - unfold contrast_stretch_adaptive. rewrite Hmin, Hmax.
    by rewrite contrast_stretch_same.
  - intros Hu stretched. rewrite contrast_stretch_same. by intros [= <-].
Qed.

End stretch_facts.

Lemma contrast_stretch_uniform_witness :
  contrast_stretch 7 7 (to_grey (Grey [[7; 7]; [7; 7]])) = Some (to_grey (Grey [[7; 7]; [7; 7]])) ∧
  contrast_stretch_adaptive (Grey [[7; 7]; [7; 7]]) =
    Ok (GRAY2BGR (adaptiveThreshold (to_grey (Grey [[7; 7]; [7; 7]])) 255 31 8)) ∧
  (uint8_grey (to_grey (Grey [[7; 7]; [7; 7]])) →
   ∀ stretched, contrast_stretch 7 7 (to_grey (Grey [[7; 7]; [7; 7]])) = Some stretched →
     uint8_grey stretched).
Proof.
  apply (contrast_stretch_uniform (cv := demo_cv) (Grey [[7; 7]; [7; 7]]) 7).
  - reflexivity.
  - reflexivity.
Defined.

(** ** The noise operator *)

(** C10. The noise operator is not a function of its input image: the
    same image gives different outputs from two states of NumPy's global
    generator, and two successive evaluations from one state differ;
    seeding and shuffling with the [random] module leaves NumPy's
    generator as it was; the entry [noise15] of [TRANSFORMS] is this
    operator. *)
Theorem gaussian_noise_not_deterministic :
  (∃ img s1 s2, (gaussian_noise img 15 s1).1 ≠ (gaussian_noise img 15 s2).1) ∧
  (∃ img s, (gaussian_noise img 15 (gaussian_noise img 15 s).2).1
            ≠ (gaussian_noise img 15 s).1) ∧
  (∀ (rng : PyRandom) (pool : list sample) (r : Q) (w : world),
     np_random (random_seed 42 w).2 = np_random w ∧
     np_random (shuffle_and_split pool r w).2 = np_random w) ∧
  (∀ (cv : OpenCV), ∃ f, TRANSFORMS !! 8%nat = Some ("noise15", f) ∧
     ∀ img s, f img s = (Ok (gaussian_noise img 15 s).1, (gaussian_noise img 15 s).2)).
Proof.
  split; [|split; [|split]].
  - exists (Grey [[100]]), np_zeros, np_ones. vm_compute. discriminate.
  - exists (Grey [[100]]), np_zero_then_ones. vm_compute. discriminate.
  - intros rng pool r w. split; [done|]. by rewrite shuffle_and_split_eq.
  - intros cv. eexists. split; [reflexivity|].
    intros img s. simpl. by destruct (gaussian_noise img 15 s).
Qed.

(** With the stand-in codec, two collections over the same files from
    two states of NumPy's generator stage different [noise15] images. *)
Lemma noise_differs_across_runs :
  read_file (fs (collect_samples TRANSFORMS (World fs_small (0 : Z) np_zeros [])).2)
    (aug_dir, "kip_a_noise15.jpg")
  ≠ read_file (fs (collect_samples TRANSFORMS (World fs_small (0 : Z) np_ones [])).2)
      (aug_dir, "kip_a_noise15.jpg").
Proof. vm_compute. discriminate. Qed.

(** ** The monad *)

Section monad_facts.
Context `{rng : PyRandom}.

Lemma bind_Ok {A B} (m : M A) (k : A → M B) (w w' : world) (a : A) :
  m w = (Ok a, w') → (m ≫= k) w = k a w'.
Proof. unfold mbind, M_bind. by intros ->. Qed.

Lemma bind_Raise {A B} (m : M A) (k : A → M B) (w w' : world) (e : exn) :
  m w = (Raise e, w') → (m ≫= k) w = (Raise e, w').
Proof. unfold mbind, M_bind. by intros ->. Qed.

Lemma bind_inv_Ok {A B} (m : M A) (k : A → M B) (w w'' : world) (b : B) :
  (m ≫= k) w = (Ok b, w'') →
  ∃ a w', m w = (Ok a, w') ∧ k a w' = (Ok b, w'').
Proof.
  unfold mbind, M_bind. destruct (m w) as [[a|e] w']; [eauto|done].
Qed.

Lemma print_eq (line : string) (w : world) :
  print line w =
    (Ok (), World (fs w) (py_random w) (np_random w) (stdout w ++ [line])).
Proof. reflexivity. Qed.

Lemma world_eta (w : world) :
  World (fs w) (py_random w) (np_random w) (stdout w) = w.
Proof. by destruct w. Qed.

End monad_facts.

(** ** What the collection loops compute *)

Section collect_facts.
Context `{rng : PyRandom}.

Lemma for_loop_cons {X S} (x : X) (xs : list X) (body : X → S → M S)
    (acc : S) (w : world) :
  for_loop (x :: xs) body acc w = (body x acc ≫= for_loop xs body) w.
Proof. reflexivity. Qed.

(** A loop whose body returns normally with the world [step] gives is a
    left fold. *)
Lemma for_loop_foldl {X S} (body : X → S → M S)
    (step : X → S * world → S * world) (xs : list X) (acc : S) (w : world) :
  (∀ x acc w, body x acc w = (Ok (step x (acc, w)).1, (step x (acc, w)).2)) →
  for_loop xs body acc w =
    (Ok (foldl (λ st x, step x st) (acc, w) xs).1,
     (foldl (λ st x, step x st) (acc, w) xs).2).
Proof.
  intros Hbody. revert acc w. induction xs as [|x xs IH]; intros acc w; [done|].
  rewrite for_loop_cons, (bind_Ok _ _ _ _ _ (Hbody x acc w)), IH.
  cbn [foldl]. by destruct (step x (acc, w)).
Qed.

Lemma collect_originals_spec (kip_imgs : list string) (acc : list sample) (w : world) :
  collect_originals kip_imgs acc w =
    (Ok (acc ++ omap (original_of (fs w)) kip_imgs),
     World (fs w) (py_random w) (np_random w)
       (stdout w ++ omap (original_warning (fs w)) kip_imgs)).
Proof.
  unfold collect_originals.
  match goal with |- context [for_loop _ ?b _] => set (body := b) end.
  revert acc w. induction kip_imgs as [|x xs IH]; intros acc w.
  - simpl. unfold mret, M_ret. by rewrite !app_nil_r, world_eta.
  - rewrite for_loop_cons. cbn [omap list_omap].
    unfold original_of at 1, original_warning at 1.
    destruct (path_exists (fs w) (kip_labels, pathlib.stem x +:+ ".txt")) eqn:Hex.
    + erewrite bind_Ok; last first.
      { subst body. cbv beta. unfold mbind, M_bind, exists_. rewrite Hex.
        reflexivity. }
      rewrite IH. by rewrite <- app_assoc.
    + erewrite bind_Ok; last first.
      { subst body. cbv beta. unfold mbind, M_bind, exists_. rewrite Hex.
        reflexivity. }
      rewrite IH. cbn [fs py_random np_random stdout]. by rewrite <- app_assoc.
Qed.

Lemma collect_kolabit_spec (s : split_name) (prefix : string)
    (acc : list sample) (n : nat) (w : world) :
  collect_kolabit s prefix (acc, n) w =
    (Ok (acc ++ kolabit_samples (fs w) s prefix,
         (n + length (kolabit_samples (fs w) s prefix))%nat), w).
Proof.
  unfold collect_kolabit, kolabit_samples.
  match goal with |- context [for_loop _ ?b _] => set (body := b) end.
  assert (Hloop : ∀ names acc n,
    for_loop names body (acc, n) w =
      (Ok (acc ++ omap (kolabit_of (fs w) s prefix) names,
           (n + length (omap (kolabit_of (fs w) s prefix) names))%nat), w)).
  { intros names. induction names as [|x xs IH]; intros acc' n'.
    - simpl. unfold mret, M_ret. by rewrite app_nil_r, Nat.add_0_r.
    - rewrite for_loop_cons.
      assert (Hx : body x (acc', n') w =
        (Ok (acc' ++ option_list (kolabit_of (fs w) s prefix x),
             (n' + length (option_list (kolabit_of (fs w) s prefix x)))%nat), w)).
      { subst body. cbv beta iota. unfold kolabit_of.
        destruct (image_suffix x); cbn [negb].
        - unfold mbind, M_bind, exists_.
          destruct (path_exists (fs w) _); cbn [negb option_list length];
            unfold mret, M_ret; [by rewrite Nat.add_1_r|].
          by rewrite app_nil_r, Nat.add_0_r.
        - unfold mret, M_ret. cbn [option_list length].
          by rewrite app_nil_r, Nat.add_0_r. }
      rewrite (bind_Ok _ _ _ _ _ Hx), IH. cbn [omap list_omap].
      destruct (kolabit_of (fs w) s prefix x); simpl.
      + rewrite <- app_assoc. simpl. do 3 f_equal. lia.
      + rewrite app_nil_r. do 3 f_equal. lia. }
  unfold dir_exists_, iterdir, dir_exists, listdir.
  unfold mbind at 1, M_bind at 1. cbv beta iota.
  destruct (fs w !! kol_images s) as [files|] eqn:Hd.
  - rewrite bool_decide_true by done.
    unfold mbind at 1, M_bind at 1. rewrite Hd. simpl. apply Hloop.
  - rewrite bool_decide_false by (by intros [? ?]).
    simpl. unfold mret, M_ret. by rewrite app_nil_r, Nat.add_0_r.
Qed.

End collect_facts.

(** ** What the augmentation loop computes *)

Section augment_facts.
Context `{cv : OpenCV} `{rng : PyRandom}.
Variable cascade : list (string * transform_fn).

Lemma read_file_insert_ne (f : filesystem) (d : dir) (files : gmap string content)
    (p : path) :
  p.1 ≠ d → read_file (<[d := files]> f) p = read_file f p.
Proof. intros Hne. unfold read_file. by rewrite lookup_insert_ne by done. Qed.

Lemma path_exists_insert_ne (f : filesystem) (d : dir) (files : gmap string content)
    (p : path) :
  p.1 ≠ d → path_exists (<[d := files]> f) p = path_exists f p.
Proof. intros Hne. unfold path_exists. by rewrite read_file_insert_ne. Qed.

Lemma try_transform_eq (f : transform_fn) (img : image) (w : world)
    (r : result image) (s' : np_state) :
  f img (np_random w) = (r, s') →
  try_transform f img w = (Ok r, World (fs w) (py_random w) s' (stdout w)).
Proof. unfold try_transform. by intros ->. Qed.

Lemma cv2_imwrite_eq (p : path) (img : image) (q : Z) (w : world)
    (files : gmap string content) :
  fs w !! p.1 = Some files →
  cv2_imwrite p img q w =
    (Ok (), with_fs (<[p.1 := <[p.2 := imencode p.2 img q]> files]> (fs w)) w).
Proof. unfold cv2_imwrite, write_file. by intros ->. Qed.

Lemma copy2_eq (src dst : path) (w : world) (c : content)
    (files : gmap string content) :
  read_file (fs w) src = Some c →
  fs w !! dst.1 = Some files →
  copy2 src dst w = (Ok (), with_fs (<[dst.1 := <[dst.2 := c]> files]> (fs w)) w).
Proof. unfold copy2, write_file. by intros -> ->. Qed.

Lemma exists_eq (p : path) (w : world) :
  exists_ p w = (Ok (path_exists (fs w) p), w).
Proof. reflexivity. Qed.

Lemma path_exists_Some (f : filesystem) (p : path) (c : content) :
  read_file f p = Some c → path_exists f p = true.
Proof. unfold path_exists. intros ->. by rewrite bool_decide_true. Qed.

Lemma path_exists_None (f : filesystem) (p : path) :
  read_file f p = None → path_exists f p = false.
Proof.
  unfold path_exists. intros ->. rewrite bool_decide_false; [done|by intros [? ?]].
Qed.

Lemma augment_image_spec (ops : list (string * transform_fn)) (stem : string)
    (lbl_path : path) (img : image) (acc : list sample) (n : nat) (w : world)
    (files : gmap string content) (label : content) :
  fs w !! aug_dir = Some files →
  read_file (fs w) lbl_path = Some label →
  lbl_path.1 ≠ aug_dir →
  augment_image ops stem lbl_path img (acc, n) w =
    (let outs := cascade_outcomes ops img (np_random w) in
     (Ok (acc ++ aug_added stem outs.1, (n + length (aug_added stem outs.1))%nat),
      World (<[aug_dir := foldl (aug_write stem label) files outs.1]> (fs w))
        (py_random w) outs.2 (stdout w ++ aug_warnings stem outs.1))).
Proof.
  intros Hdir Hlbl Hne. unfold augment_image.
  match goal with |- context [for_loop _ ?b _] => set (body := b) end.
  revert acc n w files Hdir Hlbl.
  induction ops as [|[suffix f] ops IH]; intros acc n w files Hdir Hlbl.
  - simpl. unfold mret, M_ret.
    rewrite !app_nil_r, Nat.add_0_r, (insert_id _ _ _ Hdir). by rewrite world_eta.
  - rewrite for_loop_cons. cbn [cascade_outcomes]. cbv zeta.
    destruct (f img (np_random w)) as [r s'] eqn:Hf. cbn [fst snd].
    destruct r as [augmented|e].
    + set (files1 := <[aug_name stem suffix +:+ ".jpg" :=
                        imencode (aug_name stem suffix +:+ ".jpg") augmented 92]> files).
      set (files2 := <[aug_name stem suffix +:+ ".txt" := label]> files1).
      set (w2 := World (<[aug_dir := files2]> (fs w)) (py_random w) s' (stdout w)).
      assert (Hbody : body (suffix, f) (acc, n) w =
                (Ok (acc ++ [aug_sample stem suffix], S n), w2)).
      { subst body. cbv beta iota.
        rewrite (bind_Ok _ _ _ _ _ (try_transform_eq _ _ _ _ _ Hf)).
        erewrite bind_Ok; last first.
        { apply (cv2_imwrite_eq _ _ _ _ files). exact Hdir. }
        erewrite bind_Ok; last first.
        { apply (copy2_eq _ _ _ label files1).
          - cbn [with_fs fs]. by rewrite read_file_insert_ne.
          - cbn [with_fs fs fst]. apply lookup_insert_eq. }
        unfold mret, M_ret, with_fs. cbn [fs py_random np_random stdout fst snd].
        by rewrite insert_insert_eq. }
      rewrite (bind_Ok _ _ _ _ _ Hbody).
      rewrite (IH _ _ w2 files2); cycle 1.
      { subst w2. cbn [fs]. apply lookup_insert_eq. }
      { subst w2. cbn [fs]. by rewrite read_file_insert_ne. }
      subst w2. cbn [fs py_random np_random stdout aug_added aug_warnings omap list_omap fst snd foldl aug_write].
      rewrite insert_insert_eq, <- app_assoc. cbn [app length].
      do 3 f_equal. unfold aug_added. lia.
    + set (w1 := World (fs w) (py_random w) s'
                   (stdout w ++ ["  WARN: " +:+ suffix +:+ " failed on " +:+ stem
                                 +:+ ": " +:+ exn_msg e])).
      assert (Hbody : body (suffix, f) (acc, n) w = (Ok (acc, n), w1)).
      { subst body. cbv beta iota.
        by rewrite (bind_Ok _ _ _ _ _ (try_transform_eq _ _ _ _ _ Hf)). }
      rewrite (bind_Ok _ _ _ _ _ Hbody).
      rewrite (IH _ _ w1 files Hdir Hlbl).
      subst w1. cbn [fs py_random np_random stdout aug_added aug_warnings omap list_omap fst snd foldl aug_write].
      by rewrite <- app_assoc.
Qed.

Lemma collect_augmented_spec (kip_imgs : list string) (acc : list sample)
    (n : nat) (w : world) (files : gmap string content) :
  fs w !! aug_dir = Some files →
  collect_augmented cascade kip_imgs (acc, n) w =
    (let r := augment_all cascade (fs w) kip_imgs files (np_random w) in
     (Ok (acc ++ added r, (n + length (added r))%nat),
      World (<[aug_dir := aug_files r]> (fs w)) (py_random w) (aug_np r)
        (stdout w ++ aug_out r))).
Proof.
  unfold collect_augmented.
  match goal with |- context [for_loop _ ?b _] => set (body := b) end.
  assert (Hgen : ∀ f0 kip_imgs acc n w files,
    fs w = <[aug_dir := files]> f0 →
    for_loop kip_imgs body (acc, n) w =
      (let r := augment_all cascade f0 kip_imgs files (np_random w) in
       (Ok (acc ++ added r, (n + length (added r))%nat),
        World (<[aug_dir := aug_files r]> f0) (py_random w) (aug_np r)
          (stdout w ++ aug_out r)))).
  { clear. intros f0 kip_imgs.
    induction kip_imgs as [|x xs IH]; intros acc n w files Hfs.
    - simpl. unfold mret, M_ret. rewrite !app_nil_r, Nat.add_0_r, <- Hfs.
      by rewrite world_eta.
    - rewrite for_loop_cons. cbn [augment_all]. cbv zeta.
      assert (Hl : read_file (fs w) (kip_labels, pathlib.stem x +:+ ".txt")
                   = read_file f0 (kip_labels, pathlib.stem x +:+ ".txt")).
      { rewrite Hfs. by apply read_file_insert_ne. }
      assert (Hi : read_file (fs w) (kip_images, x) = read_file f0 (kip_images, x)).
      { rewrite Hfs. by apply read_file_insert_ne. }
      destruct (read_file f0 (kip_labels, pathlib.stem x +:+ ".txt")) as [label|] eqn:Hlbl.
      + destruct (read_file f0 (kip_images, x) ≫= imread) as [img|] eqn:Himg.
        * erewrite bind_Ok; last first.
          { subst body. cbv beta.
            rewrite (bind_Ok _ _ _ _ _ (exists_eq _ _)).
            rewrite (path_exists_Some _ _ _ Hl). cbn [negb].
            unfold mbind at 1, M_bind at 1, cv2_imread. rewrite Hi, Himg.
            apply (augment_image_spec _ _ _ _ _ _ _ files label); [|done..].
            rewrite Hfs. apply lookup_insert_eq. }
          cbv zeta. erewrite IH; last first.
          { cbn [fs]. rewrite Hfs. apply insert_insert_eq. }
          cbn [fs py_random np_random stdout added aug_files aug_np aug_out].
          rewrite !length_app, <- !app_assoc. do 3 f_equal. lia.
        * erewrite bind_Ok; last first.
          { subst body. cbv beta.
            rewrite (bind_Ok _ _ _ _ _ (exists_eq _ _)).
            rewrite (path_exists_Some _ _ _ Hl). cbn [negb].
            unfold mbind at 1, M_bind at 1, cv2_imread. rewrite Hi, Himg.
            reflexivity. }
          by apply IH.
      + erewrite bind_Ok; last first.
        { subst body. cbv beta.
          rewrite (bind_Ok _ _ _ _ _ (exists_eq _ _)).
          rewrite (path_exists_None _ _ Hl). reflexivity. }
        by apply IH. }
  intros Hdir. rewrite (Hgen (fs w) kip_imgs acc n w files).
  - reflexivity.
  - by rewrite insert_id.
Qed.

End augment_facts.

(** ** The pool *)

Section pool_facts.
Context `{cv : OpenCV} `{rng : PyRandom}.
Variable cascade : list (string * transform_fn).

Lemma omap_ext_all {A B} (g h : A → option B) (l : list A) :
  (∀ x, g x = h x) → omap g l = omap h l.
Proof.
  intros Hgh. induction l as [|x l IH]; [done|].
  cbn [omap list_omap]. by rewrite Hgh, IH.
Qed.

Lemma read_file_ext (f f' : filesystem) (p : path) :
  f !! p.1 = f' !! p.1 → read_file f p = read_file f' p.
Proof. unfold read_file. by intros ->. Qed.

Lemma path_exists_ext (f f' : filesystem) (p : path) :
  f !! p.1 = f' !! p.1 → path_exists f p = path_exists f' p.
Proof. unfold path_exists. intros H. by rewrite (read_file_ext _ _ _ H). Qed.

Lemma augment_all_ext (f f' : filesystem) (kip_imgs : list string)
    (files : gmap string content) (s : np_state) :
  f !! kip_images = f' !! kip_images →
  f !! kip_labels = f' !! kip_labels →
  augment_all cascade f kip_imgs files s = augment_all cascade f' kip_imgs files s.
Proof.
  intros Hi Hl. revert files s.
  induction kip_imgs as [|x xs IH]; intros files s; [done|].
  cbn [augment_all].
  rewrite (read_file_ext f f' (kip_labels, pathlib.stem x +:+ ".txt")) by done.
  rewrite (read_file_ext f f' (kip_images, x)) by done.
  destruct (read_file f' (kip_labels, pathlib.stem x +:+ ".txt"));
    [destruct (read_file f' (kip_images, x) ≫= imread)|]; by rewrite ?IH.
Qed.

Lemma original_of_ext (f f' : filesystem) (x : string) :
  f !! kip_labels = f' !! kip_labels → original_of f x = original_of f' x.
Proof. intros H. unfold original_of. by rewrite (path_exists_ext f f'). Qed.

Lemma original_warning_ext (f f' : filesystem) (x : string) :
  f !! kip_labels = f' !! kip_labels → original_warning f x = original_warning f' x.
Proof. intros H. unfold original_warning. by rewrite (path_exists_ext f f'). Qed.

Lemma kolabit_samples_ext (f f' : filesystem) (s : split_name) (prefix : string) :
  f !! kol_images s = f' !! kol_images s →
  f !! kol_labels s = f' !! kol_labels s →
  kolabit_samples f s prefix = kolabit_samples f' s prefix.
Proof.
  intros Hi Hl. unfold kolabit_samples, listdir. rewrite Hi.
  destruct (f' !! kol_images s); [|done]. simpl.
  apply omap_ext_all. intros x. unfold kolabit_of.
  by rewrite (path_exists_ext f f').
Qed.

Lemma glob_jpg_ext (f f' : filesystem) (d : dir) :
  f !! d = f' !! d → glob_jpg f d = glob_jpg f' d.
Proof. unfold glob_jpg, listdir. by intros ->. Qed.

Lemma lookup_mkdir_p_ne (f : filesystem) (d d' : dir) :
  d ≠ d' → mkdir_p d f !! d' = f !! d'.
Proof.
  intros Hne. unfold mkdir_p. destruct (f !! d); [done|].
  by rewrite lookup_insert_ne.
Qed.

Lemma lookup_mkdir_p_eq (f : filesystem) (d : dir) :
  mkdir_p d f !! d = Some (default ∅ (f !! d)).
Proof.
  unfold mkdir_p. destruct (f !! d) eqn:H; [done|]. by rewrite lookup_insert_eq.
Qed.

Lemma insert_mkdir_p (f : filesystem) (d : dir) (files : gmap string content) :
  <[d := files]> (mkdir_p d f) = <[d := files]> f.
Proof.
  unfold mkdir_p. destruct (f !! d); [done|]. by rewrite insert_insert_eq.
Qed.

Lemma collect_samples_spec (w : world) :
  let f := fs w in
  let kip_imgs := glob_jpg f kip_images in
  let r := augment_all cascade f kip_imgs (staging f) (np_random w) in
  collect_samples cascade w =
    (Ok (length kip_imgs, pool_of cascade f (np_random w), length (added r),
         (length (kolabit_samples f train "kol_")
          + length (kolabit_samples f val "kol_v_"))%nat),
     World (<[aug_dir := aug_files r]> f) (py_random w) (aug_np r)
       (stdout w ++ collect_log cascade f (np_random w))).
Proof.
  intros f kip_imgs r. unfold collect_samples.
  unfold mbind at 1, M_bind at 1, glob_sorted. fold f. fold kip_imgs.
  rewrite (bind_Ok _ _ _ _ _ (print_eq _ _)).
  rewrite (bind_Ok _ _ _ _ _ (collect_originals_spec _ _ _)).
  cbn [fs py_random np_random stdout].
  unfold mbind at 1, M_bind at 1, mkdir at 1, with_fs.
  cbn [fs py_random np_random stdout].
  erewrite bind_Ok; last first.
  { apply (collect_augmented_spec _ _ _ _ _ (staging f)).
    cbn [fs]. apply lookup_mkdir_p_eq. }
  cbn [fs py_random np_random stdout]. cbv zeta.
  rewrite insert_mkdir_p.
  rewrite (augment_all_ext (mkdir_p aug_dir f) f)
    by (by apply lookup_mkdir_p_ne). fold r.
  rewrite (bind_Ok _ _ _ _ _ (print_eq _ _)).
  cbn [fs py_random np_random stdout].
  rewrite (bind_Ok _ _ _ _ _ (collect_kolabit_spec _ _ _ _ _)).
  rewrite (bind_Ok _ _ _ _ _ (collect_kolabit_spec _ _ _ _ _)).
  cbn [fs py_random np_random stdout].
  rewrite !(kolabit_samples_ext (<[aug_dir := aug_files r]> f) f)
    by (by rewrite lookup_insert_ne).
  rewrite (bind_Ok _ _ _ _ _ (print_eq _ _)).
  rewrite (bind_Ok _ _ _ _ _ (print_eq _ _)).
  cbn [fs py_random np_random stdout]. unfold mret, M_ret.
  unfold collect_log, pool_of. fold f. fold kip_imgs. fold r.
  rewrite <- !app_assoc. cbn [app]. reflexivity.
Qed.

End pool_facts.

(** ** What the materialisation writes *)

Section write_facts.
Context `{rng : PyRandom}.

Lemma with_fs_with_fs (f g : filesystem) (w : world) :
  with_fs f (with_fs g w) = with_fs f w.
Proof. reflexivity. Qed.

Lemma with_fs_id (w : world) : with_fs (fs w) w = w.
Proof. by destruct w. Qed.

Lemma unlink_eq (p : path) (w : world) (files : gmap string content) (c : content) :
  fs w !! p.1 = Some files → files !! p.2 = Some c →
  unlink p w = (Ok (), with_fs (<[p.1 := delete p.2 files]> (fs w)) w).
Proof. unfold unlink. by intros -> ->. Qed.

Lemma unlink_loop (d : dir) (names : list string) (w : world)
    (files : gmap string content) :
  fs w !! d = Some files →
  NoDup names →
  (∀ n, n ∈ names → is_Some (files !! n)) →
  ∃ files',
    for_loop names (λ f _, unlink (d, f)) () w =
      (Ok (), with_fs (<[d := files']> (fs w)) w) ∧
    ∀ k, files' !! k = if decide (k ∈ names) then None else files !! k.
Proof.
  revert w files. induction names as [|x xs IH]; intros w files Hd Hnd Hin.
  - exists files. split.
    + simpl. unfold mret, M_ret. by rewrite (insert_id _ _ _ Hd), with_fs_id.
    + intros k. rewrite decide_False; [done|]. by apply not_elem_of_nil.
  - apply NoDup_cons in Hnd as [Hx Hnd].
    destruct (Hin x) as [c Hc]; [by left|].
    rewrite for_loop_cons.
    rewrite (bind_Ok _ _ _ _ _ (unlink_eq (d, x) w files c Hd Hc)).
    cbn [fst snd].
    destruct (IH (with_fs (<[d := delete x files]> (fs w)) w) (delete x files))
      as (files' & Hloop & Hfiles').
    { cbn [with_fs fs]. apply lookup_insert_eq. }
    { done. }
    { intros n Hn. rewrite lookup_delete_ne; [apply Hin; by right|].
      intros ->. done. }
    exists files'. split.
    + rewrite Hloop. cbn [with_fs fs py_random np_random stdout fst].
      by rewrite insert_insert_eq.
    + intros k. rewrite Hfiles'.
      destruct (decide (k = x)) as [->|Hne].
      * rewrite (decide_True (P := x ∈ x :: xs)) by (by left).
        destruct (decide (x ∈ xs)); [done|]. apply lookup_delete_eq.
      * rewrite lookup_delete_ne by done.
        destruct (decide (k ∈ xs)) as [Hk|Hk].
        -- by rewrite decide_True by (by right).
        -- rewrite decide_False; [done|].
           intros [?|?]%elem_of_cons; done.
Qed.

(** [for f in d.iterdir(): f.unlink()] empties the directory. *)
Lemma clean_dir {B} (d : dir) (k : M B) (w : world) (files : gmap string content) :
  fs w !! d = Some files →
  (stale ← iterdir d; for_loop stale (λ f _, unlink (d, f)) ();; k) w =
    k (with_fs (<[d := ∅]> (fs w)) w).
Proof.
  intros Hd.
  assert (Hit : iterdir d w = (Ok (map fst (map_to_list files)), w)).
  { unfold iterdir, listdir. by rewrite Hd. }
  rewrite (bind_Ok _ _ _ _ _ Hit).
  destruct (unlink_loop d (map fst (map_to_list files)) w files Hd)
    as (files' & Hloop & Hfiles').
  { apply NoDup_fst_map_to_list. }
  { intros n [[n' c] [-> Hnc]]%list_elem_of_fmap.
    apply elem_of_map_to_list in Hnc. eauto. }
  rewrite (bind_Ok _ _ _ _ _ Hloop).
  replace files' with (∅ : gmap string content); [done|].
  apply map_eq. intros k'.
  rewrite Hfiles', lookup_empty. case_decide as Hk; [done|].
  destruct (files !! k') as [c|] eqn:Hc; [|done].
  exfalso. apply Hk. apply list_elem_of_fmap. exists (k', c).
  split; [done|]. by apply elem_of_map_to_list.
Qed.

Lemma copy_loop (s : split_name) (f0 : filesystem) (samples : list sample)
    (w : world) (images labels : gmap string content) :
  fs w = <[out_labels s := labels]> (<[out_images s := images]> f0) →
  Forall (source_ok f0 s) samples →
  for_loop samples (λ '(img_path, lbl_path, name) _,
      let ext := pathlib.suffix img_path.2 in
      copy2 img_path (out_images s, name +:+ ext);;
      copy2 lbl_path (out_labels s, name +:+ ".txt")) () w =
    (Ok (),
     with_fs (<[out_labels s := copy_into f0 out_label_name (λ sm, sm.1.2) labels samples]>
               (<[out_images s := copy_into f0 out_image_name (λ sm, sm.1.1) images samples]> f0))
       w).
Proof.
  match goal with |- context [for_loop _ ?b _] => set (body := b) end.
  intros Hfs Hok. revert w images labels Hfs.
  induction Hok as [|[[ip lp] name] samples Hsm Hok IH]; intros w images labels Hfs.
  - simpl. unfold mret, M_ret. by rewrite <- Hfs, with_fs_id.
  - destruct Hsm as ([ci Hci] & [cl Hcl] & Hi1 & Hi2 & Hl1 & Hl2).
    cbn [fst snd] in *.
    rewrite for_loop_cons.
    assert (Hbody : body (ip, lp, name) () w =
      (Ok (), with_fs (<[out_labels s := <[name +:+ ".txt" := cl]> labels]>
                        (<[out_images s := <[name +:+ pathlib.suffix ip.2 := ci]> images]> f0)) w)).
    { subst body. cbv beta iota zeta.
      erewrite bind_Ok; last first.
      { apply (copy2_eq _ _ _ ci images).
        - rewrite Hfs, !read_file_insert_ne by done. exact Hci.
        - rewrite Hfs. cbn [fst]. rewrite lookup_insert_ne by done.
          apply lookup_insert_eq. }
      erewrite copy2_eq; [| |]; cycle 1.
      { cbn [with_fs fs]. rewrite Hfs, !read_file_insert_ne by done. exact Hcl. }
      { cbn [with_fs fs fst]. rewrite Hfs.
        rewrite lookup_insert_ne by done. apply lookup_insert_eq. }
      cbn [with_fs fs py_random np_random stdout fst snd]. rewrite Hfs.
      rewrite (insert_insert_ne _ (out_images s) (out_labels s)) by done.
      by rewrite !insert_insert_eq. }
    rewrite (bind_Ok _ _ _ _ _ Hbody).
    rewrite (IH _ (<[name +:+ pathlib.suffix ip.2 := ci]> images)
               (<[name +:+ ".txt" := cl]> labels)) by done.
    cbn [with_fs fs py_random np_random stdout].
    unfold copy_into. cbn [foldl fst snd out_image_name out_label_name].
    unfold out_image_name, out_label_name. cbn [fst snd]. by rewrite Hci, Hcl.
Qed.

Lemma write_split_spec (s : split_name) (samples : list sample) (w : world) :
  Forall (source_ok (fs w) s) samples →
  write_split s samples w =
    (Ok (),
     with_fs (<[out_labels s := copy_into (fs w) out_label_name (λ sm, sm.1.2) ∅ samples]>
               (<[out_images s := copy_into (fs w) out_image_name (λ sm, sm.1.1) ∅ samples]>
                  (fs w)))
       w).
Proof.
  intros Hok. unfold write_split.
  unfold mbind at 1, M_bind at 1, mkdir at 1.
  unfold mbind at 1, M_bind at 1, mkdir at 1.
  erewrite clean_dir; last first.
  { cbn [with_fs fs]. rewrite lookup_mkdir_p_ne by done. apply lookup_mkdir_p_eq. }
  erewrite clean_dir; last first.
  { cbn [with_fs fs]. rewrite lookup_insert_ne by done. apply lookup_mkdir_p_eq. }
  erewrite (copy_loop s (fs w)); [reflexivity| |done].
  cbn [with_fs fs].
  rewrite (insert_insert_ne _ (out_labels s) (out_images s)) by done.
  rewrite insert_mkdir_p.
  rewrite (insert_insert_ne _ (out_images s) (out_labels s)) by done.
  by rewrite insert_mkdir_p.
Qed.

End write_facts.

(** ** The whole run *)

Section run_facts.
Context `{cv : OpenCV} `{rng : PyRandom}.
Variable cascade : list (string * transform_fn).
Variables (output_dir yaml_path : string).

Lemma Forall_swap {A} (P : A → Prop) (i j : nat) (x : list A) :
  Forall P x → Forall P (swap i j x).
Proof.
  intros HP. unfold swap.
  destruct (x !! j) as [xj|] eqn:Hj; [|done].
  destruct (x !! i) as [xi|] eqn:Hi; [|done].
  apply Forall_insert; [apply Forall_insert|]; [done|..];
    eapply Forall_lookup_1; eauto.
Qed.

Lemma Forall_shuffle {A} (P : A → Prop) (x : list A) (s : py_state) :
  Forall P x → Forall P (shuffle x s).1.
Proof.
  unfold shuffle. generalize (length x - 1)%nat as i. intros i. revert x s.
  induction i as [|i IH]; intros x s HP; [done|].
  cbn [shuffle_from]. destruct (py_randbelow _ s) as [j s'].
  apply IH. by apply Forall_swap.
Qed.

Lemma pool_src_ok_source_ok (f : filesystem) (s : split_name) (sm : sample) :
  pool_src_ok f sm → source_ok f s sm.
Proof.
  intros (Hi & Hl & Hdi & Hdl). unfold source_ok.
  repeat split; try done; intros Heq; rewrite Heq in *; done.
Qed.

Lemma pool_src_ok_written (f : filesystem) (s : split_name)
    (samples : list sample) (sm : sample) :
  pool_src_ok f sm → pool_src_ok (written f s samples) sm.
Proof.
  intros (Hi & Hl & Hdi & Hdl). unfold pool_src_ok, written.
  rewrite !read_file_insert_ne; [done|intros Heq; rewrite Heq in *; done..].
Qed.

Lemma write_dataset_spec (n_kip_imgs : nat) (all_samples : list sample)
    (aug_count kolabit_count : nat) (val_ratio : Q) (w : world)
    (yamls : gmap string content) :
  Forall (pool_src_ok (fs w)) all_samples →
  fs w !! yaml_dir = Some yamls →
  let shuffled := (shuffle all_samples (py_seed 42)).1 in
  let val_count := val_count_of (length shuffled) val_ratio in
  let train_samples := slice_from val_count shuffled in
  let val_samples := slice_to val_count shuffled in
  ∃ out,
    write_dataset output_dir yaml_path n_kip_imgs all_samples aug_count
        kolabit_count val_ratio w =
      (Ok (),
       World
         (delete aug_dir
            (<[yaml_dir :=
                 <["dataset.yaml" :=
                     yaml_content output_dir n_kip_imgs aug_count kolabit_count
                       (length all_samples) (length train_samples)
                       (length val_samples)]> yamls]>
               (written (written (fs w) train train_samples) val val_samples)))
         (shuffle all_samples (py_seed 42)).2 (np_random w) (stdout w ++ out)).
Proof.
  intros Hok Hyaml shuffled val_count train_samples val_samples.
  assert (Hsh : Forall (pool_src_ok (fs w)) shuffled) by by apply Forall_shuffle.
  assert (Htr : Forall (pool_src_ok (fs w)) train_samples) by by apply Forall_drop.
  assert (Hva : Forall (pool_src_ok (fs w)) val_samples) by by apply Forall_take.
  unfold write_dataset.
  rewrite (bind_Ok _ _ _ _ _ (shuffle_and_split_eq _ _ _)).
  fold shuffled. cbv zeta. fold val_count. fold train_samples. fold val_samples.
  unfold mbind at 1, M_bind at 1, print at 1.
  cbn [fs py_random np_random stdout].
  eexists.
  erewrite bind_Ok; last first.
  { rewrite for_loop_cons. cbv beta iota.
    erewrite bind_Ok; last first.
    { apply write_split_spec. cbn [fs].
      eapply Forall_impl; [exact Htr|]. intros sm. apply pool_src_ok_source_ok. }
    rewrite for_loop_cons. cbv beta iota.
    erewrite bind_Ok; last first.
    { apply write_split_spec. cbn [with_fs fs].
      eapply Forall_impl; [exact Hva|]. intros sm Hsm.
      apply pool_src_ok_source_ok. by apply pool_src_ok_written. }
    reflexivity. }
  cbn [with_fs fs py_random np_random stdout].
  fold (written (fs w) train train_samples).
  fold (written (written (fs w) train train_samples) val val_samples).
  assert (Hy : written (written (fs w) train train_samples) val val_samples
               !! yaml_dir = Some yamls).
  { unfold written. by rewrite !lookup_insert_ne by done. }
  erewrite bind_Ok; last first.
  { unfold write_text, write_file, with_fs.
    cbn [fs py_random np_random stdout fst snd]. rewrite Hy. reflexivity. }
  unfold with_fs. cbn [fs py_random np_random stdout].
  rewrite (bind_Ok _ _ _ _ _ (print_eq _ _)). cbn [fs py_random np_random stdout].
  erewrite bind_Ok by reflexivity.
  unfold with_fs, rmtree. cbn [fs py_random np_random stdout].
  do 9 (rewrite (bind_Ok _ _ _ _ _ (print_eq _ _));
        cbn [fs py_random np_random stdout]).
  rewrite print_eq. cbn [fs py_random np_random stdout].
  rewrite <- !app_assoc. cbn [app]. reflexivity.
Qed.

End run_facts.

(** ** Strings *)

Lemma string_app_nil_l (t : string) : EmptyString +:+ t = t.
Proof. reflexivity. Qed.

Lemma string_app_cons (c : ascii) (s t : string) :
  String c s +:+ t = String c (s +:+ t).
Proof. reflexivity. Qed.

Lemma string_app_nil_r (s : string) : s +:+ EmptyString = s.
Proof.
  induction s as [|c s IH]; [done|]. by rewrite string_app_cons, IH.
Qed.

Lemma string_length_app (s t : string) :
  String.length (s +:+ t) = (String.length s + String.length t)%nat.
Proof.
  induction s as [|c s IH]; [done|]. rewrite string_app_cons. simpl. by rewrite IH.
Qed.

Lemma string_app_length_inj (s1 s2 u1 u2 : string) :
  String.length s1 = String.length s2 →
  s1 +:+ u1 = s2 +:+ u2 → s1 = s2 ∧ u1 = u2.
Proof.
  revert s2. induction s1 as [|c s1 IH]; intros [|c' s2] Hlen Heq; try done.
  rewrite !string_app_cons in Heq. injection Heq as -> Heq.
  simpl in Hlen. destruct (IH s2) as [-> ->]; [lia|done|done].
Qed.

Lemma string_app_inv_tail (s1 s2 u : string) : s1 +:+ u = s2 +:+ u → s1 = s2.
Proof.
  intros Heq. apply (string_app_length_inj s1 s2 u u); [|done].
  apply (f_equal String.length) in Heq. rewrite !string_length_app in Heq. lia.
Qed.

Lemma string_app_eq_app (s1 u1 s2 u2 : string) :
  s1 +:+ u1 = s2 +:+ u2 →
  ∃ l, (s1 = s2 +:+ l ∧ u2 = l +:+ u1) ∨ (s2 = s1 +:+ l ∧ u1 = l +:+ u2).
Proof.
  revert s2. induction s1 as [|c s1 IH]; intros s2 Heq.
  - exists s2. right. by rewrite !string_app_nil_l in *.
  - destruct s2 as [|c' s2].
    + exists (String c s1). left. by rewrite !string_app_nil_l in *.
    + rewrite !string_app_cons in Heq. injection Heq as -> Heq.
      destruct (IH s2 Heq) as [l [[-> ->]|[-> ->]]]; exists l; [left|right];
        by rewrite string_app_cons.
Qed.

Lemma substring_all (u : string) : String.substring 0 (String.length u) u = u.
Proof. induction u as [|c u IH]; [done|]. simpl. by rewrite IH. Qed.

Lemma substring_app_r (l u : string) :
  String.substring (String.length l) (String.length u) (l +:+ u) = u.
Proof.
  induction l as [|c l IH]; [apply substring_all|].
  rewrite string_app_cons. simpl. exact IH.
Qed.

Lemma endswith_app (l u : string) : pathlib.endswith (l +:+ u) u = true.
Proof.
  unfold pathlib.endswith. rewrite string_length_app.
  apply andb_true_intro. split; [apply Nat.leb_le; lia|].
  replace (String.length l + String.length u - String.length u)%nat
    with (String.length l) by lia.
  rewrite substring_app_r. apply String.eqb_refl.
Qed.

Lemma proper_suffix_app (l u : string) :
  l ≠ EmptyString → proper_suffix u (l +:+ u) = true.
Proof.
  intros Hl. unfold proper_suffix. rewrite endswith_app, string_length_app.
  rewrite andb_true_r. apply Nat.ltb_lt. destruct l; [done|]. simpl. lia.
Qed.

Lemma tags_unambiguous_spec (tags : list string) (t1 t2 : string) :
  tags_unambiguous tags = true → t1 ∈ tags → t2 ∈ tags →
  proper_suffix ("_" +:+ t1) ("_" +:+ t2) = false.
Proof.
  unfold tags_unambiguous. rewrite forallb_forall. intros H H1 H2.
  apply list_elem_of_In in H1, H2. specialize (H t1 H1).
  rewrite forallb_forall in H. specialize (H t2 H2).
  by apply negb_true_iff in H.
Qed.

Lemma aug_name_stem (tags : list string) (s1 t1 s2 t2 : string) :
  tags_unambiguous tags = true → t1 ∈ tags → t2 ∈ tags →
  aug_name s1 t1 = aug_name s2 t2 → s1 = s2.
Proof.
  intros Htags H1 H2 Heq. unfold aug_name in Heq.
  apply (inj (String.app "kip_")) in Heq.
  destruct (string_app_eq_app _ _ _ _ Heq) as [l [[-> Hl]|[-> Hl]]].
  - destruct (decide (l = EmptyString)) as [->|Hne];
      [by rewrite string_app_nil_r|].
    pose proof (tags_unambiguous_spec tags t1 t2 Htags H1 H2) as Hf.
    rewrite Hl, proper_suffix_app in Hf; done.
  - destruct (decide (l = EmptyString)) as [->|Hne];
      [by rewrite string_app_nil_r|].
    pose proof (tags_unambiguous_spec tags t2 t1 Htags H2 H1) as Hf.
    rewrite Hl, proper_suffix_app in Hf; done.
Qed.

Lemma jpg_ne_txt (a b : string) : a +:+ ".jpg" ≠ b +:+ ".txt".
Proof.
  intros Heq.
  assert (Hlen : String.length a = String.length b).
  { apply (f_equal String.length) in Heq. rewrite !string_length_app in Heq.
    simpl in Heq. lia. }
  by destruct (string_app_length_inj _ _ _ _ Hlen Heq).
Qed.

(** ** Invariants of the staging directory *)

Section augment_invariant.
Context `{cv : OpenCV}.
Variable cascade : list (string * transform_fn).
Variable f : filesystem.
Variable P : gmap string content → sample → Prop.

Hypothesis P_keep : ∀ files sm stem label o,
  read_file f (kip_labels, stem +:+ ".txt") = Some label →
  o.1 ∈ cascade.*1 →
  P files sm → P (aug_write stem label files o) sm.

Hypothesis P_new : ∀ files stem label suffix augmented,
  read_file f (kip_labels, stem +:+ ".txt") = Some label →
  suffix ∈ cascade.*1 →
  P (aug_write stem label files (suffix, Ok augmented)) (aug_sample stem suffix).

Lemma cascade_outcomes_tags (ops : list (string * transform_fn)) (img : image)
    (s : np_state) :
  (cascade_outcomes ops img s).1.*1 = ops.*1.
Proof.
  revert s. induction ops as [|[suffix fn] ops IH]; intros s; [done|].
  cbn [cascade_outcomes]. cbv zeta. cbn [fst fmap list_fmap]. by rewrite IH.
Qed.

Lemma foldl_aug_write_inv (stem : string) (label : content)
    (outs : list (string * result image)) (pre : list sample)
    (files : gmap string content) :
  read_file f (kip_labels, stem +:+ ".txt") = Some label →
  (∀ o, o ∈ outs → o.1 ∈ cascade.*1) →
  Forall (P files) pre →
  Forall (P (foldl (aug_write stem label) files outs)) (pre ++ aug_added stem outs).
Proof.
  intros Hl. revert pre files.
  induction outs as [|o outs IH]; intros pre files Htags Hpre.
  - simpl. by rewrite app_nil_r.
  - assert (Ho : o.1 ∈ cascade.*1) by (apply Htags; by left).
    assert (Hkeep : Forall (P (aug_write stem label files o)) pre).
    { eapply Forall_impl; [exact Hpre|]. intros sm. by apply P_keep. }
    cbn [foldl]. unfold aug_added. cbn [omap list_omap].
    destruct o as [suffix [augmented|e]]; cbn [fst snd] in *.
    + change (?x :: ?l) with ([x] ++ l). rewrite app_assoc.
      apply IH; [intros o' Ho'; apply Htags; by right|].
      apply Forall_app. split; [done|]. apply Forall_singleton. by apply P_new.
    + apply IH; [intros o' Ho'; apply Htags; by right|done].
Qed.

Lemma augment_all_inv (kip_imgs : list string) (files : gmap string content)
    (s : np_state) (pre : list sample) :
  Forall (P files) pre →
  Forall (P (aug_files (augment_all cascade f kip_imgs files s)))
    (pre ++ added (augment_all cascade f kip_imgs files s)).
Proof.
  revert files s pre. induction kip_imgs as [|x xs IH]; intros files s pre Hpre.
  - simpl. by rewrite app_nil_r.
  - cbn [augment_all]. cbv zeta.
    destruct (read_file f (kip_labels, pathlib.stem x +:+ ".txt")) as [label|] eqn:Hl;
      [|by apply IH].
    destruct (read_file f (kip_images, x) ≫= imread) as [img|]; [|by apply IH].
    cbn [added aug_files]. rewrite app_assoc. apply IH.
    apply foldl_aug_write_inv; [done| |done].
    intros o Ho. rewrite <- (cascade_outcomes_tags cascade img s).
    apply list_elem_of_fmap. by exists o.
Qed.

End augment_invariant.

Section staging_facts.
Context `{cv : OpenCV}.
Variable cascade : list (string * transform_fn).

Lemma aug_write_is_Some (stem : string) (label : content)
    (files : gmap string content) (o : string * result image) (k : string) :
  is_Some (files !! k) → is_Some (aug_write stem label files o !! k).
Proof.
  intros Hk. unfold aug_write. destruct o.2; [|done].
  rewrite !lookup_insert_is_Some'. auto.
Qed.

Lemma added_staged (f : filesystem) (kip_imgs : list string)
    (files : gmap string content) (s : np_state) :
  Forall (staged (aug_files (augment_all cascade f kip_imgs files s)))
    (added (augment_all cascade f kip_imgs files s)).
Proof.
  apply (augment_all_inv cascade f staged) with (pre := []); [| |done].
  - intros files' sm stem label o _ _ (? & ? & ? & ?).
    repeat split; try done; by apply aug_write_is_Some.
  - intros files' stem label suffix augmented _ _.
    unfold staged, aug_write, aug_sample. cbn [fst snd].
    repeat split; rewrite !lookup_insert_is_Some'; auto.
Qed.

Lemma added_label_kept (f : filesystem) (kip_imgs : list string)
    (files : gmap string content) (s : np_state) :
  tags_unambiguous cascade.*1 = true →
  Forall (label_kept cascade f (aug_files (augment_all cascade f kip_imgs files s)))
    (added (augment_all cascade f kip_imgs files s)).
Proof.
  intros Htags.
  apply (augment_all_inv cascade f (label_kept cascade f)) with (pre := []); [| |done].
  - intros files' sm stem' label' [suffix' r] Hl' Hs'
      (stem & suffix & label & -> & Hs & Hl & Hfile).
    exists stem, suffix, label. repeat split; try done.
    unfold aug_write. cbn [fst snd] in *. destruct r as [augmented|e]; [|done].
    destruct (decide (aug_name stem' suffix' +:+ ".txt" = aug_name stem suffix +:+ ".txt"))
      as [Heq|Hne].
    + apply string_app_inv_tail in Heq.
      pose proof (aug_name_stem _ _ _ _ _ Htags Hs' Hs Heq) as ->.
      rewrite Heq, lookup_insert_eq. congruence.
    + rewrite lookup_insert_ne by done.
      rewrite lookup_insert_ne by apply jpg_ne_txt. done.
  - intros files' stem label suffix augmented Hl Hs.
    exists stem, suffix, label. repeat split; try done.
    unfold aug_write. cbn [fst snd]. apply lookup_insert_eq.
Qed.

End staging_facts.

(** ** Where the pairs of the pool come from *)

Section pool_members.
Context `{cv : OpenCV} `{rng : PyRandom}.
Variable cascade : list (string * transform_fn).

Lemma elem_of_sorted (x : string) (names : list string) :
  x ∈ sorted names ↔ x ∈ names.
Proof. unfold sorted. by rewrite merge_sort_Permutation. Qed.

Lemma elem_of_listdir (f : filesystem) (d : dir) (names : list string) (x : string) :
  listdir f d = Some names → (x ∈ names ↔ is_Some (read_file f (d, x))).
Proof.
  unfold listdir, read_file. cbn [fst snd].
  destruct (f !! d) as [files|]; [|done]. intros [= <-]. simpl. split.
  - intros [[x' c] [-> Hxc]]%list_elem_of_fmap.
    apply elem_of_map_to_list in Hxc. eauto.
  - intros [c Hc]. apply list_elem_of_fmap. exists (x, c).
    split; [done|]. by apply elem_of_map_to_list.
Qed.

Lemma elem_of_glob_jpg (f : filesystem) (d : dir) (x : string) :
  x ∈ glob_jpg f d ↔
  is_Some (read_file f (d, x)) ∧ pathlib.endswith x ".jpg" = true.
Proof.
  unfold glob_jpg. destruct (listdir f d) as [names|] eqn:Hd.
  - rewrite elem_of_sorted, list_elem_of_filter, (elem_of_listdir _ _ _ _ Hd).
    rewrite Is_true_true. tauto.
  - split; [by intros ?%elem_of_nil|]. intros [[c Hc] _].
    unfold listdir, read_file in *. cbn [fst snd] in *.
    by destruct (f !! d).
Qed.

Lemma elem_of_originals (f : filesystem) (kip_imgs : list string) (sm : sample) :
  sm ∈ omap (original_of f) kip_imgs ↔
  ∃ x, x ∈ kip_imgs ∧
       is_Some (read_file f (kip_labels, pathlib.stem x +:+ ".txt")) ∧
       sm = ((kip_images, x), (kip_labels, pathlib.stem x +:+ ".txt"),
             "kip_" +:+ pathlib.stem x).
Proof.
  rewrite list_elem_of_omap. unfold original_of, path_exists.
  split; intros (x & Hx & H); exists x; (split; [done|]).
  - case_bool_decide; by simplify_eq.
  - destruct H as [Hl ->]. by rewrite bool_decide_true.
Qed.

Lemma elem_of_kolabit_samples (f : filesystem) (s : split_name)
    (prefix : string) (sm : sample) :
  sm ∈ kolabit_samples f s prefix ↔
  ∃ x, is_Some (read_file f (kol_images s, x)) ∧
       image_suffix x = true ∧
       is_Some (read_file f (kol_labels s, pathlib.stem x +:+ ".txt")) ∧
       sm = ((kol_images s, x), (kol_labels s, pathlib.stem x +:+ ".txt"),
             prefix +:+ pathlib.stem x).
Proof.
  unfold kolabit_samples. destruct (listdir f (kol_images s)) as [names|] eqn:Hd.
  - rewrite list_elem_of_omap. unfold kolabit_of, path_exists.
    split.
    + intros (x & Hx & H). exists x.
      rewrite elem_of_sorted, (elem_of_listdir _ _ _ _ Hd) in Hx.
      destruct (image_suffix x); [|done]. case_bool_decide; by simplify_eq.
    + intros (x & Hx & Hsuf & Hl & ->). exists x.
      rewrite elem_of_sorted, (elem_of_listdir _ _ _ _ Hd).
      split; [done|]. by rewrite Hsuf, bool_decide_true.
  - split; [by intros ?%elem_of_nil|]. intros (x & [c Hc] & _).
    unfold listdir, read_file in *. cbn [fst snd] in *.
    by destruct (f !! kol_images s).
Qed.

(** A pair of the pool whose image is in the staging directory is one
    the augmentation loop added. *)
Lemma pool_of_staged (f : filesystem) (s : np_state) (sm : sample) :
  sm ∈ pool_of cascade f s → sm.1.1.1 = aug_dir →
  sm ∈ added (augment_all cascade f (glob_jpg f kip_images) (staging f) s).
Proof.
  unfold pool_of. rewrite !elem_of_app.
  intros [H|[H|[H|H]]] Hd; [|done| |].
  - apply elem_of_originals in H as (x & _ & _ & ->). done.
  - apply elem_of_kolabit_samples in H as (x & _ & _ & _ & ->). done.
  - apply elem_of_kolabit_samples in H as (x & _ & _ & _ & ->). done.
Qed.


End pool_members.

(** ** The run returns *)

Section run_total.
Context `{cv : OpenCV} `{rng : PyRandom}.
Variable cascade : list (string * transform_fn).
Variables (output_dir yaml_path : string).

Lemma pool_of_ok (f : filesystem) (s : np_state) :
  Forall (pool_src_ok (collected cascade f s)) (pool_of cascade f s).
Proof.
  unfold pool_of, collected. rewrite !Forall_app. repeat split.
  - apply Forall_forall. intros sm (x & Hx & Hl & ->)%elem_of_originals.
    apply elem_of_glob_jpg in Hx as [Hx _].
    unfold pool_src_ok. cbn [fst snd]. by rewrite !read_file_insert_ne.
  - eapply Forall_impl; [apply added_staged|].
    intros [[[di ni] [dl nl]] name] (Hdi & Hdl & Hi & Hl). cbn [fst snd] in *.
    subst. unfold pool_src_ok, read_file. cbn [fst snd].
    by rewrite lookup_insert_eq.
  - apply Forall_forall. intros sm (x & Hx & _ & Hl & ->)%elem_of_kolabit_samples.
    unfold pool_src_ok. cbn [fst snd]. by rewrite !read_file_insert_ne.
  - apply Forall_forall. intros sm (x & Hx & _ & Hl & ->)%elem_of_kolabit_samples.
    unfold pool_src_ok. cbn [fst snd]. by rewrite !read_file_insert_ne.
Qed.

(** A run returns, given the directory of the manifest; its output
    directories then hold the copies of its two subsets and nothing
    else. *)
Lemma augment_dataset_spec (val_ratio : Q) (w : world)
    (yamls : gmap string content) :
  fs w !! yaml_dir = Some yamls →
  let pool := pool_of cascade (fs w) (np_random w) in
  let f1 := collected cascade (fs w) (np_random w) in
  let f2 := written (written f1 train (train_subset pool val_ratio))
              val (val_subset pool val_ratio) in
  ∃ w' manifest,
    augment_dataset cascade output_dir yaml_path val_ratio w = (Ok (), w') ∧
    fs w' = delete aug_dir (<[yaml_dir := <["dataset.yaml" := manifest]> yamls]> f2).
Proof.
  intros Hyaml pool f1 f2.
  pose proof (collect_samples_spec cascade w) as Hcollect.
  unfold augment_dataset. rewrite (bind_Ok _ _ _ _ _ Hcollect).
  edestruct (write_dataset_spec output_dir yaml_path) as [out' Hwrite]; last first.
  { rewrite Hwrite. eexists _, _. split; reflexivity. }
  - cbn [fs]. by rewrite lookup_insert_ne.
  - cbn [fs]. apply pool_of_ok.
Qed.

End run_total.

(** ** The names in the output directories *)

Lemma dom_copy_into (f : filesystem) (target : sample → string)
    (source : sample → path) (m : gmap string content) (samples : list sample) :
  Forall (λ sm, is_Some (read_file f (source sm))) samples →
  dom (copy_into f target source m samples)
  = dom m ∪ list_to_set (target <$> samples).
Proof.
  unfold copy_into. intros Hok. revert m.
  induction Hok as [|sm samples [c Hc] Hok IH]; intros m.
  - simpl. by rewrite (right_id_L ∅ (∪)).
  - cbn [foldl fmap list_fmap list_to_set]. rewrite Hc, IH, dom_insert_L.
    rewrite (comm_L (∪) {[target sm]} (dom m)). by rewrite (assoc_L (∪)).
Qed.

Section rerun.
Context `{cv : OpenCV} `{rng : PyRandom}.
Variable cascade : list (string * transform_fn).
Variables (output_dir yaml_path : string).

Lemma aug_added_deterministic (ops : list (string * transform_fn))
    (stem : string) (img : image) (s1 s2 : np_state) :
  (∀ o, o ∈ ops → o ∈ cascade) →
  failure_deterministic cascade →
  aug_added stem (cascade_outcomes ops img s1).1
  = aug_added stem (cascade_outcomes ops img s2).1.
Proof.
  intros Hsub Hdet. revert s1 s2.
  induction ops as [|[tag fn] ops IH]; intros s1 s2; [done|].
  cbn [cascade_outcomes]. cbv zeta. unfold aug_added. cbn [omap list_omap fst snd].
  assert (Hfn : is_Ok (fn img s1).1 = is_Ok (fn img s2).1).
  { apply (Hdet tag). apply Hsub. by left. }
  fold (aug_added stem (cascade_outcomes ops img (fn img s1).2).1).
  fold (aug_added stem (cascade_outcomes ops img (fn img s2).2).1).
  rewrite (IH (λ o Ho, Hsub o (list_elem_of_further _ _ _ Ho))
              (fn img s1).2 (fn img s2).2).
  destruct (fn img s1).1, (fn img s2).1; done.
Qed.

(** The pairs the augmentation adds depend on the two Kipukas
    directories only. *)
Lemma added_deterministic (f f' : filesystem) (kip_imgs : list string)
    (files files' : gmap string content) (s s' : np_state) :
  failure_deterministic cascade →
  f !! kip_images = f' !! kip_images →
  f !! kip_labels = f' !! kip_labels →
  added (augment_all cascade f kip_imgs files s)
  = added (augment_all cascade f' kip_imgs files' s').
Proof.
  intros Hdet Hi Hl. revert files files' s s'.
  induction kip_imgs as [|x xs IH]; intros files files' s s'; [done|].
  cbn [augment_all]. cbv zeta.
  rewrite (read_file_ext f f' (kip_labels, pathlib.stem x +:+ ".txt")) by done.
  rewrite (read_file_ext f f' (kip_images, x)) by done.
  destruct (read_file f' (kip_labels, pathlib.stem x +:+ ".txt")); [|apply IH].
  destruct (read_file f' (kip_images, x) ≫= imread) as [img|]; [|apply IH].
  cbn [added]. f_equal; [|apply IH].
  by apply aug_added_deterministic.
Qed.

Lemma pool_of_deterministic (f f' : filesystem) (s s' : np_state) :
  failure_deterministic cascade →
  (∀ d, d ∈ [kip_images; kip_labels; kol_images train; kol_labels train;
             kol_images val; kol_labels val] → f !! d = f' !! d) →
  pool_of cascade f s = pool_of cascade f' s'.
Proof.
  intros Hdet Hin. unfold pool_of.
  assert (Hki : f !! kip_images = f' !! kip_images)
    by (apply Hin, list_elem_of_In; simpl; tauto).
  assert (Hkl : f !! kip_labels = f' !! kip_labels)
    by (apply Hin, list_elem_of_In; simpl; tauto).
  rewrite (glob_jpg_ext f f') by done.
  rewrite (omap_ext_all (original_of f) (original_of f'))
    by (intros x; by apply original_of_ext).
  rewrite (added_deterministic f f' _ (staging f) (staging f') s s') by done.
  rewrite !(kolabit_samples_ext f f')
    by (apply Hin, list_elem_of_In; simpl; tauto).
  done.
Qed.

Lemma lookup_written_ne (f : filesystem) (s : split_name)
    (samples : list sample) (d : dir) :
  d ≠ out_images s → d ≠ out_labels s → written f s samples !! d = f !! d.
Proof. intros H1 H2. unfold written. by rewrite !lookup_insert_ne. Qed.

Lemma lookup_written_images (f : filesystem) (s : split_name)
    (samples : list sample) :
  written f s samples !! out_images s
  = Some (copy_into f out_image_name (λ sm, sm.1.1) ∅ samples).
Proof.
  unfold written. rewrite lookup_insert_ne by done. apply lookup_insert_eq.
Qed.

Lemma lookup_written_labels (f : filesystem) (s : split_name)
    (samples : list sample) :
  written f s samples !! out_labels s
  = Some (copy_into f out_label_name (λ sm, sm.1.2) ∅ samples).
Proof. unfold written. apply lookup_insert_eq. Qed.

(** The two output directories of subset [s] after a run. *)
Lemma output_of_run (val_ratio : Q) (w : world) (yamls : gmap string content) :
  fs w !! yaml_dir = Some yamls →
  ∃ w',
    augment_dataset cascade output_dir yaml_path val_ratio w = (Ok (), w') ∧
    (∀ d, is_source d = true → d ≠ aug_dir → fs w' !! d = fs w !! d) ∧
    is_Some (fs w' !! yaml_dir) ∧
    ∀ s,
      dom <$> fs w' !! out_images s =
        Some (list_to_set (out_image_name <$>
                subset s (pool_of cascade (fs w) (np_random w)) val_ratio)) ∧
      dom <$> fs w' !! out_labels s =
        Some (list_to_set (out_label_name <$>
                subset s (pool_of cascade (fs w) (np_random w)) val_ratio)).
Proof.
  intros Hyaml.
  destruct (augment_dataset_spec cascade output_dir yaml_path val_ratio w yamls Hyaml)
    as (w' & manifest & Hrun & Hfs).
  set (pool := pool_of cascade (fs w) (np_random w)) in *.
  set (f1 := collected cascade (fs w) (np_random w)) in *.
  exists w'. split; [done|].
  assert (Hpool : Forall (pool_src_ok f1) pool) by apply pool_of_ok.
  assert (Htr : Forall (pool_src_ok f1) (train_subset pool val_ratio)).
  { unfold train_subset, slice_from. by apply Forall_drop, Forall_shuffle. }
  assert (Hva : Forall (pool_src_ok (written f1 train (train_subset pool val_ratio)))
                  (val_subset pool val_ratio)).
  { unfold val_subset, slice_to. apply Forall_take, Forall_shuffle.
    eapply Forall_impl; [exact Hpool|]. intros sm. apply pool_src_ok_written. }
  rewrite Hfs. split; [|split].
  - intros d Hd Hne. rewrite lookup_delete_ne by done.
    rewrite lookup_insert_ne by (by intros <-).
    rewrite !lookup_written_ne by (by intros ->).
    unfold f1, collected. by rewrite lookup_insert_ne.
  - rewrite lookup_delete_ne by done. by rewrite lookup_insert_eq.
  - assert (Himg : ∀ f s samples,
      Forall (pool_src_ok f) samples →
      dom <$> written f s samples !! out_images s
      = Some (list_to_set (out_image_name <$> samples))).
    { intros f s samples Hok. rewrite lookup_written_images. cbn.
      rewrite dom_copy_into.
      - by rewrite dom_empty_L, (left_id_L ∅ (∪)).
      - eapply Forall_impl; [exact Hok|]. by intros sm (? & ? & _). }
    assert (Hlbl : ∀ f s samples,
      Forall (pool_src_ok f) samples →
      dom <$> written f s samples !! out_labels s
      = Some (list_to_set (out_label_name <$> samples))).
    { intros f s samples Hok. rewrite lookup_written_labels. cbn.
      rewrite dom_copy_into.
      - by rewrite dom_empty_L, (left_id_L ∅ (∪)).
      - eapply Forall_impl; [exact Hok|]. by intros sm (? & ? & _). }
    intros [|]; cbn [subset];
      rewrite !lookup_delete_ne by done; rewrite !lookup_insert_ne by done.
    + rewrite !(lookup_written_ne _ val) by done. split; [by apply Himg|by apply Hlbl].
    + split; [by apply Himg|by apply Hlbl].
Qed.

End rerun.

(** ** Running twice *)

Section twice.
Context `{cv : OpenCV} `{rng : PyRandom}.

Lemma TRANSFORMS_failure_deterministic : failure_deterministic TRANSFORMS.
Proof.
  intros tag fn img s1 s2 Hin. unfold TRANSFORMS in Hin.
  repeat (apply elem_of_cons in Hin as [Hin|Hin];
          [injection Hin as -> ->; cbn;
           try destruct (gaussian_noise img 15 s1);
           try destruct (gaussian_noise img 15 s2); done|]).
  by apply elem_of_nil in Hin.
Qed.

Lemma TRANSFORMS_tags_unambiguous : tags_unambiguous TRANSFORMS.*1 = true.
Proof. reflexivity. Qed.

Lemma size_of_dom (x y : option (gmap string content)) :
  dom <$> x = dom <$> y → size <$> x = size <$> y.
Proof.
  destruct x as [m|], y as [m'|]; try done. cbn. intros [= Hdom].
  by rewrite <- (size_dom m), <- (size_dom m'), Hdom.
Qed.

Lemma rerun_same_names (cascade : list (string * transform_fn))
    (output_dir yaml_path : string) (val_ratio : Q) (w0 : world)
    (yamls : gmap string content) :
  failure_deterministic cascade →
  fs w0 !! yaml_dir = Some yamls →
  ∃ w1,
    augment_dataset cascade output_dir yaml_path val_ratio w0 = (Ok (), w1) ∧
    (∀ s,
       dom <$> fs w1 !! out_images s =
         Some (list_to_set (out_image_name <$>
                 subset s (pool_of cascade (fs w0) (np_random w0)) val_ratio)) ∧
       dom <$> fs w1 !! out_labels s =
         Some (list_to_set (out_label_name <$>
                 subset s (pool_of cascade (fs w0) (np_random w0)) val_ratio))) ∧
    ∀ py np out, ∃ w2,
      augment_dataset cascade output_dir yaml_path val_ratio
        (World (fs w1) py np out) = (Ok (), w2) ∧
      ∀ s,
        dom <$> fs w2 !! out_images s = dom <$> fs w1 !! out_images s ∧
        dom <$> fs w2 !! out_labels s = dom <$> fs w1 !! out_labels s.
Proof.
  intros Hdet Hyaml.
  destruct (output_of_run cascade output_dir yaml_path val_ratio w0 yamls Hyaml)
    as (w1 & Hrun1 & Hsame & [yamls1 Hyaml1] & Hout1).
  exists w1. split; [done|]. split; [done|].
  intros py np out.
  destruct (output_of_run cascade output_dir yaml_path val_ratio
              (World (fs w1) py np out) yamls1 Hyaml1)
    as (w2 & Hrun2 & _ & _ & Hout2).
  exists w2. split; [done|]. intros s.
  destruct (Hout1 s) as [-> ->], (Hout2 s) as [-> ->]. cbn [fs np_random].
  rewrite (pool_of_deterministic cascade (fs w1) (fs w0) np (np_random w0)); [done..|].
  intros d Hd.
  repeat (apply elem_of_cons in Hd as [->|Hd]); [..|by apply elem_of_nil in Hd];
    by apply Hsame.
Qed.

(** C8. Provided the directory of the manifest exists, the pipeline
    returns; its output directories then hold one file per name of the
    pairs of the subset and nothing that was there before; and a second
    run from the file system the first one left, whatever the state of
    the generators, returns too and leaves each output directory with
    the same file names, hence the same number of files. *)
Theorem idempotent_output (output_dir yaml_path : string) (val_ratio : Q)
    (w0 : world) :
  dir_exists (fs w0) yaml_dir = true →
  ∃ w1,
    main output_dir yaml_path val_ratio w0 = (Ok (), w1) ∧
    (∀ s,
       dom <$> fs w1 !! out_images s =
         Some (list_to_set (out_image_name <$>
                 subset s (pool_of TRANSFORMS (fs w0) (np_random w0)) val_ratio)) ∧
       dom <$> fs w1 !! out_labels s =
         Some (list_to_set (out_label_name <$>
                 subset s (pool_of TRANSFORMS (fs w0) (np_random w0)) val_ratio))) ∧
    ∀ py np out, ∃ w2,
      main output_dir yaml_path val_ratio (World (fs w1) py np out) = (Ok (), w2) ∧
      ∀ d, d ∈ [out_images train; out_labels train; out_images val; out_labels val] →
        is_Some (fs w1 !! d) ∧
        dom <$> fs w2 !! d = dom <$> fs w1 !! d ∧
        size <$> fs w2 !! d = size <$> fs w1 !! d.
Proof.
  intros Hyaml. unfold dir_exists in Hyaml.
  apply bool_decide_eq_true in Hyaml as [yamls Hyaml].
  destruct (rerun_same_names TRANSFORMS output_dir yaml_path val_ratio w0 yamls
              TRANSFORMS_failure_deterministic Hyaml)
    as (w1 & Hrun1 & Hout1 & Hrerun).
  exists w1. split; [done|]. split; [done|].
  intros py np out. destruct (Hrerun py np out) as (w2 & Hrun2 & Hout2).
  exists w2. split; [done|]. intros d Hd.
  assert (Hdom : is_Some (fs w1 !! d) ∧ dom <$> fs w2 !! d = dom <$> fs w1 !! d).
  { repeat (apply elem_of_cons in Hd as [->|Hd]);
      [..|by apply elem_of_nil in Hd];
      match goal with
      | |- context [out_images ?s] =>
          destruct (Hout1 s) as [H1 _], (Hout2 s) as [H2 _]
      | |- context [out_labels ?s] =>
          destruct (Hout1 s) as [_ H1], (Hout2 s) as [_ H2]
      end;
      (split; [|done]);
      match type of H1 with _ <$> ?x = _ => destruct x; [done|discriminate] end. }
  destruct Hdom as [Hs Hdom]. split; [done|]. split; [done|].
  by apply size_of_dom.
Qed.

End twice.

(** ** The empty pool *)

Section empty_pool.
Context `{cv : OpenCV} `{rng : PyRandom}.


End empty_pool.



(** ** Which files are admitted *)

Section ingestion.
Context `{cv : OpenCV} `{rng : PyRandom}.
Variable cascade : list (string * transform_fn).

Lemma added_in_staging (f : filesystem) (kip_imgs : list string)
    (files : gmap string content) (s : np_state) (sm : sample) :
  sm ∈ added (augment_all cascade f kip_imgs files s) → sm.1.1.1 = aug_dir.
Proof.
  intros Hsm. pose proof (added_staged cascade f kip_imgs files s) as Hall.
  rewrite Forall_forall in Hall. by destruct (Hall sm Hsm).
Qed.

(** C9, as the code has it. The seed root and the external root are not
    read alike: a file of the seed [images/train] is admitted exactly
    when its name ends in [.jpg] and its label exists; a file of an
    external [images/train] or [images/val] is admitted exactly when its
    extension, in lower case, is [.jpg], [.jpeg] or [.png] and its label
    exists. *)
Theorem ingestion_rules (w : world) :
  ∃ n pool aug_count kolabit_count w',
    collect_samples cascade w = (Ok (n, pool, aug_count, kolabit_count), w') ∧
    (∀ x, (∃ sm, sm ∈ pool ∧ sm.1.1 = (kip_images, x)) ↔
          is_Some (read_file (fs w) (kip_images, x)) ∧
          pathlib.endswith x ".jpg" = true ∧
          is_Some (read_file (fs w) (kip_labels, pathlib.stem x +:+ ".txt"))) ∧
    (∀ s x, (∃ sm, sm ∈ pool ∧ sm.1.1 = (kol_images s, x)) ↔
            is_Some (read_file (fs w) (kol_images s, x)) ∧
            image_suffix x = true ∧
            is_Some (read_file (fs w) (kol_labels s, pathlib.stem x +:+ ".txt"))).
Proof.
  eexists _, _, _, _, _. split; [apply collect_samples_spec|].
  cbv zeta. unfold pool_of. split.
  - intros x. split.
    + intros (sm & Hsm & Hx). rewrite !elem_of_app in Hsm.
      destruct Hsm as [H|[H|[H|H]]].
      * apply elem_of_originals in H as (x' & Hx' & Hl & ->).
        cbn [fst snd] in Hx. injection Hx as ->.
        by apply elem_of_glob_jpg in Hx' as [? ?].
      * apply added_in_staging in H.
        destruct sm as [[[d i] lp] name]. cbn [fst snd] in *. congruence.
      * apply elem_of_kolabit_samples in H as (x' & _ & _ & _ & ->). done.
      * apply elem_of_kolabit_samples in H as (x' & _ & _ & _ & ->). done.
    + intros (Hx & Hjpg & Hl).
      exists ((kip_images, x), (kip_labels, pathlib.stem x +:+ ".txt"),
              "kip_" +:+ pathlib.stem x).
      split; [|reflexivity].
      rewrite elem_of_app. left. apply elem_of_originals. exists x.
      split; [by apply elem_of_glob_jpg|]. split; [done|reflexivity].
  - intros s x. split.
    + intros (sm & Hsm & Hx). rewrite !elem_of_app in Hsm.
      destruct Hsm as [H|[H|[H|H]]].
      * apply elem_of_originals in H as (x' & _ & _ & ->). done.
      * apply added_in_staging in H.
        destruct sm as [[[d i] lp] name]. cbn [fst snd] in *. congruence.
      * apply elem_of_kolabit_samples in H as (x' & ? & ? & ? & ->).
        cbn [fst snd] in Hx. by injection Hx as <- <-.
      * apply elem_of_kolabit_samples in H as (x' & ? & ? & ? & ->).
        cbn [fst snd] in Hx. by injection Hx as <- <-.
    + intros (Hx & Hsuf & Hl).
      exists ((kol_images s, x), (kol_labels s, pathlib.stem x +:+ ".txt"),
              (match s with train => "kol_" | val => "kol_v_" end)
                +:+ pathlib.stem x).
      split; [|reflexivity].
      rewrite !elem_of_app. right. right. destruct s; [left|right];
        apply elem_of_kolabit_samples; exists x; (repeat split; try done).
Qed.

End ingestion.

(** C9, the claim as stated, fails: [a.png] with its label is admitted
    from the external root and skipped under the seed root. *)
Lemma seed_png_not_admitted :
  image_suffix "a.png" = true ∧
  path_exists fs_png (kip_images, "a.png") = true ∧
  path_exists fs_png (kip_labels, "a.txt") = true ∧
  path_exists fs_png (kol_images train, "a.png") = true ∧
  path_exists fs_png (kol_labels train, "a.txt") = true ∧
  (collect_samples TRANSFORMS (demo_world fs_png)).1
  = Ok (0%nat,
        [((kol_images train, "a.png"), (kol_labels train, "a.txt"), "kol_a")],
        0%nat, 1%nat).
Proof. vm_compute. repeat split; reflexivity. Qed.

(** ** Names that collide *)

(** C5 at two inputs. [v_a.jpg] of the external train subtree and
    [a.jpg] of the external validation subtree both get the name
    [kol_v_a], and both subsets of the output then hold a file
    [kol_v_a.jpg]; the seed image [a_at15.jpg] and the variant [at15] of
    the seed image [a.jpg] both get the name [kip_a_at15] and the output
    file name [kip_a_at15.jpg]. *)
Lemma provenance_collision :
  (collect_samples TRANSFORMS (demo_world fs_kol_clash)).1
  = Ok (0%nat,
        [((kol_images train, "v_a.jpg"), (kol_labels train, "v_a.txt"), "kol_v_a");
         ((kol_images val, "a.jpg"), (kol_labels val, "a.txt"), "kol_v_a")],
        0%nat, 2%nat) ∧
  (∀ s, dom <$> fs (main "data-augmented" "train/dataset.yaml" float_0_2
                      (demo_world fs_kol_clash)).2 !! out_images s
        = Some {["kol_v_a.jpg"]}) ∧
  (∃ n pool aug_count kolabit_count,
     (collect_samples TRANSFORMS (demo_world fs_kip_clash)).1
     = Ok (n, pool, aug_count, kolabit_count) ∧
     pool !! 1%nat = Some ((kip_images, "a_at15.jpg"), (kip_labels, "a_at15.txt"),
                           "kip_a_at15") ∧
     pool !! 2%nat = Some ((aug_dir, "kip_a_at15.jpg"), (aug_dir, "kip_a_at15.txt"),
                           "kip_a_at15") ∧
     out_image_name ((kip_images, "a_at15.jpg"), (kip_labels, "a_at15.txt"), "kip_a_at15")
     = out_image_name ((aug_dir, "kip_a_at15.jpg"), (aug_dir, "kip_a_at15.txt"), "kip_a_at15")).
Proof.
  split; [by vm_compute|]. split.
  - intros []; by vm_compute.
  - eexists _, _, _, _. by vm_compute.
Qed.

(** ** Operators that raise *)

Section failures.
Context `{cv : OpenCV} `{rng : PyRandom}.
Variable cascade : list (string * transform_fn).

Lemma aug_added_warnings_length (stem : string) (outs : list (string * result image)) :
  (length (aug_added stem outs) + length (aug_warnings stem outs))%nat = length outs.
Proof.
  unfold aug_added, aug_warnings.
  induction outs as [|[suffix [a|e]] outs IH]; cbn [omap list_omap snd length];
    [done|lia..].
Qed.

Lemma length_cascade_outcomes (ops : list (string * transform_fn)) (img : image)
    (s : np_state) :
  length (cascade_outcomes ops img s).1 = length ops.
Proof.
  revert s. induction ops as [|[suffix fn] ops IH]; intros s; [done|].
  cbn [cascade_outcomes]. cbv zeta. cbn [fst length]. by rewrite IH.
Qed.

Lemma cascade_outcomes_app (l1 l2 : list (string * transform_fn)) (img : image)
    (s : np_state) :
  (cascade_outcomes (l1 ++ l2) img s).1
  = (cascade_outcomes l1 img s).1
    ++ (cascade_outcomes l2 img (cascade_outcomes l1 img s).2).1.
Proof.
  revert s. induction l1 as [|[suffix fn] l1 IH]; intros s; [done|].
  cbn [app cascade_outcomes]. cbv zeta. cbn [fst snd app]. by rewrite IH.
Qed.

Lemma aug_warnings_app (stem : string) (o1 o2 : list (string * result image)) :
  aug_warnings stem (o1 ++ o2) = aug_warnings stem o1 ++ aug_warnings stem o2.
Proof. unfold aug_warnings. apply omap_app. Qed.

Lemma aug_warnings_never (ops : list (string * transform_fn)) (stem : string)
    (img : image) (s : np_state) :
  (∀ o, o ∈ ops → never_raises o.2) →
  aug_warnings stem (cascade_outcomes ops img s).1 = [].
Proof.
  revert s. induction ops as [|[suffix fn] ops IH]; intros s Hok; [done|].
  cbn [cascade_outcomes]. cbv zeta. unfold aug_warnings. cbn [fst snd omap list_omap].
  pose proof (Hok (suffix, fn) (list_elem_of_here _ _) img s) as Hfn. cbn [snd] in Hfn.
  destruct (fn img s).1; [|done].
  apply IH. intros o Ho. apply Hok. by right.
Qed.

Lemma aug_warnings_one (pre post : list (string * transform_fn))
    (bad : string * transform_fn) (stem : string) (img : image) (s : np_state) :
  always_raises bad.2 →
  (∀ o, o ∈ pre ++ post → never_raises o.2) →
  length (aug_warnings stem (cascade_outcomes (pre ++ bad :: post) img s).1) = 1%nat.
Proof.
  intros Hbad Hok. rewrite cascade_outcomes_app, aug_warnings_app.
  rewrite aug_warnings_never; last first.
  { intros o Ho. apply Hok. apply elem_of_app. by left. }
  destruct bad as [suffix fn]. cbn [app cascade_outcomes]. cbv zeta.
  set (s1 := (cascade_outcomes pre img s).2).
  pose proof (Hbad img s1) as Hfn. cbn [snd] in Hfn.
  unfold aug_warnings. cbn [fst snd omap list_omap].
  destruct (fn img s1).1; [done|]. cbn [length]. f_equal.
  fold (aug_warnings stem (cascade_outcomes post img (fn img s1).2).1).
  rewrite aug_warnings_never; [done|].
  intros o Ho. apply Hok. apply elem_of_app. by right.
Qed.

Lemma eligible_true (f : filesystem) (x : string) :
  eligible f x = true ↔
  is_Some (read_file f (kip_labels, pathlib.stem x +:+ ".txt")) ∧
  is_Some (read_file f (kip_images, x) ≫= imread).
Proof.
  unfold eligible. rewrite andb_true_iff, !bool_decide_eq_true. done.
Qed.

(** The variants and the warnings of a run of the loop add up to one per
    operator and eligible image. *)
Lemma augment_all_total (f : filesystem) (kip_imgs : list string)
    (files : gmap string content) (s : np_state) :
  (length (added (augment_all cascade f kip_imgs files s))
   + length (aug_out (augment_all cascade f kip_imgs files s)))%nat
  = (length cascade * length (filter (λ x, Is_true (eligible f x)) kip_imgs))%nat.
Proof.
  revert files s. induction kip_imgs as [|x xs IH]; intros files s.
  - simpl. lia.
  - cbn [augment_all]. cbv zeta.
    destruct (eligible f x) eqn:Hel.
    + rewrite filter_cons_True by (by rewrite Hel).
      apply eligible_true in Hel as [[label Hl] [img Hi]]. rewrite Hl, Hi.
      cbn [added aug_out length]. rewrite !length_app.
      pose proof (aug_added_warnings_length (pathlib.stem x)
                    (cascade_outcomes cascade img s).1) as Hone.
      rewrite length_cascade_outcomes in Hone.
      specialize (IH (foldl (aug_write (pathlib.stem x) label) files
                        (cascade_outcomes cascade img s).1)
                     (cascade_outcomes cascade img s).2).
      lia.
    + rewrite filter_cons_False by (rewrite Hel; exact id).
      assert (Hskip : match read_file f (kip_labels, pathlib.stem x +:+ ".txt"),
                           read_file f (kip_images, x) ≫= imread with
                      | Some _, Some _ => False
                      | _, _ => True
                      end).
      { destruct (read_file f (kip_labels, _)) eqn:Hl; [|done].
        destruct (read_file f (kip_images, x) ≫= imread) eqn:Hi; [|done].
        assert (eligible f x = true) by (apply eligible_true; rewrite Hl, Hi; eauto).
        congruence. }
      destruct (read_file f (kip_labels, _)); [|apply IH].
      destruct (read_file f (kip_images, x) ≫= imread); [done|apply IH].
Qed.

(** With [k] warnings per image, whatever the image and the state. *)
Lemma augment_all_warnings (k : nat) (f : filesystem) (kip_imgs : list string)
    (files : gmap string content) (s : np_state) :
  (∀ stem img s, length (aug_warnings stem (cascade_outcomes cascade img s).1) = k) →
  length (aug_out (augment_all cascade f kip_imgs files s))
  = (k * length (filter (λ x, Is_true (eligible f x)) kip_imgs))%nat.
Proof.
  intros Hk. revert files s. induction kip_imgs as [|x xs IH]; intros files s.
  - simpl. lia.
  - cbn [augment_all]. cbv zeta.
    destruct (eligible f x) eqn:Hel.
    + rewrite filter_cons_True by (by rewrite Hel).
      apply eligible_true in Hel as [[label Hl] [img Hi]]. rewrite Hl, Hi.
      cbn [aug_out length]. rewrite length_app, Hk, IH. lia.
    + rewrite filter_cons_False by (rewrite Hel; exact id).
      destruct (read_file f (kip_labels, _)) eqn:Hl; [|apply IH].
      destruct (read_file f (kip_images, x) ≫= imread) eqn:Hi; [|apply IH].
      assert (eligible f x = true) by (apply eligible_true; rewrite Hl, Hi; eauto).
      congruence.
Qed.

Lemma length_originals (f : filesystem) (kip_imgs : list string) :
  length (omap (original_of f) kip_imgs)
  = length (filter (λ x, Is_true (path_exists f (kip_labels, pathlib.stem x +:+ ".txt")))
              kip_imgs).
Proof.
  induction kip_imgs as [|x xs IH]; [done|].
  cbn [omap list_omap]. unfold original_of at 1.
  destruct (path_exists f (kip_labels, pathlib.stem x +:+ ".txt")) eqn:Hex.
  - rewrite filter_cons_True by (by rewrite Hex). simpl. by rewrite IH.
  - rewrite filter_cons_False by (rewrite Hex; exact id). done.
Qed.

End failures.

Section survival.
Context `{cv : OpenCV} `{rng : PyRandom}.
Variable cascade : list (string * transform_fn).

(** C6, as the code has it. Whatever the operators raise, the collection
    returns and prints one warning per operator call that raised. Every
    seed image with a label contributes its original pair; every seed
    image with a label whose file [cv2.imread] decodes contributes one
    variant per operator call that returned, so that variants and
    warnings add up to one per operator and such image: all of them when
    no operator raises, [|cascade| - 1] per such image, with one warning
    each, when one operator always raises. A labelled seed image that
    cannot be decoded contributes its original pair only. *)
Theorem partial_failure_survival (w : world) :
  let f := fs w in
  let kip_imgs := glob_jpg f kip_images in
  let r := augment_all cascade f kip_imgs (staging f) (np_random w) in
  let n_labelled :=
    length (filter (λ x, Is_true (path_exists f (kip_labels, pathlib.stem x +:+ ".txt")))
              kip_imgs) in
  let n_eligible := length (filter (λ x, Is_true (eligible f x)) kip_imgs) in
  (∃ w' kolabit_count,
     collect_samples cascade w
     = (Ok (length kip_imgs,
            omap (original_of f) kip_imgs ++ added r
            ++ kolabit_samples f train "kol_" ++ kolabit_samples f val "kol_v_",
            length (added r), kolabit_count), w') ∧
     stdout w' = stdout w ++ collect_log cascade f (np_random w)) ∧
  length (omap (original_of f) kip_imgs) = n_labelled ∧
  (length (added r) + length (aug_out r))%nat = (length cascade * n_eligible)%nat ∧
  ((∀ o, o ∈ cascade → never_raises o.2) →
   aug_out r = [] ∧ length (added r) = (length cascade * n_eligible)%nat) ∧
  (∀ pre bad post,
     cascade = pre ++ bad :: post →
     always_raises bad.2 →
     (∀ o, o ∈ pre ++ post → never_raises o.2) →
     length (aug_out r) = n_eligible ∧
     length (added r) = ((length cascade - 1) * n_eligible)%nat).
Proof.
  intros f kip_imgs r n_labelled n_eligible.
  pose proof (augment_all_total cascade f kip_imgs (staging f) (np_random w)) as Htotal.
  fold r in Htotal. fold n_eligible in Htotal.
  split; [|split; [|split; [|split]]].
  - eexists _, _. split; [apply collect_samples_spec|reflexivity].
  - apply length_originals.
  - exact Htotal.
  - intros Hok.
    pose proof (augment_all_warnings cascade 0 f kip_imgs (staging f) (np_random w)) as Hw.
    fold r in Hw. rewrite Nat.mul_0_l in Hw.
    assert (Hnil : aug_out r = []).
    { apply length_zero_iff_nil, Hw. intros stem img s.
      by rewrite aug_warnings_never. }
    split; [done|]. rewrite Hnil in Htotal. simpl in Htotal. lia.
  - intros pre bad post -> Hbad Hok.
    pose proof (augment_all_warnings (pre ++ bad :: post) 1 f kip_imgs (staging f)
                  (np_random w)) as Hw.
    fold r in Hw. fold n_eligible in Hw. rewrite Nat.mul_1_l in Hw.
    assert (Hlen : length (aug_out r) = n_eligible).
    { apply Hw. intros stem img s. by apply aug_warnings_one. }
    split; [done|]. rewrite Hlen in Htotal.
    rewrite length_app in *. cbn [length] in *. nia.
Qed.

End survival.

(** C6, the claim as stated, fails: the seed image [d.jpg] has a label and
    no operator raises on it (no warning is printed), yet it contributes
    its original pair and none of the ten variants, because its file
    cannot be decoded. *)
Lemma undecodable_seed_no_variants :
  path_exists fs_undecodable (kip_labels, "d.txt") = true ∧
  length (TRANSFORMS (cv := demo_cv)) = 10%nat ∧
  (collect_samples TRANSFORMS (demo_world fs_undecodable)).1
  = Ok (1%nat, [((kip_images, "d.jpg"), (kip_labels, "d.txt"), "kip_d")],
        0%nat, 0%nat) ∧
  stdout (collect_samples TRANSFORMS (demo_world fs_undecodable)).2
  = ["[augment] Found 1 Kipukas images";
     "[augment] Generated 0 augmented images";
     "[augment] Found 0 kolabit images";
     "[augment] Total samples: 1"].
Proof. vm_compute. repeat split; reflexivity. Qed.

(** ** Instances of the statements *)


Lemma idempotent_output_witness :
  ∃ w1,
    main "data-augmented" "train/dataset.yaml" float_0_2 (demo_world fs_small)
    = (Ok (), w1) ∧
    (∀ s,
       dom <$> fs w1 !! out_images s =
         Some (list_to_set (out_image_name <$>
                 subset s (pool_of TRANSFORMS fs_small np_zeros) float_0_2)) ∧
       dom <$> fs w1 !! out_labels s =
         Some (list_to_set (out_label_name <$>
                 subset s (pool_of TRANSFORMS fs_small np_zeros) float_0_2))) ∧
    ∀ py np out, ∃ w2,
      main "data-augmented" "train/dataset.yaml" float_0_2 (World (fs w1) py np out)
      = (Ok (), w2) ∧
      ∀ d, d ∈ [out_images train; out_labels train; out_images val; out_labels val] →
        is_Some (fs w1 !! d) ∧
        dom <$> fs w2 !! d = dom <$> fs w1 !! d ∧
        size <$> fs w2 !! d = size <$> fs w1 !! d.
Proof.
  apply (idempotent_output "data-augmented" "train/dataset.yaml" float_0_2
           (demo_world fs_small)).
  reflexivity.
Defined.

Lemma partial_failure_survival_witness :
  let f := fs_small in
  let kip_imgs := glob_jpg f kip_images in
  let r := augment_all cascade_one_broken f kip_imgs (staging f) np_zeros in
  length (aug_out r) = length (filter (λ x, Is_true (eligible f x)) kip_imgs) ∧
  length (added r)
  = ((length cascade_one_broken - 1)
     * length (filter (λ x, Is_true (eligible f x)) kip_imgs))%nat.
Proof.
  destruct (partial_failure_survival cascade_one_broken (demo_world fs_small))
    as (_ & _ & _ & _ & Hone).
  apply (Hone [("yellow", pure_fn yellow_aware)] ("broken", broken_op) []).
  - reflexivity.
  - intros img s. reflexivity.
  - intros o Ho. apply list_elem_of_singleton in Ho as ->.
    intros img s. reflexivity.
Defined.

(** * Further properties *)

(** ** The yellow channel *)

Section yellow_facts.



(** X2. A two-dimensional grey image passes through [yellow_aware]
    unchanged but for the conversion to three channels, whereas the same
    image in three-channel form, as [cv2.imread] delivers a grey
    photograph, comes out black: max(v, v) - v = 0 at every pixel. *)
Theorem yellow_aware_grey_is_black (g : grey_image) :
  yellow_aware (Grey g) = GRAY2BGR g ∧
  yellow_aware (GRAY2BGR g) = GRAY2BGR (map (map (λ _, 0)) g).
Proof.
  split; [done|]. unfold GRAY2BGR at 1. cbn [yellow_aware]. f_equal.
  rewrite map_map. apply map_ext. intros row. rewrite map_map.
  apply map_ext. intros v. unfold yellow_pixel. lia.
Qed.

End yellow_facts.

(** ** Gaussian noise *)

Section noise_facts.

Lemma py_int_inject_Z (x : Q) (p : Z) : (x == inject_Z p)%Q → py_int x = p.
Proof.
  destruct x as [a d]. unfold Qeq, py_int. cbn. intros H.
  rewrite Z.mul_1_r in H. subst a. apply Z.quot_mul. lia.
Qed.

Lemma astype_uint8_range (x : Q) : 0 ≤ astype_uint8 x ≤ 255.
Proof. unfold astype_uint8. pose proof (Z.mod_pos_bound (py_int x) 256). lia. Qed.

Lemma np_clip_inside (x : Q) (p : Z) :
  (x == inject_Z p)%Q → 0 ≤ p ≤ 255 → (np_clip x 0 255 == inject_Z p)%Q.
Proof.
  intros Hx Hp. unfold np_clip.
  assert (H0 : (0 <= x)%Q).
  { rewrite Hx. change 0%Q with (inject_Z 0). rewrite <- Zle_Qle. lia. }
  assert (H1 : (x <= 255)%Q).
  { rewrite Hx. change 255%Q with (inject_Z 255). rewrite <- Zle_Qle. lia. }
  rewrite (Q.max_l x 0 H0). rewrite (Q.min_l x 255 H1). exact Hx.
Qed.

Lemma sum_list_with_length {A} (g : list (list A)) :
  sum_list_with length g = length (concat g).
Proof. induction g as [|row g IH]; [done|]. cbn. rewrite length_app. lia. Qed.

(** The generator after a loop: each element [x] has taken [cost x]
    deviates. *)
Lemma map_draw_state {A B} (f : A → np_state → B * np_state) (cost : A → nat)
    (l : list A) (s : np_state) :
  (∀ x s i, (f x s).2 i = s (cost x + i)%nat) →
  ∀ i, (map_draw f l s).2 i = s (sum_list_with cost l + i)%nat.
Proof.
  intros Hf. revert s. induction l as [|x l IH]; intros s i; [done|].
  cbn [map_draw sum_list_with]. specialize (Hf x s).
  destruct (f x s) as [y s1]. specialize (IH s1).
  destruct (map_draw f l s1) as [ys s2]. cbn [snd] in *.
  rewrite IH, Hf. f_equal. lia.
Qed.



(** A loop whose steps change nothing as long as the deviates they take
    are scaled to zero. *)
Lemma map_draw_quiet {A} (f : A → np_state → A * np_state) (cost : A → nat)
    (ok : A → Prop) (sigma : Q) (l : list A) (s : np_state) :
  (∀ x s i, (f x s).2 i = s (cost x + i)%nat) →
  (∀ x s, ok x → quiet sigma (cost x) s → (f x s).1 = x) →
  Forall ok l → quiet sigma (sum_list_with cost l) s →
  (map_draw f l s).1 = l.
Proof.
  intros Hst Hid Hok. revert s. induction Hok as [|x l Hx Hok IH]; intros s Hq; [done|].
  cbn [map_draw sum_list_with] in *.
  pose proof (Hst x s) as Hs1. pose proof (Hid x s Hx) as Hy.
  destruct (f x s) as [y s1]. cbn [fst snd] in *.
  specialize (IH s1). destruct (map_draw f l s1) as [ys s2]. cbn [fst] in *.
  rewrite Hy, IH; [done| |].
  - intros i Hi. rewrite Hs1. apply Hq. lia.
  - intros i Hi. apply Hq. lia.
Qed.

Lemma noisy_value_state (sigma : Q) (p : Z) (s : np_state) (i : nat) :
  (noisy_value sigma p s).2 i = s (1 + i)%nat.
Proof. done. Qed.

Lemma noisy_bgr_state (sigma : Q) (px : Z * Z * Z) (s : np_state) (i : nat) :
  (noisy_bgr sigma px s).2 i = s (3 + i)%nat.
Proof. by destruct px as [[b g] r]. Qed.

Lemma noisy_value_quiet (sigma : Q) (p : Z) (s : np_state) :
  0 ≤ p ≤ 255 → quiet sigma 1 s → (noisy_value sigma p s).1 = p.
Proof.
  intros Hp Hq. unfold noisy_value, legacy_gauss. cbn [fst].
  unfold astype_uint8. rewrite (py_int_inject_Z _ p).
  - apply Z.mod_small. lia.
  - apply np_clip_inside; [|done]. rewrite (Hq 0%nat) by lia. ring.
Qed.

Lemma noisy_bgr_quiet (sigma : Q) (px : Z * Z * Z) (s : np_state) :
  (0 ≤ px.1.1 ≤ 255 ∧ 0 ≤ px.1.2 ≤ 255 ∧ 0 ≤ px.2 ≤ 255) →
  quiet sigma 3 s → (noisy_bgr sigma px s).1 = px.
Proof.
  destruct px as [[b g] r]. cbn [fst snd]. intros (Hb & Hg & Hr) Hq.
  unfold noisy_bgr.
  pose proof (noisy_value_quiet sigma b s Hb) as H1.
  destruct (noisy_value sigma b s) as [b' s1] eqn:E1.
  assert (Hs1 : ∀ i, s1 i = s (1 + i)%nat).
  { intros i. by rewrite <- (noisy_value_state sigma b s i), E1. }
  pose proof (noisy_value_quiet sigma g s1 Hg) as H2.
  destruct (noisy_value sigma g s1) as [g' s2] eqn:E2.
  assert (Hs2 : ∀ i, s2 i = s (2 + i)%nat).
  { intros i. transitivity (s1 (1 + i)%nat); [|apply Hs1].
    by rewrite <- (noisy_value_state sigma g s1 i), E2. }
  pose proof (noisy_value_quiet sigma r s2 Hr) as H3.
  destruct (noisy_value sigma r s2) as [r' s3] eqn:E3.
  cbn [fst] in *. rewrite H1, H2, H3; [done|..].
  - intros i Hi. rewrite Hs2. apply Hq. lia.
  - intros i Hi. rewrite Hs1. apply Hq. lia.
  - intros i Hi. apply Hq. lia.
Qed.




End noise_facts.

Section noise_more.

Lemma sum_list_with_const {A} (n : nat) (l : list A) :
  sum_list_with (λ _, n) l = (n * length l)%nat.
Proof. induction l as [|x l IH]; cbn; lia. Qed.

Lemma sum_list_with_scaled {A} (n : nat) (g : list (list A)) :
  sum_list_with (λ row, n * length row)%nat g = (n * length (concat g))%nat.
Proof. induction g as [|row g IH]; cbn; [lia|]. rewrite length_app. lia. Qed.

Lemma noisy_row_state (sigma : Q) (row : list Z) (s : np_state) (i : nat) :
  (map_draw (noisy_value sigma) row s).2 i = s (length row + i)%nat.
Proof.
  rewrite (map_draw_state _ (λ _, 1%nat)) by apply noisy_value_state.
  rewrite sum_list_with_const. f_equal. lia.
Qed.

Lemma noisy_bgr_row_state (sigma : Q) (row : list (Z * Z * Z)) (s : np_state) (i : nat) :
  (map_draw (noisy_bgr sigma) row s).2 i = s (3 * length row + i)%nat.
Proof.
  rewrite (map_draw_state _ (λ _, 3%nat)) by apply noisy_bgr_state.
  by rewrite sum_list_with_const.
Qed.

Lemma gaussian_noise_state (img : image) (sigma : Q) (s : np_state) (i : nat) :
  (gaussian_noise img sigma s).2 i = s (np_size img + i)%nat.
Proof.
  destruct img as [g|c]; cbn [gaussian_noise np_size].
  - pose proof (map_draw_state (map_draw (noisy_value sigma)) length g s
                  (noisy_row_state sigma) i) as H.
    destruct (map_draw (map_draw (noisy_value sigma)) g s) as [g' s'].
    cbn [snd] in *. by rewrite H, sum_list_with_length.
  - pose proof (map_draw_state (map_draw (noisy_bgr sigma))
                  (λ row, 3 * length row)%nat c s (noisy_bgr_row_state sigma) i) as H.
    destruct (map_draw (map_draw (noisy_bgr sigma)) c s) as [c' s'].
    cbn [snd] in *. by rewrite H, sum_list_with_scaled.
Qed.

(** X5. When the deviates it draws contribute nothing (the scale is 0,
    or the deviates are 0), [gaussian_noise] returns an 8-bit image
    unchanged: clipping and the cast back to [uint8] alter nothing. *)
Theorem gaussian_noise_quiet (img : image) (sigma : Q) (s : np_state) :
  uint8_image img → quiet sigma (np_size img) s →
  (gaussian_noise img sigma s).1 = img.
Proof.
  destruct img as [g|c]; cbn [gaussian_noise np_size uint8_image]; intros Hu Hq.
  - pose proof (map_draw_quiet (map_draw (noisy_value sigma)) length
                  (Forall (λ p, 0 ≤ p ≤ 255)) sigma g s (noisy_row_state sigma)) as H.
    destruct (map_draw (map_draw (noisy_value sigma)) g s) as [g' s'].
    cbn [fst] in *. rewrite H; [done| | |].
    + intros row s0 Hrow Hq0.
      apply (map_draw_quiet _ (λ _, 1%nat) (λ p, 0 ≤ p ≤ 255) sigma);
        [apply noisy_value_state|by intros; apply noisy_value_quiet|done|].
      by rewrite sum_list_with_const, Nat.mul_1_l.
    + apply Forall_forall. intros row Hrow. apply Forall_forall. intros p Hp.
      by apply (Hu row p).
    + by rewrite sum_list_with_length.
  - pose proof (map_draw_quiet (map_draw (noisy_bgr sigma)) (λ row, 3 * length row)%nat
                  (Forall (λ px, 0 ≤ px.1.1 ≤ 255 ∧ 0 ≤ px.1.2 ≤ 255 ∧ 0 ≤ px.2 ≤ 255))
                  sigma c s (noisy_bgr_row_state sigma)) as H.
    destruct (map_draw (map_draw (noisy_bgr sigma)) c s) as [c' s'].
    cbn [fst] in *. rewrite H; [done| | |].
    + intros row s0 Hrow Hq0.
      apply (map_draw_quiet _ (λ _, 3%nat)
               (λ px, 0 ≤ px.1.1 ≤ 255 ∧ 0 ≤ px.1.2 ≤ 255 ∧ 0 ≤ px.2 ≤ 255) sigma);
        [apply noisy_bgr_state|by intros; apply noisy_bgr_quiet|done|].
      by rewrite sum_list_with_const.
    + apply Forall_forall. intros row Hrow. apply Forall_forall. intros px Hpx.
      by apply (Hu row px).
    + by rewrite sum_list_with_scaled.
Qed.

End noise_more.

Lemma gaussian_noise_quiet_witness :
  (gaussian_noise (BGR [[(10, 200, 255); (0, 1, 2)]]) 0 np_ones).1
  = BGR [[(10, 200, 255); (0, 1, 2)]].
Proof.
  apply gaussian_noise_quiet.
  - intros row px Hrow Hpx. apply list_elem_of_singleton in Hrow as ->.
    apply elem_of_cons in Hpx as [->|Hpx]; [cbn; lia|].
    apply list_elem_of_singleton in Hpx as ->. cbn; lia.
  - intros i _. reflexivity.
Defined.

Section cascade_draws.
Context `{cv : OpenCV}.

Lemma cascade_state (img : image) (s : np_state) (i : nat) :
  (cascade_outcomes TRANSFORMS img s).2 i = s (np_size img + i)%nat.
Proof.
  unfold TRANSFORMS. cbn [cascade_outcomes pure_fn fst snd].
  pose proof (gaussian_noise_state img 15 s i) as H.
  destruct (gaussian_noise img 15 s) as [noisy s']. exact H.
Qed.

(** X4. [gaussian_noise] takes exactly [img.size] deviates from NumPy's
    generator, one per value of the array; and so does the whole table
    [TRANSFORMS] on one image: no other operator draws. *)
Theorem gaussian_noise_draws (img : image) (sigma : Q) (s : np_state) :
  (∀ i, (gaussian_noise img sigma s).2 i = s (np_size img + i)%nat) ∧
  (∀ i, (cascade_outcomes TRANSFORMS img s).2 i = s (np_size img + i)%nat).
Proof. split; intros i; [apply gaussian_noise_state|apply cascade_state]. Qed.

End cascade_draws.

(** ** The contrast stretch *)

Section stretch_more.
Context `{cv : OpenCV}.

Lemma foldl_min_le_init (p : Z) (ps : list Z) : foldl Z.min p ps ≤ p.
Proof.
  revert p. induction ps as [|q ps IH]; intros p; cbn [foldl]; [lia|].
  etrans; [apply IH|]. lia.
Qed.

Lemma foldl_max_ge_init (p : Z) (ps : list Z) : p ≤ foldl Z.max p ps.
Proof.
  revert p. induction ps as [|q ps IH]; intros p; cbn [foldl]; [lia|].
  etrans; [|apply IH]. lia.
Qed.

Lemma foldl_min_lower (p : Z) (ps : list Z) (x : Z) :
  x ∈ p :: ps → foldl Z.min p ps ≤ x.
Proof.
  revert p. induction ps as [|q ps IH]; intros p Hx; cbn [foldl].
  - apply list_elem_of_singleton in Hx as ->. lia.
  - apply elem_of_cons in Hx as [->|Hx].
    + etrans; [apply foldl_min_le_init|]. lia.
    + apply elem_of_cons in Hx as [->|Hx].
      * etrans; [apply foldl_min_le_init|]. lia.
      * apply IH. by apply list_elem_of_further.
Qed.

Lemma foldl_min_elem (p : Z) (ps : list Z) : foldl Z.min p ps ∈ p :: ps.
Proof.
  revert p. induction ps as [|q ps IH]; intros p; cbn [foldl].
  - apply list_elem_of_here.
  - specialize (IH (Z.min p q)). apply elem_of_cons in IH as [->|IH].
    + destruct (Z.min_spec p q) as [[_ ->]|[_ ->]];
        [apply list_elem_of_here|apply list_elem_of_further, list_elem_of_here].
    + by do 2 apply list_elem_of_further.
Qed.

Lemma foldl_max_upper (p : Z) (ps : list Z) (x : Z) :
  x ∈ p :: ps → x ≤ foldl Z.max p ps.
Proof.
  revert p. induction ps as [|q ps IH]; intros p Hx; cbn [foldl].
  - apply list_elem_of_singleton in Hx as ->. lia.
  - apply elem_of_cons in Hx as [->|Hx].
    + etrans; [|apply foldl_max_ge_init]. lia.
    + apply elem_of_cons in Hx as [->|Hx].
      * etrans; [|apply foldl_max_ge_init]. lia.
      * apply IH. by apply list_elem_of_further.
Qed.

Lemma foldl_max_elem (p : Z) (ps : list Z) : foldl Z.max p ps ∈ p :: ps.
Proof.
  revert p. induction ps as [|q ps IH]; intros p; cbn [foldl].
  - apply list_elem_of_here.
  - specialize (IH (Z.max p q)). apply elem_of_cons in IH as [->|IH].
    + destruct (Z.max_spec p q) as [[_ ->]|[_ ->]];
        [apply list_elem_of_further, list_elem_of_here|apply list_elem_of_here].
    + by do 2 apply list_elem_of_further.
Qed.

(** The two ends of the stretch. *)
Lemma stretch_pixel_lo (lo hi : Z) :
  0 ≤ lo → lo < hi → hi ≤ 255 → stretch_pixel lo hi lo = Some 0.
Proof.
  intros H0 Hlt H255. unfold stretch_pixel, true_divide.
  rewrite (Z.mod_small (hi - lo) 256) by lia.
  destruct (Z.eqb_spec (hi - lo) 0) as [|Hne]; [lia|]. cbn [mbind option_bind].
  unfold astype_uint8. rewrite (py_int_inject_Z _ 0); [done|].
  assert (Hd : ¬ (inject_Z (hi - lo) == 0)%Q).
  { change 0%Q with (inject_Z 0). rewrite inject_Z_injective. lia. }
  assert (Hd' : ¬ (inject_Z hi + - inject_Z lo == 0)%Q).
  { intros H. apply Hd. unfold Z.sub. by rewrite inject_Z_plus, inject_Z_opp. }
  change (inject_Z 0) with 0%Q. field; first [exact Hd|exact Hd'].
Qed.

Lemma stretch_pixel_hi (lo hi : Z) :
  0 ≤ lo → lo < hi → hi ≤ 255 → stretch_pixel lo hi hi = Some 255.
Proof.
  intros H0 Hlt H255. unfold stretch_pixel, true_divide.
  rewrite (Z.mod_small (hi - lo) 256) by lia.
  destruct (Z.eqb_spec (hi - lo) 0) as [|Hne]; [lia|]. cbn [mbind option_bind].
  unfold astype_uint8. rewrite (py_int_inject_Z _ 255); [done|].
  assert (Hd : ¬ (inject_Z (hi - lo) == 0)%Q).
  { change 0%Q with (inject_Z 0). rewrite inject_Z_injective. lia. }
  assert (E : (inject_Z (hi - lo) == inject_Z hi - inject_Z lo)%Q).
  { unfold Z.sub, Qminus. by rewrite inject_Z_plus, inject_Z_opp. }
  rewrite E. apply (Qeq_trans _ 255%Q); [|reflexivity].
  field. rewrite <- E. exact Hd.
Qed.

Lemma stretch_pixel_range (lo hi p q : Z) :
  stretch_pixel lo hi p = Some q → 0 ≤ q ≤ 255.
Proof.
  unfold stretch_pixel. destruct (true_divide _ _) as [x|]; [|done].
  intros [= <-]. apply astype_uint8_range.
Qed.

Lemma Forall2_concat {A B} (R : A → B → Prop) (g : list (list A)) (h : list (list B)) :
  Forall2 (Forall2 R) g h → Forall2 R (concat g) (concat h).
Proof. induction 1; cbn; [constructor|by apply Forall2_app]. Qed.

(** X6. On an 8-bit grey image whose minimum and maximum differ, the
    stretch of lines 85 and 86 divides by a non-zero value at every
    element, keeps the shape, and spreads the intensities over the full
    range: the stretched array is 8-bit with minimum 0 and maximum
    255. *)
Theorem contrast_stretch_full_range (grey : grey_image) (lo hi : Z) :
  uint8_grey grey → np_min grey = Ok lo → np_max grey = Ok hi → hi ≠ lo →
  ∃ stretched,
    contrast_stretch lo hi grey = Some stretched ∧
    length <$> stretched = length <$> grey ∧
    uint8_grey stretched ∧
    np_min stretched = Ok 0 ∧ np_max stretched = Ok 255.
Proof.
  intros Hu Hmin Hmax Hne. unfold np_min, np_max in Hmin, Hmax.
  pose proof (uint8_grey_concat _ Hu) as Hall.
  destruct (concat grey) as [|p ps] eqn:Hcat; [done|].
  injection Hmin as <-. injection Hmax as <-.
  set (lo := foldl Z.min p ps) in *. set (hi := foldl Z.max p ps) in *.
  assert (Hlo_in : lo ∈ p :: ps) by apply foldl_min_elem.
  assert (Hhi_in : hi ∈ p :: ps) by apply foldl_max_elem.
  assert (Hlohi : lo ≤ hi) by (by apply foldl_max_upper).
  assert (Hlo : 0 ≤ lo ≤ 255) by (rewrite Forall_forall in Hall; by apply Hall).
  assert (Hhi : 0 ≤ hi ≤ 255) by (rewrite Forall_forall in Hall; by apply Hall).
  unfold contrast_stretch.
  destruct (Z.eqb_spec hi lo) as [|_]; [done|].
  destruct (mapM_is_Some_2 (mapM (stretch_pixel lo hi)) grey) as [stretched Hst].
  { apply Forall_forall. intros row _. apply mapM_is_Some_2.
    apply Forall_forall. intros q _. by apply stretch_pixel_is_Some. }
  exists stretched. split; [done|].
  apply mapM_Some in Hst.
  assert (Hrows : Forall2 (Forall2 (λ x y, stretch_pixel lo hi x = Some y)) grey stretched).
  { eapply Forall2_impl; [exact Hst|]. intros row row' H. by apply mapM_Some. }
  clear Hst. pose proof (Forall2_concat _ _ _ Hrows) as Hflat. rewrite Hcat in Hflat.
  assert (Hrange : Forall (λ q, 0 ≤ q ≤ 255) (concat stretched)).
  { eapply Forall2_Forall_r; [exact Hflat|]. apply Forall_true.
    intros x y. apply stretch_pixel_range. }
  split; [|split; [|split]].
  - clear -Hrows. induction Hrows as [|row row' g g' Hrow _ IH]; [done|].
    cbn. by rewrite IH, (Forall2_length _ _ _ Hrow).
  - intros row' q Hrow' Hq. rewrite Forall_forall in Hrange. apply Hrange.
    apply list_elem_of_In, in_concat. exists row'. by rewrite <- !list_elem_of_In.
  - unfold np_min. destruct (concat stretched) as [|q qs] eqn:Hcat'.
    { by apply Forall2_length in Hflat. }
    f_equal. apply Z.le_antisymm.
    + apply list_elem_of_lookup_1 in Hlo_in as [i Hi].
      destruct (Forall2_lookup_l _ _ _ _ _ Hflat Hi) as (y & Hy & Hpx).
      rewrite stretch_pixel_lo in Hpx by lia. injection Hpx as <-.
      apply foldl_min_lower. by eapply list_elem_of_lookup_2.
    + apply (foldl_min_bounds 0 255); by inversion Hrange.
  - unfold np_max. destruct (concat stretched) as [|q qs] eqn:Hcat'.
    { by apply Forall2_length in Hflat. }
    f_equal. apply Z.le_antisymm.
    + apply (foldl_max_bounds 0 255); by inversion Hrange.
    + apply list_elem_of_lookup_1 in Hhi_in as [i Hi].
      destruct (Forall2_lookup_l _ _ _ _ _ Hflat Hi) as (y & Hy & Hpx).
      rewrite stretch_pixel_hi in Hpx by lia. injection Hpx as <-.
      apply foldl_max_upper. by eapply list_elem_of_lookup_2.
Qed.

(** The stretch of an 8-bit array is an 8-bit array of the same shape. *)
Lemma contrast_stretch_shape (grey : grey_image) (lo hi : Z) :
  uint8_grey grey → 0 ≤ lo ≤ 255 → 0 ≤ hi ≤ 255 →
  ∃ stretched,
    contrast_stretch lo hi grey = Some stretched ∧
    uint8_grey stretched ∧
    length <$> stretched = length <$> grey.
Proof.
  intros Hu Hlo Hhi. unfold contrast_stretch.
  destruct (Z.eqb_spec hi lo) as [Heq|Hne]; [by exists grey|].
  destruct (mapM_is_Some_2 (mapM (stretch_pixel lo hi)) grey) as [stretched Hst].
  { apply Forall_forall. intros row _. apply mapM_is_Some_2.
    apply Forall_forall. intros q _. by apply stretch_pixel_is_Some. }
  exists stretched. split; [done|].
  apply mapM_Some in Hst.
  assert (Hrows : Forall2 (Forall2 (λ x y, stretch_pixel lo hi x = Some y)) grey stretched).
  { eapply Forall2_impl; [exact Hst|]. intros row row' H. by apply mapM_Some. }
  clear Hst. split.
  - intros row' q Hrow' Hq.
    apply list_elem_of_lookup_1 in Hrow' as [i Hi].
    destruct (Forall2_lookup_r _ _ _ _ _ Hrows Hi) as (row & _ & Hrow).
    apply list_elem_of_lookup_1 in Hq as [j Hj].
    destruct (Forall2_lookup_r _ _ _ _ _ Hrow Hj) as (p & _ & Hp).
    by eapply stretch_pixel_range.
  - clear -Hrows. induction Hrows as [|row row' g g' Hrow _ IH]; [done|].
    cbn. by rewrite IH, (Forall2_length _ _ _ Hrow).
Qed.

(** X7. On an image with at least one element, the grey conversion of
    which is 8-bit and has an element too, [contrast_stretch_adaptive]
    returns: neither reduction raises and no element is divided by zero.
    What it hands to [cv2.adaptiveThreshold] is an 8-bit array of the
    shape of the grey image, whether the stretch is applied or
    skipped. *)
Theorem contrast_stretch_adaptive_outcome (img : image) :
  np_size img ≠ 0%nat →
  uint8_grey (to_grey img) → concat (to_grey img) ≠ [] →
  ∃ stretched,
    contrast_stretch_adaptive img
    = Ok (GRAY2BGR (adaptiveThreshold stretched 255 31 8)) ∧
    uint8_grey stretched ∧
    length <$> stretched = length <$> to_grey img.
Proof.
  intros _ Hu Hne. unfold contrast_stretch_adaptive, np_min, np_max.
  pose proof (uint8_grey_concat _ Hu) as Hall.
  destruct (concat (to_grey img)) as [|p ps]; [done|].
  apply Forall_cons in Hall as [Hp Hps].
  pose proof (foldl_min_bounds 0 255 p ps Hp Hps) as Hlo.
  pose proof (foldl_max_bounds 0 255 p ps Hp Hps) as Hhi.
  destruct (contrast_stretch_shape (to_grey img) _ _ Hu Hlo Hhi)
    as (stretched & -> & Hu' & Hshape).
  by exists stretched.
Qed.

End stretch_more.

Lemma contrast_stretch_full_range_witness :
  ∃ stretched,
    contrast_stretch 10 40 [[10; 20]; [30; 40]] = Some stretched ∧
    length <$> stretched = length <$> [[10; 20]; [30; 40]] ∧
    uint8_grey stretched ∧
    np_min stretched = Ok 0 ∧ np_max stretched = Ok 255.
Proof.
  apply contrast_stretch_full_range; [|reflexivity|reflexivity|lia].
  intros row p Hrow Hp.
  repeat (apply elem_of_cons in Hrow as [->|Hrow];
          [repeat (apply elem_of_cons in Hp as [->|Hp]; [lia|]); by apply elem_of_nil in Hp|]).
  by apply elem_of_nil in Hrow.
Defined.

Lemma contrast_stretch_adaptive_outcome_witness :
  ∃ stretched,
    contrast_stretch_adaptive (cv := demo_cv) (BGR [[(10, 20, 30); (40, 50, 60)]])
    = Ok (GRAY2BGR (adaptiveThreshold stretched 255 31 8)) ∧
    uint8_grey stretched ∧
    length <$> stretched
    = length <$> to_grey (cv := demo_cv) (BGR [[(10, 20, 30); (40, 50, 60)]]).
Proof.
  apply (contrast_stretch_adaptive_outcome (cv := demo_cv));
    [discriminate| |discriminate].
  intros row p Hrow Hp. change (row ∈ [[20; 50]]) in Hrow.
  apply list_elem_of_singleton in Hrow as ->.
  repeat (apply elem_of_cons in Hp as [->|Hp]; [lia|]). by apply elem_of_nil in Hp.
Defined.

(** ** The shuffle and the split *)

Section shuffle_perm.
Context `{rng : PyRandom} {A : Type}.

Lemma lookup_swap (i j : nat) (x : list A) (k : nat) :
  (i < length x)%nat → (j < length x)%nat →
  swap i j x !! k
  = x !! (if decide (k = i) then j else if decide (k = j) then i else k).
Proof.
  intros Hi Hj. unfold swap.
  destruct (lookup_lt_is_Some_2 x j Hj) as [xj Hxj].
  destruct (lookup_lt_is_Some_2 x i Hi) as [xi Hxi].
  rewrite Hxj, Hxi.
  destruct (decide (k = j)) as [->|Hkj].
  - rewrite list_lookup_insert_eq by by rewrite length_insert.
    destruct (decide (j = i)) as [->|]; congruence.
  - rewrite list_lookup_insert_ne by done.
    destruct (decide (k = i)) as [->|Hki].
    + by rewrite list_lookup_insert_eq.
    + by rewrite list_lookup_insert_ne.
Qed.

Lemma swap_Permutation (i j : nat) (x : list A) : swap i j x ≡ₚ x.
Proof.
  destruct (decide (i < length x)%nat) as [Hi|Hi]; last first.
  { unfold swap. rewrite (lookup_ge_None_2 x i) by lia. by destruct (x !! j). }
  destruct (decide (j < length x)%nat) as [Hj|Hj]; last first.
  { unfold swap. by rewrite (lookup_ge_None_2 x j) by lia. }
  apply Permutation_inj. split; [apply length_swap|].
  exists (λ k, if decide (k = i) then j else if decide (k = j) then i else k).
  split; [|intros k; by apply lookup_swap].
  intros a b. repeat case_decide; congruence.
Qed.

Lemma shuffle_from_Permutation (i : nat) (x : list A) (s : py_state) :
  (shuffle_from i x s).1 ≡ₚ x.
Proof.
  revert x s. induction i as [|i IH]; intros x s; [done|].
  cbn [shuffle_from]. destruct (py_randbelow _ s) as [j s'].
  rewrite IH. apply swap_Permutation.
Qed.

Lemma shuffle_Permutation (x : list A) (s : py_state) : (shuffle x s).1 ≡ₚ x.
Proof. apply shuffle_from_Permutation. Qed.

End shuffle_perm.

Section split_more.
Context `{rng : PyRandom}.

Lemma slice_to_from {A} (k : Z) (l : list A) : slice_to k l ++ slice_from k l = l.
Proof. apply take_drop. Qed.






End split_more.



(** ** Names *)

Lemma lower_ascii_dot (c : ascii) :
  Ascii.eqb (pathlib.lower_ascii c) "."%char = Ascii.eqb c "."%char.
Proof. by destruct c as [[] [] [] [] [] [] [] []]. Qed.

Lemma length_lower (s : string) : String.length (pathlib.lower s) = String.length s.
Proof. induction s as [|c s IH]; [done|]. cbn. by rewrite IH. Qed.

Lemma rfind_dot_lower (s : string) :
  pathlib.rfind_dot (pathlib.lower s) = pathlib.rfind_dot s.
Proof.
  induction s as [|c s IH]; [done|].
  cbn [pathlib.lower pathlib.rfind_dot]. by rewrite IH, lower_ascii_dot.
Qed.

Lemma substring_lower (n m : nat) (s : string) :
  String.substring n m (pathlib.lower s) = pathlib.lower (String.substring n m s).
Proof.
  revert n m. induction s as [|c s IH]; intros n m.
  - by destruct n, m.
  - destruct n as [|n]; [destruct m as [|m]; [done|]|].
    + cbn [pathlib.lower String.substring]. by rewrite IH.
    + cbn [pathlib.lower String.substring]. apply IH.
Qed.

Lemma suffix_lower (s : string) :
  pathlib.suffix (pathlib.lower s) = pathlib.lower (pathlib.suffix s).
Proof.
  unfold pathlib.suffix. rewrite rfind_dot_lower, length_lower.
  destruct (pathlib.rfind_dot s) as [i|]; [|done].
  destruct (_ && _); [|done]. apply substring_lower.
Qed.

(** X11. The extension test on external images ignores the case of
    ASCII letters: two names that are equal up to case are both accepted
    or both rejected. *)
Theorem image_suffix_case_insensitive (n1 n2 : string) :
  pathlib.lower n1 = pathlib.lower n2 → image_suffix n1 = image_suffix n2.
Proof.
  intros Heq. unfold image_suffix. by rewrite <- !suffix_lower, Heq.
Qed.

Lemma image_suffix_case_insensitive_witness :
  image_suffix "Photo.JPG" = image_suffix "photo.jpg".
Proof. apply image_suffix_case_insensitive. reflexivity. Defined.

Lemma substring_split (name : string) (i : nat) :
  (i ≤ String.length name)%nat →
  String.substring 0 i name +:+ String.substring i (String.length name - i) name = name.
Proof.
  revert i. induction name as [|c name IH]; intros i Hi.
  - cbn in Hi. by replace i with 0%nat by lia.
  - destruct i as [|i].
    + rewrite Nat.sub_0_r. change (String.substring 0 0 (String c name)) with EmptyString.
      rewrite string_app_nil_l. apply substring_all.
    + cbn [String.substring String.length Nat.sub]. rewrite string_app_cons.
      f_equal. apply IH. cbn in Hi. lia.
Qed.

Lemma stem_suffix (name : string) :
  pathlib.stem name +:+ pathlib.suffix name = name.
Proof.
  unfold pathlib.stem, pathlib.suffix.
  destruct (pathlib.rfind_dot name) as [i|]; [|apply string_app_nil_r].
  destruct ((0 <? i)%nat && (i <? String.length name - 1)%nat) eqn:Hc;
    [|apply string_app_nil_r].
  apply andb_true_iff in Hc as [_ Hi%Nat.ltb_lt]. apply substring_split. lia.
Qed.

Lemma rfind_dot_jpg (l : string) :
  pathlib.rfind_dot (l +:+ ".jpg") = Some (String.length l).
Proof.
  induction l as [|c l IH]; [done|].
  rewrite string_app_cons. cbn [pathlib.rfind_dot String.length]. by rewrite IH.
Qed.

Lemma suffix_jpg (l : string) :
  l ≠ EmptyString → pathlib.suffix (l +:+ ".jpg") = ".jpg".
Proof.
  intros Hl. unfold pathlib.suffix. rewrite rfind_dot_jpg, string_length_app.
  assert (0 < String.length l)%nat by (destruct l; [done|cbn; lia]).
  replace ((0 <? String.length l)%nat) with true by (symmetry; by apply Nat.ltb_lt).
  replace ((String.length l <? String.length l + String.length ".jpg" - 1)%nat) with true
    by (symmetry; apply Nat.ltb_lt; cbn; lia).
  cbn [andb]. replace (String.length l + String.length ".jpg" - String.length l)%nat
    with (String.length ".jpg") by lia.
  apply substring_app_r.
Qed.

Lemma string_app_assoc (a b c : string) : (a +:+ b) +:+ c = a +:+ b +:+ c.
Proof.
  induction a as [|x a IH]; [by rewrite !string_app_nil_l|].
  rewrite !string_app_cons. by rewrite IH.
Qed.

Lemma string_app_inv_head (p s t : string) : p +:+ s = p +:+ t → s = t.
Proof.
  induction p as [|c p IH]; [by rewrite !string_app_nil_l|].
  rewrite !string_app_cons. intros [= H]. by apply IH.
Qed.

Lemma NoDup_fmap_omap {A B C} (g : A → option B) (h : B → C) (k : A → C)
    (l : list A) :
  Inj (=) (=) k → (∀ x y, g x = Some y → h y = k x) →
  NoDup l → NoDup (h <$> omap g l).
Proof.
  intros Hinj Hk. induction 1 as [|x l Hx Hl IH]; [constructor|].
  cbn [omap list_omap]. destruct (g x) as [y|] eqn:Hy; [|done].
  cbn [fmap list_fmap]. constructor; [|done].
  intros (y' & Hyy' & (x' & Hx' & Hgx')%list_elem_of_omap)%list_elem_of_fmap.
  rewrite (Hk _ _ Hy), (Hk _ _ Hgx') in Hyy'. apply Hinj in Hyy'. by subst.
Qed.

Lemma NoDup_sorted (names : list string) : NoDup names → NoDup (sorted names).
Proof. intros H. unfold sorted. by rewrite merge_sort_Permutation. Qed.

Lemma NoDup_listdir (f : filesystem) (d : dir) (names : list string) :
  listdir f d = Some names → NoDup names.
Proof.
  unfold listdir. destruct (f !! d) as [files|]; [|done].
  intros [= <-]. apply NoDup_fst_map_to_list.
Qed.

Lemma NoDup_glob_jpg (f : filesystem) (d : dir) : NoDup (glob_jpg f d).
Proof.
  unfold glob_jpg. destruct (listdir f d) as [names|] eqn:Hl; [|constructor].
  apply NoDup_sorted, NoDup_filter. by eapply NoDup_listdir.
Qed.

Section names.
Context `{cv : OpenCV}.
Variable cascade : list (string * transform_fn).

Lemma added_are_variants (f : filesystem) (kip_imgs : list string)
    (files : gmap string content) (s : np_state) (sm : sample) :
  sm ∈ added (augment_all cascade f kip_imgs files s) →
  ∃ stem suffix, sm = aug_sample stem suffix.
Proof.
  intros Hsm.
  pose proof (augment_all_inv cascade f (λ _ sm, ∃ stem suffix, sm = aug_sample stem suffix))
    as Hinv.
  cbn beta in Hinv.
  specialize (Hinv (λ _ _ _ _ _ _ _ H, H) (λ _ stem _ suffix _ _ _, ex_intro _ stem (ex_intro _ suffix eq_refl))
                kip_imgs files s [] (Forall_nil_2 _)).
  rewrite Forall_forall in Hinv. by apply Hinv.
Qed.

(** X12. The name an image of the pool is written under is its
    provenance prefix followed by its own file name, the extension as it
    is spelled: [kip_] for a seed original, [kol_] or [kol_v_] for an
    external image; a variant keeps the name it was staged under. *)
Theorem output_name_keeps_file_name (f : filesystem) (s : np_state) (sm : sample) :
  sm ∈ pool_of cascade f s →
  out_image_name sm = prefix_of sm.1.1.1 +:+ sm.1.1.2 ∧
  sm.1.1.1 ∈ [kip_images; aug_dir; kol_images train; kol_images val].
Proof.
  unfold pool_of. rewrite !elem_of_app.
  intros [Hsm|[Hsm|[Hsm|Hsm]]].
  - apply elem_of_originals in Hsm as (x & _ & _ & ->).
    unfold out_image_name. cbn [fst snd prefix_of]. split; [|by repeat first [apply list_elem_of_here|apply list_elem_of_further]].
    by rewrite string_app_assoc, stem_suffix.
  - apply added_are_variants in Hsm as (stem & suffix & ->).
    unfold out_image_name, aug_sample. cbn [fst snd prefix_of]. split; [|by repeat first [apply list_elem_of_here|apply list_elem_of_further]].
    rewrite string_app_nil_l. f_equal. apply suffix_jpg. by unfold aug_name.
  - apply elem_of_kolabit_samples in Hsm as (x & _ & _ & _ & ->).
    unfold out_image_name. cbn [fst snd prefix_of]. split; [|by repeat first [apply list_elem_of_here|apply list_elem_of_further]].
    by rewrite string_app_assoc, stem_suffix.
  - apply elem_of_kolabit_samples in Hsm as (x & _ & _ & _ & ->).
    unfold out_image_name. cbn [fst snd prefix_of]. split; [|by repeat first [apply list_elem_of_here|apply list_elem_of_further]].
    by rewrite string_app_assoc, stem_suffix.
Qed.

(** X13. Within one source the output image names are pairwise
    distinct: no two seed originals, and no two external images of the
    same subtree, are written under the same name. *)
Theorem source_names_distinct (f : filesystem) :
  NoDup (out_image_name <$> omap (original_of f) (glob_jpg f kip_images)) ∧
  ∀ s prefix, NoDup (out_image_name <$> kolabit_samples f s prefix).
Proof.
  split.
  - apply (NoDup_fmap_omap _ _ (λ x, "kip_" +:+ x)); [..|apply NoDup_glob_jpg].
    + intros x y. apply string_app_inv_head.
    + intros x sm. unfold original_of. case_match; [|done]. intros [= <-].
      unfold out_image_name. cbn [fst snd].
      by rewrite string_app_assoc, stem_suffix.
  - intros s prefix. unfold kolabit_samples.
    destruct (listdir f (kol_images s)) as [names|] eqn:Hl; [|constructor].
    apply (NoDup_fmap_omap _ _ (λ x, prefix +:+ x));
      [..|by eapply NoDup_sorted, NoDup_listdir].
    + intros x y. apply string_app_inv_head.
    + intros x sm. unfold kolabit_of. do 2 (case_match; [|done]). intros [= <-].
      unfold out_image_name. cbn [fst snd].
      by rewrite string_app_assoc, stem_suffix.
Qed.

End names.

Lemma output_name_keeps_file_name_witness :
  out_image_name ((kol_images val, "m.jpeg"), (kol_labels val, "m.txt"), "kol_v_m")
  = prefix_of (kol_images val) +:+ "m.jpeg" ∧
  kol_images val ∈ [kip_images; aug_dir; kol_images train; kol_images val].
Proof.
  apply (output_name_keeps_file_name (cv := demo_cv) TRANSFORMS fs_small np_zeros
           ((kol_images val, "m.jpeg"), (kol_labels val, "m.txt"), "kol_v_m")).
  vm_compute. do 12 right. left.
Defined.

(** ** A run as a whole *)

Section run_more.
Context `{cv : OpenCV} `{rng : PyRandom}.
Variable cascade : list (string * transform_fn).
Variables (output_dir yaml_path : string).

(** A run that finds the directory of the manifest, in full. *)
Lemma augment_dataset_run (val_ratio : Q) (w : world) (yamls : gmap string content) :
  fs w !! yaml_dir = Some yamls →
  let f := fs w in
  let kip_imgs := glob_jpg f kip_images in
  let r := augment_all cascade f kip_imgs (staging f) (np_random w) in
  let pool := pool_of cascade f (np_random w) in
  let f1 := collected cascade f (np_random w) in
  ∃ out,
    augment_dataset cascade output_dir yaml_path val_ratio w =
      (Ok (),
       World
         (delete aug_dir
            (<[yaml_dir :=
                 <["dataset.yaml" :=
                     yaml_content output_dir (length kip_imgs) (length (added r))
                       (length (kolabit_samples f train "kol_")
                        + length (kolabit_samples f val "kol_v_"))
                       (length pool) (length (train_subset pool val_ratio))
                       (length (val_subset pool val_ratio))]> yamls]>
               (written (written f1 train (train_subset pool val_ratio))
                  val (val_subset pool val_ratio))))
         (shuffle pool (py_seed 42)).2 (aug_np r) out).
Proof.
  intros Hyaml f kip_imgs r pool f1.
  pose proof (collect_samples_spec cascade w) as Hcollect.
  unfold augment_dataset. rewrite (bind_Ok _ _ _ _ _ Hcollect).
  edestruct (write_dataset_spec output_dir yaml_path) as [out' Hwrite]; last first.
  { rewrite Hwrite. eexists. reflexivity. }
  - cbn [fs]. by rewrite lookup_insert_ne.
  - cbn [fs]. apply pool_of_ok.
Qed.

Lemma yaml_dir_exists (f : filesystem) :
  dir_exists f yaml_dir = true → ∃ yamls, f !! yaml_dir = Some yamls.
Proof. unfold dir_exists. intros H%bool_decide_eq_true. exact H. Qed.

(** X14. A run that finds the directory of the manifest returns; it
    leaves the six input directories as they were, removes the staging
    directory with whatever it held, and in the directory of the manifest
    touches no file but [dataset.yaml]. *)
Theorem run_keeps_inputs (val_ratio : Q) (w : world) :
  dir_exists (fs w) yaml_dir = true →
  ∃ w',
    augment_dataset cascade output_dir yaml_path val_ratio w = (Ok (), w') ∧
    (∀ d, d ∈ [kip_images; kip_labels; kol_images train; kol_labels train;
               kol_images val; kol_labels val] → fs w' !! d = fs w !! d) ∧
    fs w' !! aug_dir = None ∧
    (∀ k, k ≠ "dataset.yaml" →
       read_file (fs w') (yaml_dir, k) = read_file (fs w) (yaml_dir, k)).
Proof.
  intros [yamls Hyaml]%yaml_dir_exists.
  destruct (augment_dataset_run val_ratio w yamls Hyaml) as [out Hrun].
  eexists. split; [exact Hrun|]. cbn [fs]. split; [|split].
  - intros d Hd. rewrite lookup_delete_ne; last first.
    { intros <-. repeat (apply elem_of_cons in Hd as [Hd|Hd]; [done|]).
      by apply elem_of_nil in Hd. }
    rewrite lookup_insert_ne; last first.
    { intros <-. repeat (apply elem_of_cons in Hd as [Hd|Hd]; [done|]).
      by apply elem_of_nil in Hd. }
    rewrite !lookup_written_ne; try (intros ->;
      repeat (apply elem_of_cons in Hd as [Hd|Hd]; [done|]); by apply elem_of_nil in Hd).
    unfold collected. rewrite lookup_insert_ne; [done|].
    intros <-. repeat (apply elem_of_cons in Hd as [Hd|Hd]; [done|]).
    by apply elem_of_nil in Hd.
  - apply lookup_delete_eq.
  - intros k Hk. unfold read_file. cbn [fst snd].
    rewrite lookup_delete_ne by done. rewrite lookup_insert_eq, Hyaml. cbn.
    by rewrite lookup_insert_ne.
Qed.

(** X15. The state of Python's [random] generator before a run has no
    influence: two runs from the same files and the same NumPy state that
    differ only in it write the same file system, and both leave the
    generator in the state that follows seed 42 and the shuffle of the
    pool. *)
Theorem run_ignores_random_state (val_ratio : Q) (f : filesystem) (np : np_state)
    (out : list string) (py1 py2 : py_state) :
  dir_exists f yaml_dir = true →
  ∃ w1 w2,
    augment_dataset cascade output_dir yaml_path val_ratio (World f py1 np out)
    = (Ok (), w1) ∧
    augment_dataset cascade output_dir yaml_path val_ratio (World f py2 np out)
    = (Ok (), w2) ∧
    fs w1 = fs w2 ∧
    py_random w1 = py_random w2 ∧
    py_random w1 = (shuffle (pool_of cascade f np) (py_seed 42)).2.
Proof.
  intros [yamls Hyaml]%yaml_dir_exists.
  destruct (augment_dataset_run val_ratio (World f py1 np out) yamls Hyaml) as [o1 H1].
  destruct (augment_dataset_run val_ratio (World f py2 np out) yamls Hyaml) as [o2 H2].
  cbn [fs np_random] in H1, H2. eexists _, _.
  split; [exact H1|]. split; [exact H2|]. done.
Qed.

Lemma length_originals_warnings (f : filesystem) (kip_imgs : list string) :
  (length (omap (original_of f) kip_imgs)
   + length (omap (original_warning f) kip_imgs))%nat = length kip_imgs.
Proof.
  induction kip_imgs as [|x l IH]; [done|].
  cbn [omap list_omap]. unfold original_of at 1, original_warning at 1.
  destruct (path_exists f _); cbn [length]; lia.
Qed.

Lemma length_subsets (pool : list sample) (val_ratio : Q) :
  (length (train_subset pool val_ratio) + length (val_subset pool val_ratio))%nat
  = length pool.
Proof.
  unfold train_subset, val_subset, slice_from, slice_to. cbv zeta.
  rewrite length_drop, length_take, length_shuffle. lia.
Qed.

(** X16. The manifest a run writes carries the number of seed images
    found, of variants, of external pairs, the size of the pool and the
    sizes of the two subsets. The subset sizes add up to the size of the
    pool; the first three figures add up to the size of the pool plus the
    number of seed images skipped for a missing label, which the first
    figure includes. *)
Theorem manifest_counts (val_ratio : Q) (w : world) :
  dir_exists (fs w) yaml_dir = true →
  ∃ w' kip aug kol total ntrain nval,
    augment_dataset cascade output_dir yaml_path val_ratio w = (Ok (), w') ∧
    read_file (fs w') (yaml_dir, "dataset.yaml")
    = Some (yaml_content output_dir kip aug kol total ntrain nval) ∧
    kip = length (glob_jpg (fs w) kip_images) ∧
    total = length (pool_of cascade (fs w) (np_random w)) ∧
    (ntrain + nval = total)%nat ∧
    (kip + aug + kol
     = total + length (omap (original_warning (fs w)) (glob_jpg (fs w) kip_images)))%nat.
Proof.
  intros [yamls Hyaml]%yaml_dir_exists.
  destruct (augment_dataset_run val_ratio w yamls Hyaml) as [out Hrun].
  eexists _, _, _, _, _, _, _. split; [exact Hrun|]. cbn [fs]. split; [|split; [|split; [|split]]].
  - unfold read_file. cbn [fst snd]. rewrite lookup_delete_ne by done.
    rewrite lookup_insert_eq. cbn. by rewrite lookup_insert_eq.
  - reflexivity.
  - reflexivity.
  - apply length_subsets.
  - unfold pool_of. rewrite !length_app.
    pose proof (length_originals_warnings (fs w) (glob_jpg (fs w) kip_images)). lia.
Qed.

End run_more.

Section run_failure.
Context `{cv : OpenCV} `{rng : PyRandom}.
Variable cascade : list (string * transform_fn).
Variables (output_dir yaml_path : string).

(** Steps 4 to 6 when the directory of the manifest does not exist:
    [write_text] raises after both subsets were written. *)
Lemma write_dataset_no_dir (n_kip_imgs : nat) (all_samples : list sample)
    (aug_count kolabit_count : nat) (val_ratio : Q) (w : world) :
  Forall (pool_src_ok (fs w)) all_samples →
  fs w !! yaml_dir = None →
  let shuffled := (shuffle all_samples (py_seed 42)).1 in
  let val_count := val_count_of (length shuffled) val_ratio in
  let train_samples := slice_from val_count shuffled in
  let val_samples := slice_to val_count shuffled in
  ∃ out,
    write_dataset output_dir yaml_path n_kip_imgs all_samples aug_count
        kolabit_count val_ratio w =
      (Raise (Exception "FileNotFoundError" "No such file or directory"),
       World (written (written (fs w) train train_samples) val val_samples)
         (shuffle all_samples (py_seed 42)).2 (np_random w) out).
Proof.
  intros Hok Hyaml shuffled val_count train_samples val_samples.
  assert (Hsh : Forall (pool_src_ok (fs w)) shuffled) by by apply Forall_shuffle.
  assert (Htr : Forall (pool_src_ok (fs w)) train_samples) by by apply Forall_drop.
  assert (Hva : Forall (pool_src_ok (fs w)) val_samples) by by apply Forall_take.
  unfold write_dataset.
  rewrite (bind_Ok _ _ _ _ _ (shuffle_and_split_eq _ _ _)).
  fold shuffled. cbv zeta. fold val_count. fold train_samples. fold val_samples.
  unfold mbind at 1, M_bind at 1, print at 1.
  cbn [fs py_random np_random stdout].
  eexists.
  erewrite bind_Ok; last first.
  { rewrite for_loop_cons. cbv beta iota.
    erewrite bind_Ok; last first.
    { apply write_split_spec. cbn [fs].
      eapply Forall_impl; [exact Htr|]. intros sm. apply pool_src_ok_source_ok. }
    rewrite for_loop_cons. cbv beta iota.
    erewrite bind_Ok; last first.
    { apply write_split_spec. cbn [with_fs fs].
      eapply Forall_impl; [exact Hva|]. intros sm Hsm.
      apply pool_src_ok_source_ok. by apply pool_src_ok_written. }
    reflexivity. }
  cbn [with_fs fs py_random np_random stdout].
  fold (written (fs w) train train_samples).
  fold (written (written (fs w) train train_samples) val val_samples).
  assert (Hy : written (written (fs w) train train_samples) val val_samples
               !! yaml_dir = None).
  { unfold written. by rewrite !lookup_insert_ne by done. }
  erewrite bind_Raise; last first.
  { unfold write_text, write_file, with_fs.
    cbn [fs py_random np_random stdout fst snd]. rewrite Hy. reflexivity. }
  reflexivity.
Qed.

Lemma dom_written (f : filesystem) (s : split_name) (samples : list sample) :
  Forall (pool_src_ok f) samples →
  dom <$> written f s samples !! out_images s
  = Some (list_to_set (out_image_name <$> samples)) ∧
  dom <$> written f s samples !! out_labels s
  = Some (list_to_set (out_label_name <$> samples)).
Proof.
  intros Hok. rewrite lookup_written_images, lookup_written_labels. cbn.
  rewrite !dom_copy_into.
  - by rewrite dom_empty_L, !(left_id_L ∅ (∪)).
  - eapply Forall_impl; [exact Hok|]. by intros sm (? & ? & _).
  - eapply Forall_impl; [exact Hok|]. by intros sm (? & ? & _).
Qed.

Lemma dom_written_both (f : filesystem) (pool : list sample) (val_ratio : Q)
    (s : split_name) :
  Forall (pool_src_ok f) pool →
  let f2 := written (written f train (train_subset pool val_ratio))
              val (val_subset pool val_ratio) in
  dom <$> f2 !! out_images s
  = Some (list_to_set (out_image_name <$> subset s pool val_ratio)) ∧
  dom <$> f2 !! out_labels s
  = Some (list_to_set (out_label_name <$> subset s pool val_ratio)).
Proof.
  intros Hpool f2.
  assert (Htr : Forall (pool_src_ok f) (train_subset pool val_ratio)).
  { unfold train_subset, slice_from. by apply Forall_drop, Forall_shuffle. }
  assert (Hva : Forall (pool_src_ok (written f train (train_subset pool val_ratio)))
                  (val_subset pool val_ratio)).
  { unfold val_subset, slice_to. apply Forall_take, Forall_shuffle.
    eapply Forall_impl; [exact Hpool|]. intros sm. apply pool_src_ok_written. }
  destruct s; cbn [subset]; unfold f2.
  - rewrite !(lookup_written_ne _ val) by done. by apply dom_written.
  - by apply dom_written.
Qed.

(** X17. When the directory of the manifest does not exist the run
    raises [FileNotFoundError], after both subsets have been written to
    the output directories and with the staging directory left in
    place. *)
Theorem run_without_manifest_dir (val_ratio : Q) (w : world) :
  dir_exists (fs w) yaml_dir = false →
  let f := fs w in
  let pool := pool_of cascade f (np_random w) in
  ∃ e w',
    augment_dataset cascade output_dir yaml_path val_ratio w = (Raise e, w') ∧
    exn_type e = "FileNotFoundError" ∧
    (∀ s,
       dom <$> fs w' !! out_images s
       = Some (list_to_set (out_image_name <$> subset s pool val_ratio)) ∧
       dom <$> fs w' !! out_labels s
       = Some (list_to_set (out_label_name <$> subset s pool val_ratio))) ∧
    fs w' !! aug_dir
    = Some (aug_files (augment_all cascade f (glob_jpg f kip_images) (staging f)
                         (np_random w))) ∧
    fs w' !! yaml_dir = None.
Proof.
  intros Hno f pool.
  assert (Hyaml : f !! yaml_dir = None).
  { unfold dir_exists in Hno. apply bool_decide_eq_false in Hno.
    by apply eq_None_not_Some. }
  pose proof (collect_samples_spec cascade w) as Hcollect.
  unfold augment_dataset. rewrite (bind_Ok _ _ _ _ _ Hcollect).
  edestruct write_dataset_no_dir as [out' Hwrite]; last first.
  { rewrite Hwrite. eexists _, _. split; [reflexivity|]. split; [reflexivity|].
    cbn [fs np_random]. split; [|split].
    - intros s. apply (dom_written_both (collected cascade f (np_random w))).
      apply pool_of_ok.
    - rewrite !lookup_written_ne by done. apply lookup_insert_eq.
    - rewrite !lookup_written_ne by done. by rewrite lookup_insert_ne. }
  - cbn [fs]. by rewrite lookup_insert_ne.
  - cbn [fs]. apply pool_of_ok.
Qed.

End run_failure.

(** ** What the output directories hold *)

Lemma copy_into_cons (f : filesystem) (target : sample → string)
    (source : sample → path) (m : gmap string content) (sm : sample)
    (samples : list sample) (c : content) :
  read_file f (source sm) = Some c →
  copy_into f target source m (sm :: samples)
  = copy_into f target source (<[target sm := c]> m) samples.
Proof. intros Hc. unfold copy_into. cbn [foldl]. by rewrite Hc. Qed.

Lemma lookup_copy_into_other (f : filesystem) (target : sample → string)
    (source : sample → path) (m : gmap string content) (samples : list sample)
    (k : string) :
  k ∉ target <$> samples → copy_into f target source m samples !! k = m !! k.
Proof.
  revert m. induction samples as [|sm samples IH]; intros m Hk; [done|].
  apply not_elem_of_cons in Hk as [Hne Hk].
  unfold copy_into. cbn [foldl]. fold (copy_into f target source).
  destruct (read_file f (source sm)) as [c|].
  - unfold copy_into in IH. rewrite IH by done. by rewrite lookup_insert_ne.
  - unfold copy_into in IH. by rewrite IH.
Qed.

(** Under pairwise distinct target names every pair's file holds the
    content of its own source. *)
Lemma lookup_copy_into (f : filesystem) (target : sample → string)
    (source : sample → path) (m : gmap string content) (samples : list sample)
    (sm : sample) :
  NoDup (target <$> samples) →
  Forall (λ sm, is_Some (read_file f (source sm))) samples →
  sm ∈ samples →
  copy_into f target source m samples !! target sm = read_file f (source sm).
Proof.
  intros Hnd Hok. revert m Hnd.
  induction Hok as [|x samples [c Hc] Hok IH]; intros m Hnd Hsm.
  { by apply elem_of_nil in Hsm. }
  cbn [fmap list_fmap] in Hnd. apply NoDup_cons in Hnd as [Hx Hnd].
  rewrite (copy_into_cons _ _ _ _ _ _ _ Hc).
  apply elem_of_cons in Hsm as [->|Hsm].
  - rewrite lookup_copy_into_other by done. by rewrite lookup_insert_eq.
  - by apply IH.
Qed.

Lemma copy_into_ext (f f' : filesystem) (target : sample → string)
    (source : sample → path) (m : gmap string content) (samples : list sample) :
  Forall (λ sm, read_file f (source sm) = read_file f' (source sm)) samples →
  copy_into f target source m samples = copy_into f' target source m samples.
Proof.
  intros H. revert m. induction H as [|sm samples Hsm _ IH]; intros m; [done|].
  unfold copy_into in *. cbn [foldl]. rewrite Hsm. apply IH.
Qed.

Lemma size_list_to_set_le (l : list string) :
  (size (list_to_set (C := gset string) l) ≤ length l)%nat ∧
  (size (list_to_set (C := gset string) l) = length l ↔ NoDup l).
Proof.
  induction l as [|x l [IHle IHeq]]; cbn [list_to_set length].
  - rewrite size_empty. split; [lia|]. split; [constructor|done].
  - destruct (decide (x ∈ l)) as [Hin|Hnin].
    + assert (Heq : ({[x]} ∪ list_to_set l : gset string) = list_to_set l).
      { apply subseteq_union_1_L, singleton_subseteq_l. by apply elem_of_list_to_set. }
      rewrite Heq. split; [lia|]. split; [lia|].
      intros [Hx _]%NoDup_cons. done.
    + rewrite size_union by (apply disjoint_singleton_l; by rewrite elem_of_list_to_set).
      rewrite size_singleton. split; [lia|]. rewrite NoDup_cons. split.
      * intros H. split; [done|]. apply IHeq. lia.
      * intros [_ H%IHeq]. lia.
Qed.

Section output_content.
Context `{cv : OpenCV} `{rng : PyRandom}.
Variable cascade : list (string * transform_fn).
Variables (output_dir yaml_path : string).

Lemma elem_of_subset (s : split_name) (pool : list sample) (val_ratio : Q)
    (sm : sample) :
  sm ∈ subset s pool val_ratio → sm ∈ pool.
Proof.
  intros Hsm. rewrite <- (shuffle_Permutation pool (py_seed 42)).
  destruct s; cbn [subset] in Hsm; unfold train_subset, val_subset, slice_from, slice_to in Hsm.
  - by eapply subseteq_drop.
  - by eapply subseteq_take.
Qed.

Lemma pool_dirs (f : filesystem) (s : np_state) (sm : sample) :
  sm ∈ pool_of cascade f s →
  (sm.1.1.1 = aug_dir ↔ sm.1.2.1 = aug_dir).
Proof.
  unfold pool_of. rewrite !elem_of_app.
  intros [Hsm|[Hsm|[Hsm|Hsm]]].
  - by apply elem_of_originals in Hsm as (x & _ & _ & ->).
  - by apply added_are_variants in Hsm as (stem & suffix & ->).
  - by apply elem_of_kolabit_samples in Hsm as (x & _ & _ & _ & ->).
  - by apply elem_of_kolabit_samples in Hsm as (x & _ & _ & _ & ->).
Qed.

(** The files of subset [s] after a run, read through the file system
    the collection left. *)
Lemma read_output (f : filesystem) (pool : list sample) (val_ratio : Q)
    (s : split_name) (sm : sample) :
  Forall (pool_src_ok f) pool →
  sm ∈ subset s pool val_ratio →
  let f2 := written (written f train (train_subset pool val_ratio))
              val (val_subset pool val_ratio) in
  (NoDup (out_image_name <$> subset s pool val_ratio) →
   read_file f2 (out_images s, out_image_name sm) = read_file f sm.1.1) ∧
  (NoDup (out_label_name <$> subset s pool val_ratio) →
   read_file f2 (out_labels s, out_label_name sm) = read_file f sm.1.2).
Proof.
  intros Hpool Hsm f2.
  assert (Htr : Forall (pool_src_ok f) (train_subset pool val_ratio)).
  { unfold train_subset, slice_from. by apply Forall_drop, Forall_shuffle. }
  assert (Hva : Forall (pool_src_ok f) (val_subset pool val_ratio)).
  { unfold val_subset, slice_to. by apply Forall_take, Forall_shuffle. }
  set (f1 := written f train (train_subset pool val_ratio)) in *.
  assert (Hext1 : copy_into f1 out_image_name (λ sm, sm.1.1) ∅ (val_subset pool val_ratio)
                  = copy_into f out_image_name (λ sm, sm.1.1) ∅ (val_subset pool val_ratio)).
  { apply copy_into_ext. eapply Forall_impl; [exact Hva|].
    intros x (_ & _ & Hd & _). unfold f1, written.
    rewrite !read_file_insert_ne; [done|intros Heq; rewrite Heq in Hd; done..]. }
  assert (Hext2 : copy_into f1 out_label_name (λ sm, sm.1.2) ∅ (val_subset pool val_ratio)
                  = copy_into f out_label_name (λ sm, sm.1.2) ∅ (val_subset pool val_ratio)).
  { apply copy_into_ext. eapply Forall_impl; [exact Hva|].
    intros x (_ & _ & _ & Hd). unfold f1, written.
    rewrite !read_file_insert_ne; [done|intros Heq; rewrite Heq in Hd; done..]. }
  unfold read_file at 1 3. cbn [fst snd]. destruct s; cbn [subset] in *; unfold f2.
  - rewrite !(lookup_written_ne _ val) by done. unfold f1.
    rewrite lookup_written_images, lookup_written_labels. cbn [mbind option_bind].
    split; intros Hnd.
    + apply (lookup_copy_into f out_image_name (λ sm, sm.1.1)); [done| |done].
      eapply Forall_impl; [exact Htr|]. by intros x (? & _).
    + apply (lookup_copy_into f out_label_name (λ sm, sm.1.2)); [done| |done].
      eapply Forall_impl; [exact Htr|]. by intros x (_ & ? & _).
  - rewrite lookup_written_images, lookup_written_labels. cbn [mbind option_bind].
    rewrite Hext1, Hext2. split; intros Hnd.
    + apply (lookup_copy_into f out_image_name (λ sm, sm.1.1)); [done| |done].
      eapply Forall_impl; [exact Hva|]. by intros x (? & _).
    + apply (lookup_copy_into f out_label_name (λ sm, sm.1.2)); [done| |done].
      eapply Forall_impl; [exact Hva|]. by intros x (_ & ? & _).
Qed.

(** X18. When the names in a subset are pairwise distinct, each of its
    pairs that was read from an input directory is found in the output
    under its name with the content of the input files: image and label
    are byte copies. *)
Theorem output_holds_copies (val_ratio : Q) (w : world) (s : split_name) :
  dir_exists (fs w) yaml_dir = true →
  let pool := pool_of cascade (fs w) (np_random w) in
  NoDup (out_image_name <$> subset s pool val_ratio) →
  NoDup (out_label_name <$> subset s pool val_ratio) →
  ∃ w',
    augment_dataset cascade output_dir yaml_path val_ratio w = (Ok (), w') ∧
    ∀ sm, sm ∈ subset s pool val_ratio → sm.1.1.1 ≠ aug_dir →
      is_Some (read_file (fs w) sm.1.1) ∧
      read_file (fs w') (out_images s, out_image_name sm) = read_file (fs w) sm.1.1 ∧
      read_file (fs w') (out_labels s, out_label_name sm) = read_file (fs w) sm.1.2.
Proof.
  intros [yamls Hyaml]%yaml_dir_exists pool Hni Hnl.
  destruct (augment_dataset_run cascade output_dir yaml_path val_ratio w yamls Hyaml)
    as [out Hrun].
  eexists. split; [exact Hrun|]. cbn [fs]. intros sm Hsm Hdir.
  pose proof (pool_of_ok cascade (fs w) (np_random w)) as Hpool. fold pool in Hpool.
  destruct (read_output _ pool val_ratio s sm Hpool Hsm) as [Hi Hl].
  assert (Hin : sm ∈ pool) by by eapply elem_of_subset.
  assert (Hldir : sm.1.2.1 ≠ aug_dir).
  { intros H. apply Hdir. by eapply pool_dirs. }
  rewrite Forall_forall in Hpool. destruct (Hpool sm Hin) as (Hread & _).
  assert (Hsrc1 : read_file (collected cascade (fs w) (np_random w)) sm.1.1
                  = read_file (fs w) sm.1.1).
  { unfold collected. by rewrite read_file_insert_ne. }
  assert (Hsrc2 : read_file (collected cascade (fs w) (np_random w)) sm.1.2
                  = read_file (fs w) sm.1.2).
  { unfold collected. by rewrite read_file_insert_ne. }
  split; [exact (eq_ind _ is_Some Hread _ Hsrc1)|]. split.
  - etrans; [|exact Hsrc1]. etrans; [|exact (Hi Hni)].
    unfold read_file. cbn [fst snd].
    by rewrite !lookup_delete_ne, !lookup_insert_ne by done.
  - etrans; [|exact Hsrc2]. etrans; [|exact (Hl Hnl)].
    unfold read_file. cbn [fst snd].
    by rewrite !lookup_delete_ne, !lookup_insert_ne by done.
Qed.

(** X19. When the label names in a subset are pairwise distinct and
    the tags are unambiguous, the label written to the output for a
    variant is the label of the seed image the variant was made from. *)
Theorem variant_label_in_output (val_ratio : Q) (w : world) (s : split_name) :
  dir_exists (fs w) yaml_dir = true →
  tags_unambiguous cascade.*1 = true →
  let pool := pool_of cascade (fs w) (np_random w) in
  NoDup (out_label_name <$> subset s pool val_ratio) →
  ∃ w',
    augment_dataset cascade output_dir yaml_path val_ratio w = (Ok (), w') ∧
    ∀ sm, sm ∈ subset s pool val_ratio → sm.1.1.1 = aug_dir →
      ∃ stem suffix label,
        sm = aug_sample stem suffix ∧ suffix ∈ cascade.*1 ∧
        read_file (fs w) (kip_labels, stem +:+ ".txt") = Some label ∧
        read_file (fs w') (out_labels s, aug_name stem suffix +:+ ".txt") = Some label.
Proof.
  intros [yamls Hyaml]%yaml_dir_exists Htags pool Hnl.
  destruct (augment_dataset_run cascade output_dir yaml_path val_ratio w yamls Hyaml)
    as [out Hrun].
  eexists. split; [exact Hrun|]. cbn [fs]. intros sm Hsm Hdir.
  pose proof (pool_of_ok cascade (fs w) (np_random w)) as Hpool. fold pool in Hpool.
  destruct (read_output _ pool val_ratio s sm Hpool Hsm) as [_ Hl].
  assert (Hin : sm ∈ pool) by by eapply elem_of_subset.
  pose proof (pool_of_staged cascade (fs w) (np_random w) sm Hin Hdir) as Hadded.
  pose proof (added_label_kept cascade (fs w) (glob_jpg (fs w) kip_images)
                (staging (fs w)) (np_random w) Htags) as Hkept.
  rewrite Forall_forall in Hkept.
  destruct (Hkept sm Hadded) as (stem & suffix & label & -> & Hsuf & Hlabel & Hfile).
  exists stem, suffix, label. split; [done|]. split; [done|]. split; [done|].
  specialize (Hl Hnl). unfold out_label_name, aug_sample in Hl. cbn [fst snd] in Hl.
  transitivity (read_file (collected cascade (fs w) (np_random w))
                  (aug_dir, aug_name stem suffix +:+ ".txt")).
  - rewrite <- Hl. unfold read_file. cbn [fst snd].
    by rewrite !lookup_delete_ne, !lookup_insert_ne by done.
  - unfold collected, read_file. cbn [fst snd]. by rewrite lookup_insert_eq.
Qed.

(** X20. An output directory never holds more files than its subset
    has pairs, and holds exactly as many if and only if the names of the
    subset are pairwise distinct: the counts a run prints and writes to
    the manifest are those of the pairs, not of the files. *)
Theorem output_file_count (val_ratio : Q) (w : world) (s : split_name) :
  dir_exists (fs w) yaml_dir = true →
  let pool := pool_of cascade (fs w) (np_random w) in
  ∃ w' images labels,
    augment_dataset cascade output_dir yaml_path val_ratio w = (Ok (), w') ∧
    fs w' !! out_images s = Some images ∧
    fs w' !! out_labels s = Some labels ∧
    (size images ≤ length (subset s pool val_ratio))%nat ∧
    (size labels ≤ length (subset s pool val_ratio))%nat ∧
    (size images = length (subset s pool val_ratio)
     ↔ NoDup (out_image_name <$> subset s pool val_ratio)) ∧
    (size labels = length (subset s pool val_ratio)
     ↔ NoDup (out_label_name <$> subset s pool val_ratio)).
Proof.
  intros [yamls Hyaml]%yaml_dir_exists pool.
  destruct (augment_dataset_run cascade output_dir yaml_path val_ratio w yamls Hyaml)
    as [out Hrun].
  pose proof (pool_of_ok cascade (fs w) (np_random w)) as Hpool. fold pool in Hpool.
  destruct (dom_written_both _ pool val_ratio s Hpool) as [Hi Hl].
  cbv zeta in Hi, Hl.
  destruct (written _ val _ !! out_images s) as [images|] eqn:Himg; [|done].
  destruct (written _ val _ !! out_labels s) as [labels|] eqn:Hlbl; [|done].
  cbn in Hi, Hl. injection Hi as Hi. injection Hl as Hl.
  eexists _, images, labels. split; [exact Hrun|]. cbn [fs].
  rewrite !lookup_delete_ne, !lookup_insert_ne by done.
  split; [done|]. split; [done|].
  rewrite <- !size_dom, Hi, Hl.
  destruct (size_list_to_set_le (out_image_name <$> subset s pool val_ratio)) as [H1 H2].
  destruct (size_list_to_set_le (out_label_name <$> subset s pool val_ratio)) as [H3 H4].
  rewrite length_fmap in *. done.
Qed.

End output_content.

Section leakage.
Context `{cv : OpenCV} `{rng : PyRandom}.
Variable cascade : list (string * transform_fn).
Variables (output_dir yaml_path : string).

Lemma is_Some_read_file (f : filesystem) (d : dir) (k : string) (names : gset string) :
  dom <$> f !! d = Some names → is_Some (read_file f (d, k)) → k ∈ names.
Proof.
  unfold read_file. cbn [fst snd]. destruct (f !! d) as [files|]; [|done].
  cbn. intros [= <-] H. by apply elem_of_dom.
Qed.

(** X21. When the image names of the pool are pairwise distinct, no
    file name occurs in both [images/train] and [images/val]. *)
Theorem subsets_share_no_name (val_ratio : Q) (w : world) :
  dir_exists (fs w) yaml_dir = true →
  NoDup (out_image_name <$> pool_of cascade (fs w) (np_random w)) →
  ∃ w',
    augment_dataset cascade output_dir yaml_path val_ratio w = (Ok (), w') ∧
    ∀ k, is_Some (read_file (fs w') (out_images train, k)) →
         is_Some (read_file (fs w') (out_images val, k)) → False.
Proof.
  intros [yamls Hyaml]%yaml_dir_exists Hnd.
  destruct (augment_dataset_run cascade output_dir yaml_path val_ratio w yamls Hyaml)
    as [out Hrun].
  eexists. split; [exact Hrun|]. cbn [fs]. intros k Htr Hva.
  pose proof (pool_of_ok cascade (fs w) (np_random w)) as Hpool.
  set (pool := pool_of cascade (fs w) (np_random w)) in *.
  destruct (dom_written_both _ pool val_ratio train Hpool) as [Hdt _].
  destruct (dom_written_both _ pool val_ratio val Hpool) as [Hdv _].
  cbv zeta in Hdt, Hdv.
  assert (Hk1 : k ∈ (list_to_set (out_image_name <$> subset train pool val_ratio)
                      : gset string)).
  { eapply is_Some_read_file; [exact Hdt|]. unfold read_file in *. cbn [fst snd] in *.
    by rewrite !lookup_delete_ne, !lookup_insert_ne in Htr by done. }
  assert (Hk2 : k ∈ (list_to_set (out_image_name <$> subset val pool val_ratio)
                      : gset string)).
  { eapply is_Some_read_file; [exact Hdv|]. unfold read_file in *. cbn [fst snd] in *.
    by rewrite !lookup_delete_ne, !lookup_insert_ne in Hva by done. }
  apply elem_of_list_to_set in Hk1, Hk2.
  assert (Hsh : NoDup (out_image_name <$> (shuffle pool (py_seed 42)).1)).
  { by rewrite shuffle_Permutation. }
  rewrite <- (slice_to_from (val_count_of (length (shuffle pool (py_seed 42)).1) val_ratio)
                (shuffle pool (py_seed 42)).1), fmap_app in Hsh.
  apply NoDup_app in Hsh as (_ & Hdisj & _).
  by apply (Hdisj k).
Qed.

End leakage.

Lemma subsets_share_no_name_witness :
  ∃ w',
    augment_dataset TRANSFORMS "data-augmented" "train/dataset.yaml" float_0_2
      (demo_world fs_small) = (Ok (), w') ∧
    ∀ k, is_Some (read_file (fs w') (out_images train, k)) →
         is_Some (read_file (fs w') (out_images val, k)) → False.
Proof.
  apply (subsets_share_no_name TRANSFORMS "data-augmented" "train/dataset.yaml"
           float_0_2 (demo_world fs_small)).
  - reflexivity.
  - apply (bool_decide_unpack _). vm_compute. exact I.
Defined.

(** ** The generator of NumPy over a run *)

Section draws.
Context `{cv : OpenCV} `{rng : PyRandom}.

Lemma augment_all_draws (f : filesystem) (kip_imgs : list string)
    (files : gmap string content) (s : np_state) (i : nat) :
  aug_np (augment_all TRANSFORMS f kip_imgs files s) i
  = s (deviates_drawn f kip_imgs + i)%nat.
Proof.
  revert files s i. induction kip_imgs as [|x l IH]; intros files s i; [done|].
  cbn [augment_all]. unfold deviates_drawn. cbn [sum_list_with].
  fold (deviates_drawn f l).
  destruct (read_file f (kip_labels, pathlib.stem x +:+ ".txt")) as [label|];
    [|apply IH].
  destruct (read_file f (kip_images, x) ≫= imread) as [img|]; [|apply IH].
  cbn [aug_np]. rewrite IH, cascade_state. f_equal. lia.
Qed.

(** X22. A run advances NumPy's generator by exactly the number of
    values of the seed images that have a label and can be decoded;
    nothing after the augmentation step draws from it. *)
Theorem run_draws (output_dir yaml_path : string) (val_ratio : Q) (w : world) :
  dir_exists (fs w) yaml_dir = true →
  ∃ w',
    main output_dir yaml_path val_ratio w = (Ok (), w') ∧
    ∀ i, np_random w' i
         = np_random w (deviates_drawn (fs w) (glob_jpg (fs w) kip_images) + i)%nat.
Proof.
  intros [yamls Hyaml]%yaml_dir_exists. unfold main.
  destruct (augment_dataset_run TRANSFORMS output_dir yaml_path val_ratio w yamls Hyaml)
    as [out Hrun].
  eexists. split; [exact Hrun|]. cbn [np_random]. intros i. apply augment_all_draws.
Qed.

End draws.

Lemma run_draws_witness :
  ∃ w',
    main "data-augmented" "train/dataset.yaml" float_0_2 (demo_world fs_small)
    = (Ok (), w') ∧
    ∀ i, np_random w' i
         = np_random (demo_world fs_small)
             (deviates_drawn (fs (demo_world fs_small))
                (glob_jpg (fs (demo_world fs_small)) kip_images) + i)%nat.
Proof.
  apply (run_draws "data-augmented" "train/dataset.yaml" float_0_2 (demo_world fs_small)).
  reflexivity.
Defined.

Lemma run_keeps_inputs_witness :
  ∃ w',
    augment_dataset TRANSFORMS "data-augmented" "train/dataset.yaml" float_0_2
      (demo_world fs_small) = (Ok (), w') ∧
    (∀ d, d ∈ [kip_images; kip_labels; kol_images train; kol_labels train;
               kol_images val; kol_labels val] →
       fs w' !! d = fs (demo_world fs_small) !! d) ∧
    fs w' !! aug_dir = None ∧
    (∀ k, k ≠ "dataset.yaml" →
       read_file (fs w') (yaml_dir, k) = read_file (fs (demo_world fs_small)) (yaml_dir, k)).
Proof.
  apply (run_keeps_inputs TRANSFORMS "data-augmented" "train/dataset.yaml" float_0_2
           (demo_world fs_small)).
  reflexivity.
Defined.

Lemma run_ignores_random_state_witness :
  ∃ w1 w2,
    augment_dataset TRANSFORMS "data-augmented" "train/dataset.yaml" float_0_2
      (World fs_small (7 : Z) np_zeros []) = (Ok (), w1) ∧
    augment_dataset TRANSFORMS "data-augmented" "train/dataset.yaml" float_0_2
      (World fs_small (1234 : Z) np_zeros []) = (Ok (), w2) ∧
    fs w1 = fs w2 ∧
    py_random w1 = py_random w2 ∧
    py_random w1 = (shuffle (pool_of TRANSFORMS fs_small np_zeros) (py_seed 42)).2.
Proof.
  apply (run_ignores_random_state (rng := demo_rng) TRANSFORMS "data-augmented"
           "train/dataset.yaml" float_0_2 fs_small np_zeros [] (7 : Z) (1234 : Z)).
  reflexivity.
Defined.

Lemma manifest_counts_witness :
  ∃ w' kip aug kol total ntrain nval,
    augment_dataset TRANSFORMS "data-augmented" "train/dataset.yaml" float_0_2
      (demo_world fs_small) = (Ok (), w') ∧
    read_file (fs w') (yaml_dir, "dataset.yaml")
    = Some (yaml_content "data-augmented" kip aug kol total ntrain nval) ∧
    kip = length (glob_jpg (fs (demo_world fs_small)) kip_images) ∧
    total = length (pool_of TRANSFORMS (fs (demo_world fs_small))
                      (np_random (demo_world fs_small))) ∧
    (ntrain + nval = total)%nat ∧
    (kip + aug + kol
     = total + length (omap (original_warning (fs (demo_world fs_small)))
                         (glob_jpg (fs (demo_world fs_small)) kip_images)))%nat.
Proof.
  apply (manifest_counts TRANSFORMS "data-augmented" "train/dataset.yaml" float_0_2
           (demo_world fs_small)).
  reflexivity.
Defined.

Lemma run_without_manifest_dir_witness :
  ∃ e w',
    augment_dataset TRANSFORMS "data-augmented" "train/dataset.yaml" float_0_2
      (demo_world fs_png) = (Raise e, w') ∧
    exn_type e = "FileNotFoundError" ∧
    (∀ s,
       dom <$> fs w' !! out_images s
       = Some (list_to_set (out_image_name <$>
                 subset s (pool_of TRANSFORMS fs_png np_zeros) float_0_2)) ∧
       dom <$> fs w' !! out_labels s
       = Some (list_to_set (out_label_name <$>
                 subset s (pool_of TRANSFORMS fs_png np_zeros) float_0_2))) ∧
    fs w' !! aug_dir
    = Some (aug_files (augment_all TRANSFORMS fs_png (glob_jpg fs_png kip_images)
                         (staging fs_png) np_zeros)) ∧
    fs w' !! yaml_dir = None.
Proof.
  apply (run_without_manifest_dir TRANSFORMS "data-augmented" "train/dataset.yaml"
           float_0_2 (demo_world fs_png)).
  reflexivity.
Defined.

Lemma output_holds_copies_witness :
  ∃ w',
    augment_dataset TRANSFORMS "data-augmented" "train/dataset.yaml" float_0_2
      (demo_world fs_small) = (Ok (), w') ∧
    ∀ sm, sm ∈ subset train (pool_of TRANSFORMS fs_small np_zeros) float_0_2 →
      sm.1.1.1 ≠ aug_dir →
      is_Some (read_file fs_small sm.1.1) ∧
      read_file (fs w') (out_images train, out_image_name sm) = read_file fs_small sm.1.1 ∧
      read_file (fs w') (out_labels train, out_label_name sm) = read_file fs_small sm.1.2.
Proof.
  apply (output_holds_copies TRANSFORMS "data-augmented" "train/dataset.yaml" float_0_2
           (demo_world fs_small) train).
  - reflexivity.
  - apply (bool_decide_unpack _). vm_compute. exact I.
  - apply (bool_decide_unpack _). vm_compute. exact I.
Defined.

Lemma variant_label_in_output_witness :
  ∃ w',
    augment_dataset TRANSFORMS "data-augmented" "train/dataset.yaml" float_0_2
      (demo_world fs_small) = (Ok (), w') ∧
    ∀ sm, sm ∈ subset train (pool_of TRANSFORMS fs_small np_zeros) float_0_2 →
      sm.1.1.1 = aug_dir →
      ∃ stem suffix label,
        sm = aug_sample stem suffix ∧ suffix ∈ (TRANSFORMS (cv := demo_cv)).*1 ∧
        read_file fs_small (kip_labels, stem +:+ ".txt") = Some label ∧
        read_file (fs w') (out_labels train, aug_name stem suffix +:+ ".txt") = Some label.
Proof.
  apply (variant_label_in_output TRANSFORMS "data-augmented" "train/dataset.yaml"
           float_0_2 (demo_world fs_small) train).
  - reflexivity.
  - reflexivity.
  - apply (bool_decide_unpack _). vm_compute. exact I.
Defined.

Lemma output_file_count_witness :
  ∃ w' images labels,
    augment_dataset TRANSFORMS "data-augmented" "train/dataset.yaml" float_0_2
      (demo_world fs_small) = (Ok (), w') ∧
    fs w' !! out_images val = Some images ∧
    fs w' !! out_labels val = Some labels ∧
    (size images ≤ length (subset val (pool_of TRANSFORMS fs_small np_zeros) float_0_2))%nat ∧
    (size labels ≤ length (subset val (pool_of TRANSFORMS fs_small np_zeros) float_0_2))%nat ∧
    (size images = length (subset val (pool_of TRANSFORMS fs_small np_zeros) float_0_2)
     ↔ NoDup (out_image_name <$> subset val (pool_of TRANSFORMS fs_small np_zeros) float_0_2)) ∧
    (size labels = length (subset val (pool_of TRANSFORMS fs_small np_zeros) float_0_2)
     ↔ NoDup (out_label_name <$> subset val (pool_of TRANSFORMS fs_small np_zeros) float_0_2)).
Proof.
  apply (output_file_count TRANSFORMS "data-augmented" "train/dataset.yaml" float_0_2
           (demo_world fs_small) val).
  reflexivity.
Defined.
